(** * Streaming DMD: a shallow embedding of [sDMD/sDMD.py]

    The development follows the Python module top-down: the Python
    run-time notions the code relies on (exceptions, integer indexing and
    slicing), the NumPy array operations it calls, then [truncatedSVD],
    the class [sDMD_base] and the predictor methods of [sDMDc].

    Arithmetic on array entries is kept abstract (class [Scalar]): every
    general statement holds for whatever the floating-point kernel
    computes.  The LAPACK-backed routines ([np.linalg.eig], [pinv], [svd])
    and the sorting routines are interfaces as well.  Closed examples are
    evaluated on binary64 numbers (Rocq's primitive floats). *)

From Stdlib Require Import String.
From Stdlib Require Import List ZArith Lia Bool Permutation Sorted Floats Uint63.
Import ListNotations.

Set Implicit Arguments.
Set Warnings "-inexact-float".

(* ================================================================== *)
(** ** Python run-time: exceptions and results *)

Inductive exn : Type :=
| ValueError (msg : string)
| IndexError
| LinAlgError
| UnboundLocalError
| TypeError
| ZeroDivisionError
| OverflowError
| CollaboratorError.

Inductive outcome (A : Type) : Type :=
| Return (a : A)
| Raise (e : exn).

Arguments Return {A} a.
Arguments Raise {A} e.

Definition or_raise {A} (e : exn) (o : option A) : outcome A :=
  match o with
  | Some a => Return a
  | None => Raise e
  end.

Definition obind {A B} (o : outcome A) (k : A -> outcome B) : outcome B :=
  match o with
  | Return a => k a
  | Raise e => Raise e
  end.

(** A method body runs against the object state [S]: it ends with a value
    or with an exception, and whatever it assigned before an exception
    stays assigned. *)
Definition M (S A : Type) : Type := S -> outcome A * S.

Definition ret {S A} (a : A) : M S A := fun s => (Return a, s).
Definition raise {S A} (e : exn) : M S A := fun s => (Raise e, s).
Definition bind {S A B} (m : M S A) (k : A -> M S B) : M S B :=
  fun s => match m s with
           | (Return a, s') => k a s'
           | (Raise e, s') => (Raise e, s')
           end.
Definition get {S} : M S S := fun s => (Return s, s).
Definition put {S} (s : S) : M S unit := fun _ => (Return tt, s).
Definition modify {S} (g : S -> S) : M S unit := fun s => (Return tt, g s).
Definition lift {S A} (o : outcome A) : M S A := fun s => (o, s).
(** [try: body except Exception: handler] *)
Definition try_except {S A} (body : M S A) (handler : M S A) : M S A :=
  fun s => match body s with
           | (Return a, s') => (Return a, s')
           | (Raise _, s') => handler s'
           end.

(** A body that keeps a property of the state, however it ends. *)
Definition keeps {S A} (I : S -> Prop) (m : M S A) : Prop :=
  forall s, I s -> I (snd (m s)).

(** A body that keeps [I] however it ends and whose value, when it
    returns one, satisfies [R]. *)
Definition establishes {S A} (I : S -> Prop) (m : M S A) (R : A -> Prop) : Prop :=
  forall s, I s ->
    I (snd (m s)) /\ (forall a, fst (m s) = Return a -> R a).

(** The exceptions a body can end with. *)
Definition raises_only {S A} (P : exn -> Prop) (m : M S A) : Prop :=
  forall s e s1, m s = (Raise e, s1) -> P e.

Declare Scope py_scope.
Delimit Scope py_scope with py.
Notation "x <- m ;; k" := (bind m (fun x => k))
  (at level 61, m at next level, right associativity) : py_scope.
Notation "' pat <- m ;; k" := (bind m (fun x => match x with pat => k end))
  (at level 61, pat pattern, m at next level, right associativity) : py_scope.
Notation "m1 ;; m2" := (bind m1 (fun _ => m2))
  (at level 61, right associativity) : py_scope.

(* ================================================================== *)
(** ** Python sequences: indexing, slicing, [range] *)

(** [l[i]] with Python's negative indices; out of range is [IndexError]. *)
Definition py_index {A} (l : list A) (i : Z) : outcome A :=
  let n := Z.of_nat (length l) in
  let j := if (i <? 0)%Z then (i + n)%Z else i in
  if ((0 <=? j) && (j <? n))%Z
  then match nth_error l (Z.to_nat j) with
       | Some a => Return a
       | None => Raise IndexError
       end
  else Raise IndexError.

(** The stop position of the slice [l[:k]] for a sequence of length [n]. *)
Definition py_stop (k : Z) (n : nat) : nat :=
  if (k <? 0)%Z then Z.to_nat (Z.max 0 (Z.of_nat n + k))
  else Nat.min (Z.to_nat k) n.

Definition slice_to {A} (k : Z) (l : list A) : list A :=
  firstn (py_stop k (length l)) l.

(** [range(n)] *)
Definition py_range (n : Z) : list Z :=
  map Z.of_nat (seq 0 (Z.to_nat n)).

(** A Python number as [truncatedSVD] receives it. *)
Inductive pynum (F : Type) : Type :=
| PyInt (z : Z)
| PyFloat (x : F).
Arguments PyInt {F} z.
Arguments PyFloat {F} x.

(* ================================================================== *)
(** ** Array entries *)

Class Scalar : Type := {
  F : Type;
  f0 : F;
  f1 : F;
  fnan : F;
  fadd : F -> F -> F;
  fsub : F -> F -> F;
  fmul : F -> F -> F;
  fdiv : F -> F -> F;
  fopp : F -> F;
  fsqrt : F -> F;
  (** Python's [**] on floats *)
  fpow : F -> F -> F;
  (** the four-way IEEE comparison *)
  fcmp : F -> F -> float_comparison;
  fisnan : F -> bool;
  (** [np.sum] of a one-dimensional array (the order of additions is the
      library's) *)
  fsum : list F -> F;
  (** the entry a Python integer converts to *)
  of_Z : Z -> F
}.

Section Arrays.
Context {SC : Scalar}.

Definition fgt (a b : F) : bool :=
  match fcmp a b with FGt => true | _ => false end.
Definition flt (a b : F) : bool :=
  match fcmp a b with FLt => true | _ => false end.
Definition fle (a b : F) : bool :=
  match fcmp a b with FLt | FEq => true | _ => false end.
Definition fge (a b : F) : bool :=
  match fcmp a b with FGt | FEq => true | _ => false end.
Definition feq (a b : F) : bool :=
  match fcmp a b with FEq => true | _ => false end.
(** A finite number is one whose difference with itself is zero; an
    infinity is a number that is neither finite nor a NaN. *)
Definition ffinite (a : F) : bool := feq (fsub a a) f0.
Definition finfinite (a : F) : bool := negb (ffinite a) && negb (fisnan a).

(* ================================================================== *)
(** ** NumPy arrays

    A two-dimensional array keeps its row count and the list of its
    columns; a one-dimensional array is a list. *)

Record matrix : Type := mkmat { nrows : nat; columns : list (list F) }.

Inductive ndarray : Type :=
| Vec (v : list F)
| Mat (m : matrix).

Definition ncols (m : matrix) : nat := length (columns m).
Definition col (m : matrix) (j : nat) : list F := nth j (columns m) [].
Definition entry (m : matrix) (i j : nat) : F := nth i (col m j) f0.
Definition row (m : matrix) (i : nat) : list F :=
  map (fun j => entry m i j) (seq 0 (ncols m)).

Definition build (n m : nat) (g : nat -> nat -> F) : matrix :=
  mkmat n (map (fun j => map (fun i => g i j) (seq 0 n)) (seq 0 m)).

(** [np.zeros([n, m])], [np.full((n, m), v)] *)
Definition zeros (n m : nat) : matrix := build n m (fun _ _ => f0).
Definition full (n m : nat) (v : F) : matrix := build n m (fun _ _ => v).

(** [m.T] *)
Definition transpose (m : matrix) : matrix :=
  build (ncols m) (nrows m) (fun i j => entry m j i).

(** [a.flatten()] (row-major) and [a.reshape([-1, 1])] *)
Definition flatten (a : ndarray) : list F :=
  match a with
  | Vec v => v
  | Mat m => concat (map (row m) (seq 0 (nrows m)))
  end.
Definition col_vector (v : list F) : matrix := mkmat (length v) [v].
Definition reshape_col (a : ndarray) : matrix := col_vector (flatten a).

(** [a.shape[0]] *)
Definition shape0 (a : ndarray) : nat :=
  match a with
  | Vec v => length v
  | Mat m => nrows m
  end.

Definition dot (u v : list F) : F :=
  fsum (map (fun p => fmul (fst p) (snd p)) (combine u v)).

(** [a @ b] on two-dimensional arrays *)
Definition matmul (a b : matrix) : outcome matrix :=
  if Nat.eqb (ncols a) (nrows b)
  then Return (build (nrows a) (ncols b) (fun i j => dot (row a i) (col b j)))
  else Raise (ValueError "matmul: mismatch in core dimension").

(** [a @ b] where [b] may be one-dimensional *)
Definition matmul_nd (a : matrix) (b : ndarray) : outcome ndarray :=
  match b with
  | Mat m => obind (matmul a m) (fun r => Return (Mat r))
  | Vec v =>
      if Nat.eqb (ncols a) (length v)
      then Return (Vec (map (fun i => dot (row a i) v) (seq 0 (nrows a))))
      else Raise (ValueError "matmul: mismatch in core dimension")
  end.

(** Broadcasting of two extents, and the index read in an operand. *)
Definition bdim (a b : nat) : option nat :=
  if Nat.eqb a b then Some a
  else if Nat.eqb a 1 then Some b
  else if Nat.eqb b 1 then Some a
  else None.
Definition bidx (extent i : nat) : nat := if Nat.eqb extent 1 then 0 else i.

(** An entry-wise binary operator with broadcasting ([+], [-]). *)
Definition elementwise (op : F -> F -> F) (a b : matrix) : outcome matrix :=
  match bdim (nrows a) (nrows b), bdim (ncols a) (ncols b) with
  | Some n, Some m =>
      Return (build n m (fun i j =>
        op (entry a (bidx (nrows a) i) (bidx (ncols a) j))
           (entry b (bidx (nrows b) i) (bidx (ncols b) j))))
  | _, _ => Raise (ValueError "operands could not be broadcast together")
  end.
Definition madd := elementwise fadd.
Definition msub := elementwise fsub.

(** [c * a] and [a / c] for a scalar (or one-element array) [c] *)
Definition scale (c : F) (a : matrix) : matrix :=
  build (nrows a) (ncols a) (fun i j => fmul c (entry a i j)).
Definition div_scalar (a : matrix) (c : F) : matrix :=
  build (nrows a) (ncols a) (fun i j => fdiv (entry a i j) c).

(** [np.linalg.norm(x, ord=2, axis=0)] of a one-column array *)
Definition norm2 (x : matrix) : F :=
  fsqrt (fsum (map (fun a => fmul a a) (col x 0))).

(** [np.hstack([a, b])], [np.vstack([a, b])] on two-dimensional arrays *)
Definition hstack (a b : matrix) : outcome matrix :=
  if Nat.eqb (nrows a) (nrows b)
  then Return (build (nrows a) (ncols a + ncols b) (fun i j =>
         if Nat.ltb j (ncols a) then entry a i j else entry b i (j - ncols a)))
  else Raise (ValueError "hstack: array dimensions must match").
Definition vstack (a b : matrix) : outcome matrix :=
  if Nat.eqb (ncols a) (ncols b)
  then Return (build (nrows a + nrows b) (ncols a) (fun i j =>
         if Nat.ltb i (nrows a) then entry a i j else entry b (i - nrows a) j))
  else Raise (ValueError "vstack: array dimensions must match").

(** [np.atleast_2d]: a one-dimensional array becomes one row. *)
Definition atleast_2d (a : ndarray) : matrix :=
  match a with
  | Vec v => build 1 (length v) (fun _ j => nth j v f0)
  | Mat m => m
  end.
Definition vstack_nd (a b : ndarray) : outcome matrix :=
  vstack (atleast_2d a) (atleast_2d b).

(** [np.diag(v)] of a one-dimensional array *)
Definition diag (v : list F) : matrix :=
  build (length v) (length v) (fun i j => if Nat.eqb i j then nth i v f0 else f0).

(** [v[idx]] and [m[:, idx]] for an integer index array *)
Fixpoint take {A} (l : list A) (idx : list nat) : outcome (list A) :=
  match idx with
  | [] => Return []
  | i :: rest =>
      match nth_error l i with
      | Some a => obind (take l rest) (fun r => Return (a :: r))
      | None => Raise IndexError
      end
  end.
Definition take_columns (m : matrix) (idx : list nat) : outcome matrix :=
  obind (take (columns m) idx) (fun cs => Return (mkmat (nrows m) cs)).

(** [m[:, :k]], [m[:, j]] (one-dimensional), [m[:, j] = v] *)
Definition columns_to (m : matrix) (k : Z) : matrix :=
  mkmat (nrows m) (slice_to k (columns m)).
Definition column_at (m : matrix) (j : Z) : outcome ndarray :=
  obind (py_index (columns m) j) (fun c => Return (Vec c)).
Fixpoint replace_nth {A} (l : list A) (j : nat) (a : A) : list A :=
  match l, j with
  | [], _ => []
  | _ :: t, O => a :: t
  | h :: t, S j' => h :: replace_nth t j' a
  end.
Definition set_column (m : matrix) (j : nat) (v : list F) : outcome matrix :=
  if Nat.ltb j (ncols m) then
    if Nat.eqb (length v) (nrows m)
    then Return (mkmat (nrows m) (replace_nth (columns m) j v))
    else if Nat.eqb (length v) 1
    then Return (mkmat (nrows m) (replace_nth (columns m) j (repeat (nth 0 v f0) (nrows m))))
    else Raise (ValueError "could not broadcast input array")
  else Raise IndexError.

(** [np.any(np.isnan(a))] *)
Definition any_isnan (m : matrix) : bool :=
  existsb (fun c => existsb fisnan c) (columns m).

(** [np.cumsum] *)
Fixpoint cumsum_from (acc : F) (l : list F) : list F :=
  match l with
  | [] => []
  | a :: t => fadd acc a :: cumsum_from (fadd acc a) t
  end.
Definition cumsum (l : list F) : list F :=
  match l with
  | [] => []
  | a :: t => a :: cumsum_from a t
  end.

(** [np.searchsorted(a, v)] (side left) on an ascending array: the number
    of entries in front that are smaller than [v]. *)
Fixpoint searchsorted (a : list F) (v : F) : nat :=
  match a with
  | [] => 0
  | e :: t => if flt e v then S (searchsorted t v) else 0
  end.

End Arrays.

(* ================================================================== *)
(** ** Library routines the module calls *)

(** [np.linalg.eig], [np.linalg.pinv] and [np.linalg.svd(., full_matrices=False)];
    [None] stands for the routine ending in [LinAlgError]. *)
Class LinAlg {SC : Scalar} : Type := {
  np_eig : matrix -> option (list F * matrix);
  np_pinv : matrix -> option matrix;
  np_svd : matrix -> option (matrix * list F * matrix)
}.

(** [np.sort] and [np.argsort] of a one-dimensional array *)
Class Sorting {SC : Scalar} : Type := {
  np_sort : list F -> list F;
  np_argsort : list F -> list nat
}.

(* ================================================================== *)
(** ** [Status] and [truncatedSVD] *)

Inductive Status : Type := NONE | AUGMENTATION | REDUCTION.

Section Base.
Context {SC : Scalar} {LA : LinAlg} {SO : Sorting}.

Local Open Scope py_scope.

(** [r >= 1] and [0 < r < 1] on a Python number *)
Definition num_ge_1 (r : pynum F) : bool :=
  match r with
  | PyInt z => (1 <=? z)%Z
  | PyFloat x => fge x f1
  end.
Definition num_in_unit (r : pynum F) : bool :=
  match r with
  | PyInt z => ((0 <? z) && (z <? 1))%Z
  | PyFloat x => flt f0 x && flt x f1
  end.
(** Python's [min(r, n)] for an integer [n]: [n] when [n < r], else [r]. *)
Definition py_min (r : pynum F) (n : Z) : pynum F :=
  match r with
  | PyInt z => if (n <? z)%Z then PyInt n else PyInt z
  | PyFloat x => if flt (of_Z n) x then PyInt n else PyFloat x
  end.
(** A slice bound has to be an integer. *)
Definition slice_bound (rank : option (pynum F)) : outcome Z :=
  match rank with
  | None => Raise UnboundLocalError
  | Some (PyInt z) => Return z
  | Some (PyFloat _) => Raise TypeError
  end.

Definition truncatedSVD (X : matrix) (r : pynum F)
  : outcome (matrix * list F * matrix) :=
  obind (or_raise LinAlgError (np_svd X)) (fun usv =>
  let '(U, Sg, V) := usv in
  let V := transpose V in
  let rank : option (pynum F) :=
    if num_ge_1 r then Some (py_min r (Z.of_nat (ncols U)))
    else if num_in_unit r then
      let S2 := map (fun a => fmul a a) Sg in
      let total := fsum S2 in
      let cumulative_energy := cumsum (map (fun a => fdiv a total) S2) in
      match r with
      | PyFloat x => Some (PyInt (Z.of_nat (searchsorted cumulative_energy x) + 1))
      | PyInt z => Some (PyInt (Z.of_nat (searchsorted cumulative_energy (of_Z z)) + 1))
      end
    else None in
  obind (slice_bound rank) (fun k =>
  Return (columns_to U k, slice_to k Sg, columns_to V k))).

(* ================================================================== *)
(** ** [class sDMD_base] *)

Record sDMD_base : Type := mk_sDMD_base {
  rmin : Z;
  rmax : Z;
  thres : F;
  halflife : option F;
  rho : F;
  Ux : matrix;
  Uy : matrix;
  Q : matrix;
  Pinvx : matrix;
  Pinvy : matrix
}.

Definition set_Ux (v : matrix) : M sDMD_base unit :=
  modify (fun o => mk_sDMD_base (rmin o) (rmax o) (thres o) (halflife o) (rho o)
                     v (Uy o) (Q o) (Pinvx o) (Pinvy o)).
Definition set_Uy (v : matrix) : M sDMD_base unit :=
  modify (fun o => mk_sDMD_base (rmin o) (rmax o) (thres o) (halflife o) (rho o)
                     (Ux o) v (Q o) (Pinvx o) (Pinvy o)).
Definition set_Q (v : matrix) : M sDMD_base unit :=
  modify (fun o => mk_sDMD_base (rmin o) (rmax o) (thres o) (halflife o) (rho o)
                     (Ux o) (Uy o) v (Pinvx o) (Pinvy o)).
Definition set_Pinvx (v : matrix) : M sDMD_base unit :=
  modify (fun o => mk_sDMD_base (rmin o) (rmax o) (thres o) (halflife o) (rho o)
                     (Ux o) (Uy o) (Q o) v (Pinvy o)).
Definition set_Pinvy (v : matrix) : M sDMD_base unit :=
  modify (fun o => mk_sDMD_base (rmin o) (rmax o) (thres o) (halflife o) (rho o)
                     (Ux o) (Uy o) (Q o) (Pinvx o) v).

(** [self.rho = 1 if halflife is None else 2 ** (-1 / halflife)]
    (line 97).  The division raises [ZeroDivisionError] at a zero
    half-life; the power raises [OverflowError] when its result is an
    infinity for a finite exponent. *)
Definition forgetting_factor (halflife : option F) : outcome F :=
  match halflife with
  | None => Return f1
  | Some h =>
      if feq h f0 then Raise ZeroDivisionError
      else
        let exponent := fdiv (fopp f1) h in
        let power := fpow (fadd f1 f1) exponent in
        if ffinite exponent && finfinite power then Raise OverflowError
        else Return power
  end.

(** [sDMD_base.__init__]: the object it leaves, or the exception.
    [rmin] and [rmax] are integers here, as the slices and comparisons
    of [update] need them. *)
Definition sDMD_base_init (X Y : matrix) (rmin rmax : Z) (thres : F)
    (halflife : option F) : outcome sDMD_base :=
  obind (forgetting_factor halflife) (fun rho =>
  obind (truncatedSVD X (PyInt rmin)) (fun ux =>
  let '(Ux, _, _) := ux in
  obind (truncatedSVD Y (PyInt rmin)) (fun uy =>
  let '(Uy, _, _) := uy in
  obind (matmul (transpose Ux) X) (fun X_tild =>
  obind (matmul (transpose Uy) Y) (fun Y_tild =>
  obind (matmul Y_tild (transpose X_tild)) (fun Q =>
  obind (matmul X_tild (transpose X_tild)) (fun Pinvx =>
  obind (matmul Y_tild (transpose Y_tild)) (fun Pinvy =>
  Return (mk_sDMD_base rmin rmax thres halflife rho Ux Uy Q Pinvx Pinvy))))))))).

(** *** [sDMD_base.update], stage by stage *)

(** Lines 120-125: the projection errors against the basis as it stands. *)
Definition projection_errors (x y : matrix) : M sDMD_base (matrix * matrix) :=
  self <- get ;;
  xtilde <- lift (matmul (transpose (Ux self)) x) ;;
  ytilde <- lift (matmul (transpose (Uy self)) y) ;;
  px <- lift (matmul (Ux self) xtilde) ;;
  ex <- lift (msub x px) ;;
  py <- lift (matmul (Uy self) ytilde) ;;
  ey <- lift (msub y py) ;;
  ret (ex, ey).

(** The test of lines 131 and 142. *)
Definition residual (e : matrix) (norm : F) : F := fdiv (norm2 e) norm.

(** Lines 131-139: rank augmentation of [Ux]. *)
Definition augment_x (ex : matrix) (normx : F) (x_status : Status)
  : M sDMD_base Status :=
  self <- get ;;
  if fgt (residual ex normx) (thres self) then
    let u_new := div_scalar ex (norm2 ex) in
    U <- lift (hstack (Ux self) (reshape_col (Mat u_new))) ;;
    set_Ux U ;;
    self <- get ;;
    P <- lift (hstack (Pinvx self) (zeros (nrows (Pinvx self)) 1)) ;;
    set_Pinvx P ;;
    self <- get ;;
    P <- lift (vstack (Pinvx self) (zeros 1 (ncols (Pinvx self)))) ;;
    set_Pinvx P ;;
    self <- get ;;
    Q' <- lift (hstack (Q self) (zeros (nrows (Q self)) 1)) ;;
    set_Q Q' ;;
    ret AUGMENTATION
  else ret x_status.

(** Lines 142-149: rank augmentation of [Uy]. *)
Definition augment_y (ey : matrix) (normy : F) (y_status : Status)
  : M sDMD_base Status :=
  self <- get ;;
  if fgt (residual ey normy) (thres self) then
    let u_new := div_scalar ey (norm2 ey) in
    U <- lift (hstack (Uy self) (reshape_col (Mat u_new))) ;;
    set_Uy U ;;
    self <- get ;;
    P <- lift (hstack (Pinvy self) (zeros (nrows (Pinvy self)) 1)) ;;
    set_Pinvy P ;;
    self <- get ;;
    P <- lift (vstack (Pinvy self) (zeros 1 (ncols (Pinvy self)))) ;;
    set_Pinvy P ;;
    self <- get ;;
    Q' <- lift (vstack (Q self) (zeros 1 (ncols (Q self)))) ;;
    set_Q Q' ;;
    ret AUGMENTATION
  else ret y_status.

(** Lines 153-162: rank reduction of [Ux]. *)
Definition compress_x (x_status : Status) : M sDMD_base Status :=
  self <- get ;;
  if (rmax self <? Z.of_nat (ncols (Ux self)))%Z then
    '(eigval, eigvec) <- lift (or_raise LinAlgError (np_eig (Pinvx self))) ;;
    let indx := np_argsort (map fopp eigval) in
    eigval <- lift (take eigval indx) ;;
    qx <- lift (take_columns eigvec (slice_to (rmin self) indx)) ;;
    U <- lift (matmul (Ux self) qx) ;;
    set_Ux U ;;
    self <- get ;;
    Q' <- lift (matmul (Q self) qx) ;;
    set_Q Q' ;;
    self <- get ;;
    set_Pinvx (diag (slice_to (rmin self) eigval)) ;;
    ret REDUCTION
  else ret x_status.

(** Lines 165-174: rank reduction of [Uy]. *)
Definition compress_y (y_status : Status) : M sDMD_base Status :=
  self <- get ;;
  if (rmax self <? Z.of_nat (ncols (Uy self)))%Z then
    '(eigval, eigvec) <- lift (or_raise LinAlgError (np_eig (Pinvy self))) ;;
    let indx := np_argsort (map fopp eigval) in
    let eigval := map fopp (np_sort (map fopp eigval)) in
    qy <- lift (take_columns eigvec (slice_to (rmin self) indx)) ;;
    U <- lift (matmul (Uy self) qy) ;;
    set_Uy U ;;
    self <- get ;;
    Q' <- lift (matmul (transpose qy) (Q self)) ;;
    set_Q Q' ;;
    self <- get ;;
    set_Pinvy (diag (slice_to (rmin self) eigval)) ;;
    ret REDUCTION
  else ret y_status.

(** The y-side reduction with the x-side's rule for the eigenvalues:
    they are indexed by the permutation that selects the eigenvectors. *)
Definition compress_y_paired (y_status : Status) : M sDMD_base Status :=
  self <- get ;;
  if (rmax self <? Z.of_nat (ncols (Uy self)))%Z then
    '(eigval, eigvec) <- lift (or_raise LinAlgError (np_eig (Pinvy self))) ;;
    let indx := np_argsort (map fopp eigval) in
    eigval <- lift (take eigval indx) ;;
    qy <- lift (take_columns eigvec (slice_to (rmin self) indx)) ;;
    U <- lift (matmul (Uy self) qy) ;;
    set_Uy U ;;
    self <- get ;;
    Q' <- lift (matmul (transpose qy) (Q self)) ;;
    set_Q Q' ;;
    self <- get ;;
    set_Pinvy (diag (slice_to (rmin self) eigval)) ;;
    ret REDUCTION
  else ret y_status.

(** Lines 177-183: the regression update. *)
Definition regression_update (x y : matrix) : M sDMD_base unit :=
  self <- get ;;
  xtilde <- lift (matmul (transpose (Ux self)) x) ;;
  ytilde <- lift (matmul (transpose (Uy self)) y) ;;
  yx <- lift (matmul ytilde (transpose xtilde)) ;;
  Q' <- lift (madd (scale (rho self) (Q self)) yx) ;;
  set_Q Q' ;;
  self <- get ;;
  xx <- lift (matmul xtilde (transpose xtilde)) ;;
  P <- lift (madd (scale (rho self) (Pinvx self)) xx) ;;
  set_Pinvx P ;;
  self <- get ;;
  yy <- lift (matmul ytilde (transpose ytilde)) ;;
  P <- lift (madd (scale (rho self) (Pinvy self)) yy) ;;
  set_Pinvy P.

(** Stage 1 (basis expansion) and stage 2 (POD compression). *)
Definition expansion (x y : matrix) : M sDMD_base (Status * Status) :=
  let normx := norm2 x in
  let normy := norm2 y in
  '(ex, ey) <- projection_errors x y ;;
  x_status <- augment_x ex normx NONE ;;
  y_status <- augment_y ey normy NONE ;;
  ret (x_status, y_status).

Definition compression (st : Status * Status) : M sDMD_base (Status * Status) :=
  x_status <- compress_x (fst st) ;;
  y_status <- compress_y (snd st) ;;
  ret (x_status, y_status).

Definition update (x y : ndarray) : M sDMD_base (Status * Status) :=
  let x := reshape_col x in
  let y := reshape_col y in
  st <- expansion x y ;;
  st <- compression st ;;
  regression_update x y ;;
  ret st.

End Base.

(* ================================================================== *)
(** ** The delay buffers of [utilities] *)

(** [Stacker] and [Delayer] are collaborators: a constructor taking two
    integers, [update(x)] returning an array, and a no-argument call that
    returns an array and leaves the object alone.  [None] stands for the
    collaborator raising. *)
Class Buffers {SC : Scalar} : Type := {
  stacker : Type;
  delayer : Type;
  Stacker_new : Z -> Z -> option stacker;
  Stacker_update : stacker -> ndarray -> option (stacker * ndarray);
  Stacker_call : stacker -> option ndarray;
  Delayer_new : Z -> Z -> option delayer;
  Delayer_update : delayer -> ndarray -> option (delayer * ndarray);
  Delayer_call : delayer -> option ndarray
}.

Section Control.
Context {SC : Scalar} {LA : LinAlg} {SO : Sorting} {BF : Buffers}.

Local Open Scope py_scope.

(** Buffer objects live in a store and are reached through references:
    [x.update(..)] changes the object every holder of the reference sees. *)
Inductive obj : Type :=
| StackerObj (b : stacker)
| DelayerObj (d : delayer).

Definition loc : Type := nat.

(** [class sDMDc(sDMD_base)]: the inherited fields and its own. *)
Record sDMDc : Type := mk_sDMDc {
  base : sDMD_base;
  s : Z;
  f : Z;
  nu : nat;
  nx : nat;
  Xstack0 : loc;
  Xstack1 : loc;
  Ustack : loc
}.

Record world : Type := mk_world {
  self : sDMDc;
  heap : list obj
}.

(** Creating an object: it takes the next free reference. *)
Definition alloc (o : obj) : M world loc :=
  w <- get ;;
  put (mk_world (self w) (heap w ++ [o])) ;;
  ret (length (heap w)).

Definition new_Stacker (n depth : Z) : M world loc :=
  b <- lift (or_raise CollaboratorError (Stacker_new n depth)) ;;
  alloc (StackerObj b).
Definition new_Delayer (n delay : Z) : M world loc :=
  d <- lift (or_raise CollaboratorError (Delayer_new n delay)) ;;
  alloc (DelayerObj d).

(** [o.update(x)], dispatched on the class of the object. *)
Definition obj_update (o : obj) (x : ndarray) : outcome (obj * ndarray) :=
  match o with
  | StackerObj b =>
      obind (or_raise CollaboratorError (Stacker_update b x)) (fun r => Return (StackerObj (fst r), snd r))
  | DelayerObj d =>
      obind (or_raise CollaboratorError (Delayer_update d x)) (fun r => Return (DelayerObj (fst r), snd r))
  end.
Definition call_update (l : loc) (x : ndarray) : M world ndarray :=
  w <- get ;;
  match nth_error (heap w) l with
  | Some o =>
      '(o', out) <- lift (obj_update o x) ;;
      w <- get ;;
      put (mk_world (self w) (replace_nth (heap w) l o')) ;;
      ret out
  | None => raise TypeError
  end.

(** [o()] *)
Definition obj_call (o : obj) : outcome ndarray :=
  match o with
  | StackerObj b => or_raise CollaboratorError (Stacker_call b)
  | DelayerObj d => or_raise CollaboratorError (Delayer_call d)
  end.
Definition call_peek (l : loc) : M world ndarray :=
  w <- get ;;
  match nth_error (heap w) l with
  | Some o => lift (obj_call o)
  | None => raise TypeError
  end.

(** [for a in l: body(a)], and the same loop threading a local variable. *)
Fixpoint for_each {S A} (l : list A) (body : A -> M S unit) : M S unit :=
  match l with
  | [] => ret tt
  | a :: rest => body a ;; for_each rest body
  end.
Fixpoint for_fold {S A B} (l : list A) (acc : B) (body : A -> B -> M S B)
  : M S B :=
  match l with
  | [] => ret acc
  | a :: rest => acc' <- body a acc ;; for_fold rest acc' body
  end.

(** The property [A] of [sDMD_base], read on the model. *)
Definition prop_A : M world matrix :=
  w <- get ;;
  P <- lift (or_raise LinAlgError (np_pinv (Pinvx (base (self w))))) ;;
  lift (matmul (Q (base (self w))) P).

(** [y[:nx, 0]] *)
Definition rows_to_of_column0 (y : ndarray) (n : nat) : outcome ndarray :=
  match y with
  | Vec _ => Raise IndexError
  | Mat m =>
      match columns m with
      | [] => Raise IndexError
      | c :: _ => Return (Vec (firstn n c))
      end
  end.

(** [sDMDc.predict_next_raw_state_from_augmented].  The guard of line 429
    evaluates the property [A]; the fields it tests hold arrays, never
    [None], so once [A] is computed the guard is false. *)
Definition predict_next_raw_state_from_augmented
    (current_augmented_input : ndarray) : M world matrix :=
  _ <- prop_A ;;
  w <- get ;;
  let m := self w in
  if negb (Nat.eqb (shape0 current_augmented_input) (nrows (Ux (base m))))
  then ret (full (nx m) 1 fnan)
  else
    try_except
      (A <- prop_A ;;
       t <- lift (matmul_nd (transpose (Ux (base m))) current_augmented_input) ;;
       y_reduced_pred <- lift (matmul_nd A t) ;;
       y_hank_physical_pred <- lift (matmul_nd (Uy (base m)) y_reduced_pred) ;;
       predicted_x_next_raw <-
         lift (rows_to_of_column0 y_hank_physical_pred (nx m)) ;;
       ret (reshape_col predicted_x_next_raw))
      (ret (full (nx m) 1 fnan)).

(** What one pass of the prediction loop leaves: the value the method
    returns from inside the loop, or the locals for the next pass. *)
Inductive loop_step : Type :=
| Returned (result : matrix)
| Continue (predicted_X_raw_horizon : matrix) (current_x_raw_for_loop : ndarray).

(** Lines 519-534: the body of the loop for index [i]. *)
Definition horizon_body (u_future_raw_sequence : matrix)
    (pred_Xstack0 pred_Xstack1 pred_Ustack : loc)
    (i : Z) (predicted_X_raw_horizon : matrix) (current_x_raw_for_loop : ndarray)
  : M world loop_step :=
  w <- get ;;
  u_col <- lift (column_at u_future_raw_sequence (f (self w) + i)) ;;
  let current_u_raw_for_stacker := Mat (reshape_col u_col) in
  x0_hank <- call_update pred_Xstack0 current_x_raw_for_loop ;;
  x_hank_delayed <- call_update pred_Xstack1 x0_hank ;;
  u_delayed <- call_update pred_Ustack current_u_raw_for_stacker ;;
  aug_input_for_step <- lift (vstack_nd x_hank_delayed u_delayed) ;;
  next_x_raw_pred <-
    predict_next_raw_state_from_augmented (Mat aug_input_for_step) ;;
  if any_isnan next_x_raw_pred
  then ret (Returned (columns_to predicted_X_raw_horizon i))
  else
    P <- lift (set_column predicted_X_raw_horizon (Z.to_nat i)
                 (flatten (Mat next_x_raw_pred))) ;;
    ret (Continue P (Mat next_x_raw_pred)).

Fixpoint horizon_loop (u_future_raw_sequence : matrix)
    (pred_Xstack0 pred_Xstack1 pred_Ustack : loc)
    (steps : list Z) (predicted_X_raw_horizon : matrix)
    (current_x_raw_for_loop : ndarray) : M world matrix :=
  match steps with
  | [] => ret predicted_X_raw_horizon
  | i :: rest =>
      r <- horizon_body u_future_raw_sequence pred_Xstack0 pred_Xstack1
             pred_Ustack i predicted_X_raw_horizon current_x_raw_for_loop ;;
      match r with
      | Returned result => ret result
      | Continue P x =>
          horizon_loop u_future_raw_sequence pred_Xstack0 pred_Xstack1
            pred_Ustack rest P x
      end
  end.

Definition x_hist_message : string :=
  "x_initial_raw_history shape is invalid".
Definition u_future_message : string :=
  "u_future_raw_sequence shape is invalid".

(** Lines 479-491: the two shape checks. *)
Definition x_hist_invalid (m : sDMDc) (x_initial_raw_history : matrix) : bool :=
  negb (Nat.eqb (nrows x_initial_raw_history) (nx m))
  || (Z.of_nat (ncols x_initial_raw_history) <? s m + f m - 1)%Z.
Definition u_future_invalid (m : sDMDc) (u_future_raw_sequence : matrix)
    (num_predict_steps : Z) : bool :=
  negb (Nat.eqb (nrows u_future_raw_sequence) (nu m))
  || (Z.of_nat (ncols u_future_raw_sequence) <? num_predict_steps + f m - 1)%Z.

(** Lines 493-515: the temporary buffers and their priming. *)
Definition prime_buffers (x_initial_raw_history u_future_raw_sequence : matrix)
  : M world (loc * loc * loc * ndarray) :=
  w <- get ;;
  let m := self w in
  let required_x_hist_len := (s m + f m - 1)%Z in
  pred_Xstack0 <- new_Stacker (Z.of_nat (nx m)) (s m) ;;
  pred_Xstack1 <- new_Delayer (Z.of_nat (nx m) * s m) (f m) ;;
  pred_Ustack <- new_Delayer (Z.of_nat (nu m)) (f m) ;;
  for_each (py_range (s m)) (fun i =>
    c <- lift (column_at x_initial_raw_history (- (s m - i))) ;;
    _ <- call_update pred_Xstack0 c ;;
    ret tt) ;;
  temp_s0_for_priming <- new_Stacker (Z.of_nat (nx m)) (s m) ;;
  temp_hist_x0_hank_for_Xstack1 <-
    for_fold (py_range required_x_hist_len) [] (fun i temp_hist =>
      c <- lift (column_at x_initial_raw_history i) ;;
      _ <- call_update temp_s0_for_priming c ;;
      if (s m - 1 <=? i)%Z
      then h <- call_peek temp_s0_for_priming ;; ret (temp_hist ++ [h])
      else ret temp_hist) ;;
  for_each (py_range (f m)) (fun i =>
    h <- lift (py_index temp_hist_x0_hank_for_Xstack1 (- (f m - i))) ;;
    _ <- call_update pred_Xstack1 h ;;
    ret tt) ;;
  for_each (py_range (f m)) (fun i =>
    c <- lift (column_at u_future_raw_sequence i) ;;
    _ <- call_update pred_Ustack (Mat (reshape_col c)) ;;
    ret tt) ;;
  c <- lift (column_at x_initial_raw_history (-1)) ;;
  ret (pred_Xstack0, pred_Xstack1, pred_Ustack, Mat (reshape_col c)).

(** [sDMDc.predict_horizon].  As in the single-step predictor, the guard
    of line 475 evaluates the property [A] and is false afterwards. *)
Definition predict_horizon (x_initial_raw_history u_future_raw_sequence : matrix)
    (num_predict_steps : Z) : M world matrix :=
  _ <- prop_A ;;
  w <- get ;;
  let m := self w in
  if x_hist_invalid m x_initial_raw_history
  then raise (ValueError x_hist_message)
  else if u_future_invalid m u_future_raw_sequence num_predict_steps
  then raise (ValueError u_future_message)
  else if (num_predict_steps <? 0)%Z
  then raise (ValueError "negative dimensions are not allowed")
  else
    let predicted_X_raw_horizon := zeros (nx m) (Z.to_nat num_predict_steps) in
    '(pred_Xstack0, pred_Xstack1, pred_Ustack, current_x_raw_for_loop) <-
      prime_buffers x_initial_raw_history u_future_raw_sequence ;;
    horizon_loop u_future_raw_sequence pred_Xstack0 pred_Xstack1 pred_Ustack
      (py_range num_predict_steps) predicted_X_raw_horizon
      current_x_raw_for_loop.

End Control.

(* ================================================================== *)
(** ** What the statements below speak about *)

Section Notions.
Context {SC : Scalar} {LA : LinAlg} {SO : Sorting}.

(** The normalized projection residual [‖v − U Uᵀ v‖ / ‖v‖] of a column
    [v] against a basis [U], computed as lines 117-131 compute it. *)
Definition normalized_residual (U v : matrix) : outcome F :=
  obind (matmul (transpose U) v) (fun vtilde =>
  obind (matmul U vtilde) (fun p =>
  obind (msub v p) (fun e =>
  Return (residual e (norm2 v))))).

(** The shapes of the three statistics against the two bases. *)
Definition shape_inv (o : sDMD_base) : Prop :=
  nrows (Q o) = ncols (Uy o) /\ ncols (Q o) = ncols (Ux o) /\
  nrows (Pinvx o) = ncols (Ux o) /\ ncols (Pinvx o) = ncols (Ux o) /\
  nrows (Pinvy o) = ncols (Uy o) /\ ncols (Pinvy o) = ncols (Uy o).

(** What the code relies on from the library routines: [eig] of a square
    array returns one eigenvalue and one eigenvector column per row, and
    sorting keeps the length. *)
Definition eig_shape_law : Prop :=
  forall m w V, np_eig m = Some (w, V) ->
    nrows m = ncols m /\ length w = nrows m /\ nrows V = nrows m /\ ncols V = nrows m.
Definition sort_length_law : Prop :=
  forall v, length (np_sort v) = length v.
Definition argsort_length_law : Prop :=
  forall v, length (np_argsort v) = length v.

(** What every state reached from a construction with [rmin <= rmax]
    satisfies: consistent shapes, [0 <= rmin <= rmax], and no basis wider
    than [rmax]. *)
Definition reachable_state (o : sDMD_base) : Prop :=
  shape_inv o /\ (0 <= rmin o <= rmax o)%Z /\
  (Z.of_nat (ncols (Ux o)) <= rmax o)%Z /\
  (Z.of_nat (ncols (Uy o)) <= rmax o)%Z.

(** The basis width of one side lies within the configured bounds. *)
Definition width_in_bounds (o : sDMD_base) (U : matrix) : Prop :=
  (rmin o <= Z.of_nat (ncols U) <= rmax o)%Z.

(** The claim about one side of [update]: [res] is the residual against
    the basis before the call, [w] the width before, [w_aug] after the
    expansion stage, [w'] after the call. *)
Definition side_outcome (o : sDMD_base) (res : F) (w w_aug w' : nat)
    (status : Status) : Prop :=
  (fle res (thres o) = true -> status = NONE /\ w_aug = w /\ w' = w) /\
  (fgt res (thres o) = true ->
     w_aug = S w /\
     if (rmax o <? Z.of_nat (S w))%Z
     then Z.of_nat w' = rmin o /\ status = REDUCTION
     else w' = S w /\ status = AUGMENTATION).

(** The configuration fields, which [update] never assigns. *)
Definition same_config (o o' : sDMD_base) : Prop :=
  rmin o' = rmin o /\ rmax o' = rmax o /\ thres o' = thres o /\
  rho o' = rho o /\ halflife o' = halflife o.

(** What a completed expansion stage did, side by side. *)
Definition expanded_side (res : F) (thr : F) (w w1 : nat) (st : Status) : Prop :=
  (fgt res thr = false /\ st = NONE /\ w1 = w) \/
  (fgt res thr = true /\ st = AUGMENTATION /\ w1 = S w).

(** What a completed compression stage did, side by side: [k] is the
    width the reduction leaves. *)
Definition compressed_side (bound : Z) (w1 w2 k : nat) (st1 st2 : Status) : Prop :=
  ((bound <? Z.of_nat w1)%Z = false /\ st2 = st1 /\ w2 = w1) \/
  ((bound <? Z.of_nat w1)%Z = true /\ st2 = REDUCTION /\ w2 = k).


(** The order [np.sort] arranges by, read off the comparison. *)
Definition sorts_before (a b : F) : Prop := fle a b = true.

(** [np.sort] on one input: an ascending rearrangement of it. *)
Definition sorted_result (v sorted : list F) : Prop :=
  Permutation sorted v /\ Sorted sorts_before sorted.
(** [np.argsort] on one input: a rearrangement of the positions that
    reads the input in ascending order. *)
Definition argsorted_result (v : list F) (idx : list nat) : Prop :=
  Permutation idx (seq 0 (length v)) /\
  Sorted sorts_before (map (fun i => nth i v f0) idx).

(** On the entries of [l] the sorting order is transitive and tells
    different entries apart. *)
Definition ordered_on (l : list F) : Prop :=
  (forall a b c, In a l -> In b l -> In c l ->
     sorts_before a b -> sorts_before b c -> sorts_before a c) /\
  (forall a b, In a l -> In b l ->
     sorts_before a b -> sorts_before b a -> a = b).

End Notions.

Section ControlNotions.
Context {SC : Scalar} {LA : LinAlg} {SO : Sorting} {BF : Buffers}.

(** Against the world [w0] at the start of a call: the model's fields are
    as they were and every object that existed is as it was. *)
Definition frame (w0 w : world) : Prop :=
  self w = self w0 /\ firstn (length (heap w0)) (heap w) = heap w0.

(** A reference created after the call started. *)
Definition fresh_for (w0 : world) (l : loc) : Prop := length (heap w0) <= l.

Definition fresh_buffers (w0 : world) (r : loc * loc * loc * ndarray) : Prop :=
  let '(l0, l1, l2, _) := r in
  fresh_for w0 l0 /\ fresh_for w0 l1 /\ fresh_for w0 l2.

(** An exception other than the two the shape checks raise. *)
Definition not_dimension_error (e : exn) : Prop :=
  e <> ValueError x_hist_message /\ e <> ValueError u_future_message.

End ControlNotions.

(* ================================================================== *)
(** ** The rest of the module: [hankel_transform], the derived views and
    the adapters *)

Section Remaining.
Context {SC : Scalar} {LA : LinAlg} {SO : Sorting} {BF : Buffers}.

Local Open Scope py_scope.

(** [l[a:b]] and [l[a:]]: a bound is clamped as the stop of [l[:k]] is. *)
Definition slice_range {A} (a b : Z) (l : list A) : list A :=
  firstn (py_stop b (length l) - py_stop a (length l))
    (skipn (py_stop a (length l)) l).
Definition slice_from {A} (a : Z) (l : list A) : list A :=
  skipn (py_stop a (length l)) l.

(** [m[:, a:b]], [m[:, a:]], [m[a:, :]], [m[:a, :]] *)
Definition columns_range (m : matrix) (a b : Z) : matrix :=
  mkmat (nrows m) (slice_range a b (columns m)).
Definition columns_from (m : matrix) (a : Z) : matrix :=
  mkmat (nrows m) (slice_from a (columns m)).
Definition rows_from (m : matrix) (a : Z) : matrix :=
  let st := py_stop a (nrows m) in
  mkmat (nrows m - st) (map (skipn st) (columns m)).
Definition rows_to (m : matrix) (a : Z) : matrix :=
  let st := py_stop a (nrows m) in
  mkmat st (map (firstn st) (columns m)).

(** The index type of array shapes ([npy_intp], 64 bits). *)
Definition intp_max : Z := 2 ^ 63 - 1.
Definition fits_intp (n : Z) : bool :=
  ((- intp_max - 1 <=? n) && (n <=? intp_max))%Z.

(** What [np.zeros([n, m])] says of a shape it refuses for a negative
    extent.  The extents are converted to the index type first; then
    they are looked at in order, and a positive one is multiplied into
    the byte count (8 bytes an entry) before the next is looked at. *)
Definition zeros_refusal (n m : Z) : string :=
  if negb (fits_intp n) || negb (fits_intp m)
  then "Maximum allowed dimension exceeded"
  else if (n <? 0)%Z then "negative dimensions are not allowed"
  else if (intp_max <? 8 * n)%Z
  then "array is too big; `arr.size * arr.dtype.itemsize` is larger than the maximum possible size."
  else "negative dimensions are not allowed".

(** [np.zeros([n, m])] for Python integers.  A shape with a negative
    extent raises [ValueError].  The array of a shape without one is
    taken to exist: arrays are lists here, so what the index type and
    the memory allow for such a shape is left out. *)
Definition zeros_Z (n m : Z) : outcome matrix :=
  if ((n <? 0) || (m <? 0))%Z
  then Raise (ValueError (zeros_refusal n m))
  else Return (zeros (Z.to_nat n) (Z.to_nat m)).

(** [out[a:b, :] = src]: the source is broadcast to the rows selected. *)
Definition broadcastable (source target : nat) : bool :=
  Nat.eqb source target || Nat.eqb source 1.
Definition assign_rows (out : matrix) (a b : Z) (src : matrix) : outcome matrix :=
  let lo := py_stop a (nrows out) in
  let hi := py_stop b (nrows out) in
  if broadcastable (nrows src) (hi - lo) && broadcastable (ncols src) (ncols out)
  then Return (build (nrows out) (ncols out) (fun p j =>
         if Nat.leb lo p && Nat.ltb p hi
         then entry src (bidx (nrows src) (p - lo)) (bidx (ncols src) j)
         else entry out p j))
  else Raise (ValueError "could not broadcast input array").

(** [X.reshape(1, -1)] of a one-dimensional array *)
Definition reshape_row (v : list F) : matrix :=
  build 1 (length v) (fun _ j => nth j v f0).

(** Lines 52-54 of [hankel_transform]: the loop over the blocks. *)
Fixpoint hankel_fill (X : matrix) (l m w : Z) (blocks : list Z) (out : matrix)
  : outcome matrix :=
  match blocks with
  | [] => Return out
  | i :: rest =>
      let row := columns_range X (m - i - w) (m - i) in
      obind (assign_rows out (i * l) ((i + 1) * l) row) (fun out' =>
      hankel_fill X l m w rest out')
  end.

Definition hankel_transform (X : ndarray) (s : Z) : outcome matrix :=
  let X := match X with
           | Vec v => reshape_row v
           | Mat m => m
           end in
  if (s =? 1)%Z then Return X
  else
    let l := Z.of_nat (nrows X) in
    let m := Z.of_nat (ncols X) in
    let w := (m - (s - 1))%Z in
    obind (zeros_Z (l * s) w) (fun out =>
    hankel_fill X l m w (py_range s) out).

(** *** Construction with [rmin] as it is passed *)

(** Lines 100-111 of [sDMD_base.__init__]: [rmin] goes to
    [truncatedSVD] untouched, an integer or a float; the bases and the
    three statistics are what the object gets. *)
Definition init_statistics (X Y : matrix) (rmin : pynum F)
  : outcome (matrix * matrix * matrix * matrix * matrix) :=
  obind (truncatedSVD X rmin) (fun ux =>
  let '(Ux, _, _) := ux in
  obind (truncatedSVD Y rmin) (fun uy =>
  let '(Uy, _, _) := uy in
  obind (matmul (transpose Ux) X) (fun X_tild =>
  obind (matmul (transpose Uy) Y) (fun Y_tild =>
  obind (matmul Y_tild (transpose X_tild)) (fun Q =>
  obind (matmul X_tild (transpose X_tild)) (fun Pinvx =>
  obind (matmul Y_tild (transpose Y_tild)) (fun Pinvy =>
  Return (Ux, Uy, Q, Pinvx, Pinvy)))))))).

(** *** Derived views of [sDMD_base] *)

(** The property [rank]. *)
Definition rank (o : sDMD_base) : nat := ncols (Ux o).

(** The property [A]: [self.Q @ np.linalg.pinv(self.Pinvx)]. *)
Definition operator_A (o : sDMD_base) : outcome matrix :=
  obind (or_raise LinAlgError (np_pinv (Pinvx o))) (fun P =>
  matmul (Q o) P).

(** The property [modes] of [sDMD_base]: lifted eigenvectors and
    eigenvalues of [Ux.T @ Uy @ A]. *)
Definition base_modes (o : sDMD_base) : outcome (matrix * list F) :=
  obind (matmul (transpose (Ux o)) (Uy o)) (fun t =>
  obind (operator_A o) (fun A =>
  obind (matmul t A) (fun K =>
  obind (or_raise LinAlgError (np_eig K)) (fun ev =>
  let '(eigvals, eigvecK) := ev in
  obind (matmul (Ux o) eigvecK) (fun modes =>
  Return (modes, eigvals)))))).

(** *** The control adapters [sDMDc_oneshot] and [sDMDc]

    The two classes have the same fields; one record serves both. *)

Definition with_base (m : sDMDc) (o : sDMD_base) : sDMDc :=
  mk_sDMDc o (s m) (f m) (nu m) (nx m) (Xstack0 m) (Xstack1 m) (Ustack m).

(** A method of [sDMD_base] called through [super()]: it runs on the
    inherited fields. *)
Definition super {A} (body : M sDMD_base A) : M world A :=
  fun w =>
    let (r, o) := body (base (self w)) in
    (r, mk_world (with_base (self w) o) (heap w)).

(** Lines 287-291 and 353-357: the three buffers take the new samples. *)
Definition push_samples (x_in u_in : ndarray)
  : M world (ndarray * ndarray * ndarray) :=
  w <- get ;;
  yhank <- call_update (Xstack0 (self w)) x_in ;;
  w <- get ;;
  xhank <- call_update (Xstack1 (self w)) yhank ;;
  w <- get ;;
  udel <- call_update (Ustack (self w)) u_in ;;
  ret (yhank, xhank, udel).

(** [sDMDc.update]: the target is the stacked state. *)
Definition sDMDc_update (x_in u_in : ndarray) : M world (Status * Status) :=
  let x_in := Mat (reshape_col x_in) in
  let u_in := Mat (reshape_col u_in) in
  '(yhank, xhank, udel) <- push_samples x_in u_in ;;
  xnew <- lift (vstack_nd xhank udel) ;;
  super (update (Mat xnew) yhank).

(** [sDMDc_oneshot.update]: the target is the raw state. *)
Definition sDMDc_oneshot_update (x_in u_in : ndarray) : M world (Status * Status) :=
  let x_in := Mat (reshape_col x_in) in
  let u_in := Mat (reshape_col u_in) in
  '(x0hank, xhank, udel) <- push_samples x_in u_in ;;
  xnew <- lift (vstack_nd xhank udel) ;;
  let y := x_in in
  super (update (Mat xnew) y).

(** The property [B] of both classes:
    [self.Uy @ self.A @ self.Ux[-self.nu:, :].T]. *)
Definition prop_B : M world matrix :=
  w <- get ;;
  let m := self w in
  A <- prop_A ;;
  UA <- lift (matmul (Uy (base m)) A) ;;
  lift (matmul UA (transpose (rows_from (Ux (base m)) (- Z.of_nat (nu m))))).

(** The property [CB]: [B] itself for [sDMDc_oneshot], its first [nx]
    rows for [sDMDc]. *)
Definition oneshot_CB : M world matrix := prop_B.
Definition sDMDc_CB : M world matrix :=
  w <- get ;;
  B <- prop_B ;;
  ret (rows_to B (Z.of_nat (nx (self w)))).

(** The property [modes] of both classes: the control rows of [Ux] are
    left out ([Ux[: -self.nu, :]]). *)
Definition control_modes : M world (matrix * list F) :=
  w <- get ;;
  let m := self w in
  let Ux1 := rows_to (Ux (base m)) (- Z.of_nat (nu m)) in
  t <- lift (matmul (transpose Ux1) (Uy (base m))) ;;
  A <- prop_A ;;
  K <- lift (matmul t A) ;;
  '(eigvals, eigvecK) <- lift (or_raise LinAlgError (np_eig K)) ;;
  modes <- lift (matmul Ux1 eigvecK) ;;
  ret (modes, eigvals).

(** [sDMDc.get_current_augmented_input_for_prediction] *)
Definition get_current_augmented_input_for_prediction : M world matrix :=
  w <- get ;;
  current_X_hank_delayed <- call_peek (Xstack1 (self w)) ;;
  w <- get ;;
  current_U_delayed <- call_peek (Ustack (self w)) ;;
  lift (vstack_nd current_X_hank_delayed current_U_delayed).

(** What [get_effective_AB] hands back: the two matrices, or the pair
    [(None, None)]. *)
Inductive extraction : Type :=
| Matrices (A_eff B_eff : matrix)
| NonePair.

(** [sDMDc.get_effective_AB].  The guard of line 637 evaluates the
    property [A] before the [try]; the [except] branch of lines 659-661
    returns [(None, None)]. *)
Definition get_effective_AB : M world extraction :=
  _ <- prop_A ;;
  w <- get ;;
  let m := self w in
  try_except
    (A <- prop_A ;;
     UA <- lift (matmul (Uy (base m)) A) ;;
     Operator_learned_full <- lift (matmul UA (transpose (Ux (base m)))) ;;
     let A_B_block := rows_to Operator_learned_full (Z.of_nat (nx m)) in
     let expected_input_dim_for_AB_extraction := nx m + nu m in
     if ((s m =? 1) && (f m =? 1))%Z
        && (Nat.eqb (nrows A_B_block) (nx m)
            && Nat.eqb (ncols A_B_block) expected_input_dim_for_AB_extraction)
     then
       let A_eff := columns_to A_B_block (Z.of_nat (nx m)) in
       let B_eff := columns_from A_B_block (Z.of_nat (nx m)) in
       ret (Matrices A_eff B_eff)
     else ret NonePair)
    (ret NonePair).

End Remaining.

(** *** The plain adapter [sDMD] *)

Module Plain.
Section Adapter.
Context {SC : Scalar} {LA : LinAlg} {SO : Sorting}.

Local Open Scope py_scope.

(** [class sDMD(sDMD_base)]: the inherited fields, [s], [f], the rolling
    buffer, and [x_buff], which exists once [update] has run. *)
Record sDMD : Type := mk_sDMD {
  base : sDMD_base;
  s : Z;
  f : Z;
  rolling_x : matrix;
  x_buff : option ndarray
}.

Definition super {A} (body : M sDMD_base A) : M sDMD A :=
  fun o =>
    let (r, b) := body (base o) in
    (r, mk_sDMD b (s o) (f o) (rolling_x o) (x_buff o)).
Definition set_rolling_x (v : matrix) : M sDMD unit :=
  modify (fun o => mk_sDMD (base o) (s o) (f o) v (x_buff o)).
Definition set_x_buff (v : ndarray) : M sDMD unit :=
  modify (fun o => mk_sDMD (base o) (s o) (f o) (rolling_x o) (Some v)).

(** [sDMD.__init__] with [Y] given or left to default to [X]. *)
Definition init (X : matrix) (rmin rmax : Z) (Y : option matrix) (f s : Z)
    (thres : F) (halflife : option F) : outcome sDMD :=
  let Y := match Y with
           | None => X
           | Some Y => Y
           end in
  let rolling_x := columns_from X (- (s + f - 1)) in
  obind (hankel_transform (Mat X) s) (fun X_hank =>
  let X_hank := columns_to X_hank (- f) in
  let Y_init := columns_from Y (f + s - 1) in
  obind (sDMD_base_init X_hank Y_init rmin rmax thres halflife) (fun b =>
  Return (mk_sDMD b s f rolling_x None))).

(** [sDMD.update(x_in, y_in=None)] *)
Definition update (x_in : ndarray) (y_in : option ndarray)
  : M sDMD (Status * Status) :=
  let y_in := match y_in with
              | None => x_in
              | Some y => y
              end in
  let x_in := reshape_col x_in in
  let y_in := reshape_col y_in in
  self <- get ;;
  R <- lift (hstack (rolling_x self) x_in) ;;
  set_rolling_x R ;;
  self <- get ;;
  X_hank <- lift (hankel_transform (Mat (rolling_x self)) (s self)) ;;
  last_column <- lift (column_at X_hank (-1)) ;;
  set_x_buff last_column ;;
  xnew <- lift (column_at X_hank 0) ;;
  let ynew := Mat y_in in
  status <- super (update xnew ynew) ;;
  self <- get ;;
  set_rolling_x (columns_from (rolling_x self) 1) ;;
  ret status.

End Adapter.
End Plain.

(** What the statements about the derived views rely on from [pinv]:
    the pseudo-inverse of an [n x m] array is [m x n]. *)
Definition pinv_shape_law {SC : Scalar} {LA : LinAlg} : Prop :=
  forall m p, np_pinv m = Some p -> nrows p = ncols m /\ ncols p = nrows m.

Section RemainingNotions.
Context {SC : Scalar} {LA : LinAlg} {SO : Sorting} {BF : Buffers}.

(** What no stage of [update] changes: the configuration and the row
    counts of the two bases. *)
Definition same_frame (o0 o : sDMD_base) : Prop :=
  same_config o0 o /\
  nrows (Ux o) = nrows (Ux o0) /\ nrows (Uy o) = nrows (Uy o0).

(** What an adapter's [update] leaves of the world [w0] it started in:
    [s], [f], [nu], [nx] and the three buffer references, the number of
    objects, and every object other than the three buffers. *)
Definition adapter_frame (w0 w : world) : Prop :=
  s (self w) = s (self w0) /\ f (self w) = f (self w0) /\
  nu (self w) = nu (self w0) /\ nx (self w) = nx (self w0) /\
  Xstack0 (self w) = Xstack0 (self w0) /\
  Xstack1 (self w) = Xstack1 (self w0) /\
  Ustack (self w) = Ustack (self w0) /\
  length (heap w) = length (heap w0) /\
  forall l, l <> Xstack0 (self w0) -> l <> Xstack1 (self w0) ->
            l <> Ustack (self w0) ->
    nth_error (heap w) l = nth_error (heap w0) l.

End RemainingNotions.

(* ================================================================== *)
(** ** Binary64 arithmetic and reference routines for closed examples

    The examples at the end of the file run the definitions above on
    IEEE binary64 numbers.  The LAPACK-backed routines are given on
    diagonal arrays, where their results are immediate; the examples use
    no other input to them. *)

Definition float_sum (l : list float) : float :=
  fold_left PrimFloat.add l 0%float.

Definition float_of_Z (z : Z) : float :=
  if (z <? 0)%Z
  then PrimFloat.opp (PrimFloat.of_uint63 (Uint63.of_Z (- z)))
  else PrimFloat.of_uint63 (Uint63.of_Z z).

(** The integer a float denotes, when it denotes one. *)
Definition float_integral_value (y : float) : option Z :=
  match Prim2SF y with
  | S754_zero _ => Some 0%Z
  | S754_finite sg m e =>
      let magnitude :=
        if (0 <=? e)%Z then Some (Z.pos m * 2 ^ e)%Z
        else if (Z.pos m mod 2 ^ (- e) =? 0)%Z
             then Some (Z.pos m / 2 ^ (- e))%Z
             else None in
      option_map (fun z => if sg then (- z)%Z else z) magnitude
  | _ => None
  end.

Fixpoint float_power (x : float) (n : nat) : float :=
  match n with
  | O => 1%float
  | S k => PrimFloat.mul x (float_power x k)
  end.

(** [x ** y] for an integral exponent [y], by repeated multiplication
    (exact for a base that is a power of two); other exponents, which
    need the C library's [pow], are left out of the examples and give
    NaN here. *)
Definition float_pow (x y : float) : float :=
  match float_integral_value y with
  | Some n =>
      if (0 <=? n)%Z then float_power x (Z.to_nat n)
      else PrimFloat.div 1%float (float_power x (Z.to_nat (- n)))
  | None => PrimFloat.nan
  end.

#[export] Instance float_scalar : Scalar := {|
  F := float;
  f0 := 0%float;
  f1 := 1%float;
  fnan := PrimFloat.nan;
  fadd := PrimFloat.add;
  fsub := PrimFloat.sub;
  fmul := PrimFloat.mul;
  fdiv := PrimFloat.div;
  fopp := PrimFloat.opp;
  fsqrt := PrimFloat.sqrt;
  fpow := float_pow;
  fcmp := PrimFloat.compare;
  fisnan := PrimFloat.is_nan;
  fsum := float_sum;
  of_Z := float_of_Z
|}.

Definition is_finite (x : float) : bool :=
  negb (PrimFloat.is_nan x) && negb (PrimFloat.is_infinity x).
Definition all_finite (m : matrix) : bool :=
  forallb (forallb is_finite) (columns m).
Definition is_zero (x : float) : bool :=
  match PrimFloat.compare x 0%float with FEq => true | _ => false end.
Definition is_diagonal (m : matrix) : bool :=
  forallb (fun j =>
    forallb (fun i => Nat.eqb i j || is_zero (entry m i j)) (seq 0 (nrows m)))
    (seq 0 (ncols m)).
Definition diagonal_of (m : matrix) : list float :=
  map (fun i => entry m i i) (seq 0 (Nat.min (nrows m) (ncols m))).
Definition eye (n k : nat) : matrix :=
  build n k (fun i j => if Nat.eqb i j then 1%float else 0%float).

(** [eig] of a finite diagonal array: the eigenvalues are the diagonal,
    in order, and the eigenvectors the unit vectors.  An array that is
    not square, or holds a NaN or an infinity, is [LinAlgError]. *)
Definition diagonal_eig (m : matrix) : option (list float * matrix) :=
  if Nat.eqb (nrows m) (ncols m) && all_finite m && is_diagonal m
  then Some (diagonal_of m, eye (nrows m) (nrows m))
  else None.

(** [pinv] of a finite square diagonal array: the reciprocals of the
    entries above the cut-off [1e-15 * largest], zero for the others.
    A NaN or an infinity among the entries is [LinAlgError] (the
    underlying SVD does not converge). *)
Definition diagonal_pinv (m : matrix) : option matrix :=
  if Nat.eqb (nrows m) (ncols m) && all_finite m && is_diagonal m
  then
    let d := diagonal_of m in
    let largest :=
      fold_left (fun acc x =>
        if fgt (PrimFloat.abs x) acc then PrimFloat.abs x else acc) d 0%float in
    let cutoff := PrimFloat.mul 1e-15%float largest in
    Some (diag (map (fun x =>
      if fgt (PrimFloat.abs x) cutoff then PrimFloat.div 1%float x else 0%float) d))
  else None.

Fixpoint descending (l : list float) : bool :=
  match l with
  | a :: ((b :: _) as t) => fge a b && descending t
  | _ => true
  end.

(** [svd(., full_matrices=False)] of a finite diagonal array whose
    diagonal is non-negative and descending: the unit vectors on both
    sides and the diagonal as singular values. *)
Definition diagonal_svd (m : matrix)
  : option (matrix * list float * matrix) :=
  let d := diagonal_of m in
  if all_finite m && is_diagonal m
     && forallb (fun x => fge x 0%float) d && descending d
  then let k := Nat.min (nrows m) (ncols m) in
       Some (eye (nrows m) k, d, eye k (ncols m))
  else None.

#[export] Instance diagonal_linalg : LinAlg := {|
  np_eig := diagonal_eig;
  np_pinv := diagonal_pinv;
  np_svd := diagonal_svd
|}.

(** Sorting by insertion, NaN last as NumPy places it. *)
Definition float_sorts_before (a b : float) : bool :=
  if PrimFloat.is_nan b then true
  else if PrimFloat.is_nan a then false
  else fle a b.

Fixpoint insert_by {A} (le : A -> A -> bool) (a : A) (l : list A) : list A :=
  match l with
  | [] => [a]
  | h :: t => if le a h then a :: l else h :: insert_by le a t
  end.
Definition sort_by {A} (le : A -> A -> bool) (l : list A) : list A :=
  fold_right (insert_by le) [] l.

Definition float_sort (v : list float) : list float :=
  sort_by float_sorts_before v.
Definition float_argsort (v : list float) : list nat :=
  sort_by (fun i j => float_sorts_before (nth i v 0%float) (nth j v 0%float))
    (seq 0 (length v)).

#[export] Instance insertion_sorting : Sorting := {|
  np_sort := float_sort;
  np_argsort := float_argsort
|}.

(** Modelled from the spec: the classes [Stacker] and [Delayer] of
    [sDMD/utilities.py], which is not part of the sources at hand.  A
    [Stacker(dim, depth)] is a first-in first-out window of the [depth]
    latest samples; [update] pushes a sample, drops the oldest and
    returns the window stacked in one column, the latest sample first; a
    call without argument returns the same column.  A
    [Delayer(dim, delay)] returns on [update] the sample pushed [delay]
    updates earlier, and again on a call without argument.  Both start
    filled with zeros (the spec leaves the warm-up open). *)
Definition fifo_stacker : Type := list (list float).
Definition fifo_delayer : Type := (list (list float) * list float)%type.

Definition fifo_Stacker_new (dim depth : Z) : option fifo_stacker :=
  if ((dim <? 0) || (depth <? 0))%Z then None
  else Some (repeat (repeat 0%float (Z.to_nat dim)) (Z.to_nat depth)).
Definition fifo_Stacker_call (b : fifo_stacker) : option ndarray :=
  Some (Mat (col_vector (concat b))).
Definition fifo_Stacker_update (b : fifo_stacker) (x : ndarray)
  : option (fifo_stacker * ndarray) :=
  let b' := firstn (length b) (flatten x :: b) in
  Some (b', Mat (col_vector (concat b'))).

Definition fifo_Delayer_new (dim delay : Z) : option fifo_delayer :=
  if ((dim <? 0) || (delay <? 0))%Z then None
  else Some (repeat (repeat 0%float (Z.to_nat dim)) (Z.to_nat delay),
             repeat 0%float (Z.to_nat dim)).
Definition fifo_Delayer_call (d : fifo_delayer) : option ndarray :=
  Some (Mat (col_vector (snd d))).
Definition fifo_Delayer_update (d : fifo_delayer) (x : ndarray)
  : option (fifo_delayer * ndarray) :=
  let queue := flatten x :: fst d in
  let out := last queue (flatten x) in
  Some ((firstn (length (fst d)) queue, out), Mat (col_vector out)).

#[export] Instance fifo_buffers : Buffers := {|
  stacker := fifo_stacker;
  delayer := fifo_delayer;
  Stacker_new := fifo_Stacker_new;
  Stacker_update := fifo_Stacker_update;
  Stacker_call := fifo_Stacker_call;
  Delayer_new := fifo_Delayer_new;
  Delayer_update := fifo_Delayer_update;
  Delayer_call := fifo_Delayer_call
|}.

(** *** The model of the examples

    [nx = 2], [nu = 1], [s = f = 1], [rmin = rmax = 2], [thres = 0.2],
    no half-life; the initial batches are
    [X = [[2, 0], [0, 1], [0, 0]]] and [Y = [[2, 0], [0, 1]]]. *)
Definition X_batch : matrix :=
  mkmat 3 [[2%float; 0%float; 0%float]; [0%float; 1%float; 0%float]].
Definition Y_batch : matrix :=
  mkmat 2 [[2%float; 0%float]; [0%float; 1%float]].

Definition trained_base : sDMD_base :=
  mk_sDMD_base 2 2 0.2%float None 1%float
    (mkmat 3 [[1%float; 0%float; 0%float]; [0%float; 1%float; 0%float]])
    (mkmat 2 [[1%float; 0%float]; [0%float; 1%float]])
    (mkmat 2 [[4%float; 0%float]; [0%float; 1%float]])
    (mkmat 2 [[4%float; 0%float]; [0%float; 1%float]])
    (mkmat 2 [[4%float; 0%float]; [0%float; 1%float]]).

Definition trained_world : world :=
  mk_world (mk_sDMDc trained_base 1 1 1 2 0 1 2)
    [StackerObj (repeat (repeat 0%float 2) 1);
     DelayerObj (repeat (repeat 0%float 2) 1, repeat 0%float 2);
     DelayerObj (repeat (repeat 0%float 1) 1, repeat 0%float 1)].

(** A sample whose x part lies outside the basis, and one holding a NaN. *)
Definition x_outside : ndarray := Vec [0%float; 0%float; 3%float].
Definition y_inside : ndarray := Vec [1%float; 0%float].
Definition x_nan : ndarray := Vec [PrimFloat.nan; 0%float; 0%float].

(** [trained_base] after [update(x_outside, y_inside)], and after
    [update(x_nan, y_inside)]. *)
Definition after_update : sDMD_base :=
  mk_sDMD_base 2 2 0.2%float None 1%float
    (mkmat 3 [[1%float; 0%float; 0%float]; [0%float; 1%float; 0%float]])
    (mkmat 2 [[1%float; 0%float]; [0%float; 1%float]])
    (mkmat 2 [[4%float; 0%float]; [0%float; 1%float]])
    (mkmat 2 [[4%float; 0%float]; [0%float; 1%float]])
    (mkmat 2 [[5%float; 0%float]; [0%float; 1%float]]).

Definition nan_base : sDMD_base :=
  mk_sDMD_base 2 2 0.2%float None 1%float
    (mkmat 3 [[1%float; 0%float; 0%float]; [0%float; 1%float; 0%float]])
    (mkmat 2 [[1%float; 0%float]; [0%float; 1%float]])
    (mkmat 2 [[PrimFloat.nan; PrimFloat.nan]; [PrimFloat.nan; PrimFloat.nan]])
    (mkmat 2 [[PrimFloat.nan; PrimFloat.nan]; [PrimFloat.nan; PrimFloat.nan]])
    (mkmat 2 [[5%float; 0%float]; [0%float; 1%float]]).

Definition nan_world : world :=
  mk_world (mk_sDMDc nan_base 1 1 1 2 0 1 2) (heap trained_world).

(** A state as a y-side expansion leaves it: three output directions,
    [Pinvy = diag(1, 4, 0)], [rmax = 2]. *)
Definition y_expanded_base : sDMD_base :=
  mk_sDMD_base 2 2 0.2%float None 1%float
    (mkmat 3 [[1%float; 0%float; 0%float]; [0%float; 1%float; 0%float]])
    (mkmat 3 [[1%float; 0%float; 0%float]; [0%float; 1%float; 0%float];
              [0%float; 0%float; 1%float]])
    (mkmat 3 [[4%float; 0%float; 0%float]; [0%float; 1%float; 0%float]])
    (mkmat 2 [[4%float; 0%float]; [0%float; 1%float]])
    (mkmat 3 [[1%float; 0%float; 0%float]; [0%float; 4%float; 0%float];
              [0%float; 0%float; 0%float]]).

(** Inputs of [predict_horizon]: one state column, and control sequences
    of one column (the documented [steps + f - 1] for one step) and of
    two; a history with a row too many. *)
Definition x_history : matrix := mkmat 2 [[1%float; 2%float]].
Definition u_one_column : matrix := mkmat 1 [[1%float]].
Definition u_two_columns : matrix := mkmat 1 [[1%float]; [0.5%float]].
Definition x_history_three_rows : matrix :=
  mkmat 3 [[1%float; 2%float; 3%float]].

(** [trained_base] with room to grow: [rmax = 5]. *)
Definition roomy_base : sDMD_base :=
  mk_sDMD_base 2 5 0.2%float None 1%float
    (mkmat 3 [[1%float; 0%float; 0%float]; [0%float; 1%float; 0%float]])
    (mkmat 2 [[1%float; 0%float]; [0%float; 1%float]])
    (mkmat 2 [[4%float; 0%float]; [0%float; 1%float]])
    (mkmat 2 [[4%float; 0%float]; [0%float; 1%float]])
    (mkmat 2 [[4%float; 0%float]; [0%float; 1%float]]).

(** One state sample and one control sample for [trained_world], and an
    augmented input as a column. *)
Definition x_sample : ndarray := Vec [1%float; 2%float].
Definition u_sample : ndarray := Vec [1%float].
Definition aug_column : ndarray :=
  Mat (mkmat 3 [[1%float; 2%float; 1%float]]).

(** The effective state and input matrices of [trained_world]. *)
Definition A_eff_trained : matrix :=
  mkmat 2 [[1%float; 0%float]; [0%float; 1%float]].
Definition B_eff_trained : matrix := mkmat 2 [[0%float; 0%float]].

(** What [trained_world] predicts from [aug_column], and over one step
    from [x_history]. *)
Definition predicted_column : matrix := mkmat 2 [[1%float; 2%float]].

(** A scalar stream with its targets, and the adapter [sDMD] built on
    them with [s = 2] and [f = 1]. *)
Definition X_stream : matrix :=
  mkmat 1 [[0%float]; [2%float]; [0%float]; [1%float]].
Definition Y_stream : matrix :=
  mkmat 1 [[9%float]; [9%float]; [3%float]; [0%float]].
Definition plain_model : Plain.sDMD :=
  Plain.mk_sDMD
    (mk_sDMD_base 2 2 0.2%float None 1%float
       (mkmat 2 [[1%float; 0%float]; [0%float; 1%float]])
       (mkmat 1 [[1%float]])
       (mkmat 1 [[6%float]; [0%float]])
       (mkmat 2 [[4%float; 0%float]; [0%float; 4%float]])
       (mkmat 1 [[9%float]]))
    2 1 (mkmat 1 [[0%float]; [1%float]]) None.

(** The next sample of the stream and its target. *)
Definition x_next : ndarray := Vec [3%float].
Definition y_next : ndarray := Vec [5%float].


(* ================================================================== *)
(** * Proofs *)

Unset Implicit Arguments.

(** ** Running method bodies *)

Section MonadFacts.
Context {S : Type}.

Lemma bind_Return_inv {A B} (m : M S A) (k : A -> M S B) s b s2 :
  bind m k s = (Return b, s2) ->
  exists a s1, m s = (Return a, s1) /\ k a s1 = (Return b, s2).
Proof.
  unfold bind. destruct (m s) as [[a|e] s1]; intros H.
  - exists a, s1. auto.
  - discriminate.
Qed.

Lemma bind_Raise_inv {A B} (m : M S A) (k : A -> M S B) s e s2 :
  bind m k s = (Raise e, s2) ->
  m s = (Raise e, s2) \/
  exists a s1, m s = (Return a, s1) /\ k a s1 = (Raise e, s2).
Proof.
  unfold bind. destruct (m s) as [[a|e'] s1]; intros H.
  - right. exists a, s1. auto.
  - left. inversion H. reflexivity.
Qed.

Lemma bind_eq {A B} (m : M S A) (k : A -> M S B) s a s1 :
  m s = (Return a, s1) -> bind m k s = k a s1.
Proof. unfold bind. intros ->. reflexivity. Qed.

Lemma bind_raise_eq {A B} (m : M S A) (k : A -> M S B) s e s1 :
  m s = (Raise e, s1) -> bind m k s = (Raise e, s1).
Proof. unfold bind. intros ->. reflexivity. Qed.

Lemma lift_Return_inv {A} (o : outcome A) (s s1 : S) a :
  lift o s = (Return a, s1) -> o = Return a /\ s1 = s.
Proof. unfold lift. intros H. inversion H. auto. Qed.

Lemma keeps_bind {A B} (I : S -> Prop) (m : M S A) (k : A -> M S B) :
  keeps I m -> (forall a, keeps I (k a)) -> keeps I (bind m k).
Proof.
  intros Hm Hk s Hs. unfold bind.
  specialize (Hm s Hs). destruct (m s) as [[a|e] s1]; simpl in *.
  - apply Hk. exact Hm.
  - exact Hm.
Qed.

Lemma keeps_ret {A} (I : S -> Prop) (a : A) : keeps I (ret a).
Proof. intros s Hs. exact Hs. Qed.

Lemma keeps_raise {A} (I : S -> Prop) e : keeps I (@raise S A e).
Proof. intros s Hs. exact Hs. Qed.

Lemma keeps_lift {A} (I : S -> Prop) (o : outcome A) : keeps I (lift o).
Proof. intros s Hs. exact Hs. Qed.

Lemma keeps_get (I : S -> Prop) : keeps I get.
Proof. intros s Hs. exact Hs. Qed.

Lemma establishes_bind {A B} (I : S -> Prop) (m : M S A) (k : A -> M S B)
    (R : A -> Prop) (R' : B -> Prop) :
  establishes I m R ->
  (forall a, R a -> establishes I (k a) R') ->
  establishes I (bind m k) R'.
Proof.
  intros Hm Hk s Hs. unfold bind.
  destruct (Hm s Hs) as [H1 H2]. destruct (m s) as [[a|e] s1]; simpl in *.
  - apply Hk; auto.
  - split; [exact H1|]. intros b Hb. discriminate.
Qed.

Lemma establishes_ret {A} (I : S -> Prop) (a : A) (R : A -> Prop) :
  R a -> establishes I (ret a) R.
Proof.
  intros Ha s Hs. split; [exact Hs|]. simpl. intros b Hb. inversion Hb. subst. exact Ha.
Qed.

Lemma establishes_of_keeps {A} (I : S -> Prop) (m : M S A) :
  keeps I m -> establishes I m (fun _ => True).
Proof. intros H s Hs. split; [apply H; exact Hs|]. auto. Qed.

Lemma keeps_of_establishes {A} (I : S -> Prop) (m : M S A) (R : A -> Prop) :
  establishes I m R -> keeps I m.
Proof. intros H s Hs. apply H. exact Hs. Qed.

Lemma raises_only_bind {A B} (P : exn -> Prop) (m : M S A) (k : A -> M S B) :
  raises_only P m -> (forall a, raises_only P (k a)) ->
  raises_only P (bind m k).
Proof.
  intros Hm Hk s e s1 H. apply bind_Raise_inv in H.
  destruct H as [H | [a [s2 [_ H]]]].
  - eapply Hm; eauto.
  - eapply Hk; eauto.
Qed.

Lemma raises_only_ret {A} (P : exn -> Prop) (a : A) : raises_only P (@ret S A a).
Proof. intros s e s1 H. discriminate. Qed.

Lemma raises_only_get (P : exn -> Prop) : raises_only P (@get S).
Proof. intros s e s1 H. discriminate. Qed.

Lemma raises_only_put (P : exn -> Prop) (s0 : S) : raises_only P (put s0).
Proof. intros s e s1 H. discriminate. Qed.

Lemma raises_only_raise {A} (P : exn -> Prop) (e0 : exn) :
  P e0 -> raises_only P (@raise S A e0).
Proof. intros H s e s1 E. inversion E. subst. exact H. Qed.

Lemma raises_only_lift {A} (P : exn -> Prop) (o : outcome A) :
  (forall e, o = Raise e -> P e) -> raises_only P (@lift S A o).
Proof. intros H s e s1 E. inversion E. subst. apply H. reflexivity. Qed.

Lemma raises_only_try_except {A} (P : exn -> Prop) (body handler : M S A) :
  raises_only P handler -> raises_only P (try_except body handler).
Proof.
  intros Hh s e s1 H. unfold try_except in H.
  destruct (body s) as [[a|e'] s2].
  - discriminate.
  - eapply Hh; eauto.
Qed.

End MonadFacts.

(** ** Shapes of the array operations *)

Section ArrayFacts.
Context {SC : Scalar}.

Lemma nrows_build n m g : nrows (build n m g) = n.
Proof. reflexivity. Qed.

Lemma ncols_build n m g : ncols (build n m g) = m.
Proof. unfold ncols, build. simpl. rewrite length_map, length_seq. reflexivity. Qed.

Lemma ncols_transpose a : ncols (transpose a) = nrows a.
Proof. apply ncols_build. Qed.

Lemma nrows_transpose a : nrows (transpose a) = ncols a.
Proof. reflexivity. Qed.

Lemma ncols_col_vector v : ncols (col_vector v) = 1.
Proof. reflexivity. Qed.

Lemma matmul_Return a b c :
  matmul a b = Return c ->
  ncols a = nrows b /\ nrows c = nrows a /\ ncols c = ncols b.
Proof.
  unfold matmul. destruct (Nat.eqb (ncols a) (nrows b)) eqn:E; intros H; inversion H.
  apply Nat.eqb_eq in E. rewrite ncols_build. auto.
Qed.

Lemma matmul_ok a b :
  ncols a = nrows b -> exists c, matmul a b = Return c.
Proof.
  intros E. unfold matmul. apply Nat.eqb_eq in E. rewrite E. eauto.
Qed.

Lemma hstack_Return a b c :
  hstack a b = Return c ->
  nrows a = nrows b /\ nrows c = nrows a /\ ncols c = ncols a + ncols b.
Proof.
  unfold hstack. destruct (Nat.eqb (nrows a) (nrows b)) eqn:E; intros H; inversion H.
  apply Nat.eqb_eq in E. rewrite ncols_build. auto.
Qed.

Lemma vstack_Return a b c :
  vstack a b = Return c ->
  ncols a = ncols b /\ nrows c = nrows a + nrows b /\ ncols c = ncols a.
Proof.
  unfold vstack. destruct (Nat.eqb (ncols a) (ncols b)) eqn:E; intros H; inversion H.
  apply Nat.eqb_eq in E. rewrite ncols_build. auto.
Qed.

Lemma hstack_zeros_ok a :
  exists c, hstack a (zeros (nrows a) 1) = Return c.
Proof. unfold hstack, zeros. rewrite nrows_build, Nat.eqb_refl. eauto. Qed.

Lemma vstack_zeros_ok a :
  exists c, vstack a (zeros 1 (ncols a)) = Return c.
Proof. unfold vstack, zeros. rewrite ncols_build, Nat.eqb_refl. eauto. Qed.

Lemma bdim_same n : bdim n n = Some n.
Proof. unfold bdim. rewrite Nat.eqb_refl. reflexivity. Qed.

Lemma elementwise_same op a b :
  nrows a = nrows b -> ncols a = ncols b ->
  exists c, elementwise op a b = Return c /\ nrows c = nrows a /\ ncols c = ncols a.
Proof.
  intros Hr Hc. unfold elementwise. rewrite <- Hr, <- Hc, !bdim_same.
  eexists. split; [reflexivity|]. rewrite ncols_build. auto.
Qed.

Lemma nrows_scale c a : nrows (scale c a) = nrows a.
Proof. reflexivity. Qed.
Lemma ncols_scale c a : ncols (scale c a) = ncols a.
Proof. apply ncols_build. Qed.

Lemma nrows_diag v : nrows (diag v) = length v.
Proof. reflexivity. Qed.
Lemma ncols_diag v : ncols (diag v) = length v.
Proof. apply ncols_build. Qed.

Lemma take_length {A} (l : list A) idx r :
  take l idx = Return r -> length r = length idx.
Proof.
  revert r. induction idx as [|i rest IH]; simpl; intros r H.
  - inversion H. reflexivity.
  - destruct (nth_error l i); [|discriminate].
    destruct (take l rest) as [r'|e]; simpl in H; inversion H.
    simpl. f_equal. apply IH. reflexivity.
Qed.

Lemma take_columns_Return a idx c :
  take_columns a idx = Return c -> nrows c = nrows a /\ ncols c = length idx.
Proof.
  unfold take_columns. destruct (take (columns a) idx) as [cs|e] eqn:E; simpl; intros H; inversion H.
  simpl. split; [reflexivity|]. unfold ncols. simpl. eapply take_length; eauto.
Qed.

Lemma slice_to_length {A} k (l : list A) :
  length (slice_to k l) = py_stop k (length l).
Proof.
  unfold slice_to. rewrite length_firstn. apply Nat.min_l.
  unfold py_stop. destruct (k <? 0)%Z eqn:E; lia.
Qed.

Lemma py_stop_within k n :
  (0 <= k <= Z.of_nat n)%Z -> Z.of_nat (py_stop k n) = k.
Proof.
  intros H. unfold py_stop. destruct (k <? 0)%Z eqn:E; [lia|]. lia.
Qed.

Lemma ncols_columns_to a k : ncols (columns_to a k) = py_stop k (ncols a).
Proof. unfold ncols, columns_to. simpl. apply slice_to_length. Qed.

End ArrayFacts.

(** ** The stages of [sDMD_base.update] *)

Section UpdateFacts.
Context {SC : Scalar} {LA : LinAlg} {SO : Sorting}.

Lemma same_config_refl o : same_config o o.
Proof. repeat split. Qed.

Lemma same_config_trans o1 o2 o3 :
  same_config o1 o2 -> same_config o2 o3 -> same_config o1 o3.
Proof. unfold same_config. intuition congruence. Qed.

Ltac run_monad :=
  unfold set_Ux, set_Uy, set_Q, set_Pinvx, set_Pinvy;
  unfold bind, get, lift, modify, ret, raise; simpl.

(** What a completed x-side expansion did. *)
Lemma augment_x_Return ex n st o st' o' :
  augment_x ex n st o = (Return st', o') ->
  (fgt (residual ex n) (thres o) = false /\ st' = st /\ o' = o) \/
  (fgt (residual ex n) (thres o) = true /\ st' = AUGMENTATION /\
   same_config o o' /\ Uy o' = Uy o /\ Pinvy o' = Pinvy o /\
   nrows (Ux o') = nrows (Ux o) /\ ncols (Ux o') = S (ncols (Ux o)) /\
   nrows (Q o') = nrows (Q o) /\ ncols (Q o') = S (ncols (Q o)) /\
   nrows (Pinvx o') = S (nrows (Pinvx o)) /\
   ncols (Pinvx o') = S (ncols (Pinvx o))).
Proof.
  unfold augment_x. run_monad.
  destruct (fgt (residual ex n) (thres o)) eqn:T.
  - destruct (hstack (Ux o) _) as [U|e] eqn:HU; simpl; [|discriminate].
    destruct (hstack (Pinvx o) _) as [P1|e] eqn:HP1; simpl; [|discriminate].
    destruct (vstack P1 _) as [P2|e] eqn:HP2; simpl; [|discriminate].
    destruct (hstack (Q o) _) as [Q1|e] eqn:HQ; simpl; [|discriminate].
    intros H. inversion H; subst. right. simpl.
    apply hstack_Return in HU, HP1, HQ. apply vstack_Return in HP2.
    unfold zeros, reshape_col, same_config in *.
    rewrite ?ncols_build, ?nrows_build, ?ncols_col_vector in *.
    simpl. intuition lia.
  - intros H. inversion H; subst. left. auto.
Qed.

Lemma augment_y_Return ey n st o st' o' :
  augment_y ey n st o = (Return st', o') ->
  (fgt (residual ey n) (thres o) = false /\ st' = st /\ o' = o) \/
  (fgt (residual ey n) (thres o) = true /\ st' = AUGMENTATION /\
   same_config o o' /\ Ux o' = Ux o /\ Pinvx o' = Pinvx o /\
   nrows (Uy o') = nrows (Uy o) /\ ncols (Uy o') = S (ncols (Uy o)) /\
   nrows (Q o') = S (nrows (Q o)) /\ ncols (Q o') = ncols (Q o) /\
   nrows (Pinvy o') = S (nrows (Pinvy o)) /\
   ncols (Pinvy o') = S (ncols (Pinvy o))).
Proof.
  unfold augment_y. run_monad.
  destruct (fgt (residual ey n) (thres o)) eqn:T.
  - destruct (hstack (Uy o) _) as [U|e] eqn:HU; simpl; [|discriminate].
    destruct (hstack (Pinvy o) _) as [P1|e] eqn:HP1; simpl; [|discriminate].
    destruct (vstack P1 _) as [P2|e] eqn:HP2; simpl; [|discriminate].
    destruct (vstack (Q o) _) as [Q1|e] eqn:HQ; simpl; [|discriminate].
    intros H. inversion H; subst. right. simpl.
    apply hstack_Return in HU, HP1. apply vstack_Return in HP2, HQ.
    unfold zeros, reshape_col, same_config in *.
    rewrite ?ncols_build, ?nrows_build, ?ncols_col_vector in *.
    simpl. intuition lia.
  - intros H. inversion H; subst. left. auto.
Qed.

(** The expansion keeps the shapes consistent however it ends. *)
Lemma augment_x_keeps ex n st : keeps shape_inv (augment_x ex n st).
Proof.
  intros o I. unfold augment_x. run_monad.
  destruct (fgt (residual ex n) (thres o)); [|exact I].
  destruct (hstack (Ux o) _) as [U|e] eqn:HU; simpl; [|exact I].
  destruct (hstack_zeros_ok (Pinvx o)) as [P1 HP1]. rewrite HP1. simpl.
  destruct (vstack_zeros_ok P1) as [P2 HP2]. rewrite HP2. simpl.
  destruct (hstack_zeros_ok (Q o)) as [Q1 HQ]. rewrite HQ. simpl.
  apply hstack_Return in HU, HP1, HQ. apply vstack_Return in HP2.
  unfold zeros, reshape_col in *.
  rewrite ?ncols_build, ?nrows_build, ?ncols_col_vector in *.
  unfold shape_inv in *. simpl. intuition lia.
Qed.

Lemma augment_y_keeps ey n st : keeps shape_inv (augment_y ey n st).
Proof.
  intros o I. unfold augment_y. run_monad.
  destruct (fgt (residual ey n) (thres o)); [|exact I].
  destruct (hstack (Uy o) _) as [U|e] eqn:HU; simpl; [|exact I].
  destruct (hstack_zeros_ok (Pinvy o)) as [P1 HP1]. rewrite HP1. simpl.
  destruct (vstack_zeros_ok P1) as [P2 HP2]. rewrite HP2. simpl.
  destruct (vstack_zeros_ok (Q o)) as [Q1 HQ]. rewrite HQ. simpl.
  apply hstack_Return in HU, HP1. apply vstack_Return in HP2, HQ.
  unfold zeros, reshape_col in *.
  rewrite ?ncols_build, ?nrows_build, ?ncols_col_vector in *.
  unfold shape_inv in *. simpl. intuition lia.
Qed.

(** What a completed x-side compression did. *)
Lemma compress_x_Return st o st' o' :
  compress_x st o = (Return st', o') ->
  ((rmax o <? Z.of_nat (ncols (Ux o)))%Z = false /\ st' = st /\ o' = o) \/
  ((rmax o <? Z.of_nat (ncols (Ux o)))%Z = true /\ st' = REDUCTION /\
   same_config o o' /\ Uy o' = Uy o /\ Pinvy o' = Pinvy o /\
   nrows (Ux o') = nrows (Ux o) /\ nrows (Q o') = nrows (Q o) /\
   exists w V, np_eig (Pinvx o) = Some (w, V) /\
     let k := py_stop (rmin o) (length (np_argsort (map fopp w))) in
     ncols (Ux o') = k /\ ncols (Q o') = k /\
     nrows (Pinvx o') = k /\ ncols (Pinvx o') = k).
Proof.
  unfold compress_x. run_monad.
  destruct (rmax o <? Z.of_nat (ncols (Ux o)))%Z eqn:T.
  - destruct (np_eig (Pinvx o)) as [[w V]|] eqn:HE; simpl; [|discriminate].
    destruct (take w _) as [w'|e] eqn:HW; simpl; [|discriminate].
    destruct (take_columns V _) as [qx|e] eqn:Hq; simpl; [|discriminate].
    destruct (matmul (Ux o) qx) as [U|e] eqn:HU; simpl; [|discriminate].
    destruct (matmul (Q o) qx) as [Q1|e] eqn:HQ; simpl; [|discriminate].
    intros H. inversion H; subst. right. simpl.
    apply matmul_Return in HU, HQ. apply take_columns_Return in Hq.
    apply take_length in HW.
    rewrite slice_to_length in Hq.
    unfold same_config. simpl.
    repeat split; try tauto.
    exists w, V. split; [reflexivity|].
    rewrite ?nrows_diag, ?ncols_diag, ?slice_to_length, ?HW. simpl.
    intuition congruence.
  - intros H. inversion H; subst. left. auto.
Qed.

Lemma compress_y_Return st o st' o' :
  compress_y st o = (Return st', o') ->
  ((rmax o <? Z.of_nat (ncols (Uy o)))%Z = false /\ st' = st /\ o' = o) \/
  ((rmax o <? Z.of_nat (ncols (Uy o)))%Z = true /\ st' = REDUCTION /\
   same_config o o' /\ Ux o' = Ux o /\ Pinvx o' = Pinvx o /\
   nrows (Uy o') = nrows (Uy o) /\ ncols (Q o') = ncols (Q o) /\
   exists w V, np_eig (Pinvy o) = Some (w, V) /\
     let k := py_stop (rmin o) (length (np_argsort (map fopp w))) in
     let k' := py_stop (rmin o) (length (np_sort (map fopp w))) in
     ncols (Uy o') = k /\ nrows (Q o') = k /\
     nrows (Pinvy o') = k' /\ ncols (Pinvy o') = k').
Proof.
  unfold compress_y. run_monad.
  destruct (rmax o <? Z.of_nat (ncols (Uy o)))%Z eqn:T.
  - destruct (np_eig (Pinvy o)) as [[w V]|] eqn:HE; simpl; [|discriminate].
    destruct (take_columns V _) as [qy|e] eqn:Hq; simpl; [|discriminate].
    destruct (matmul (Uy o) qy) as [U|e] eqn:HU; simpl; [|discriminate].
    destruct (matmul (transpose qy) (Q o)) as [Q1|e] eqn:HQ; simpl; [|discriminate].
    intros H. inversion H; subst. right. simpl.
    apply matmul_Return in HU, HQ. apply take_columns_Return in Hq.
    rewrite slice_to_length in Hq. rewrite nrows_transpose in HQ.
    unfold same_config. simpl.
    repeat split; try tauto.
    exists w, V. split; [reflexivity|].
    rewrite ?nrows_diag, ?ncols_diag, ?slice_to_length, ?length_map. simpl.
    intuition congruence.
  - intros H. inversion H; subst. left. auto.
Qed.

Lemma compress_x_keeps st : keeps shape_inv (compress_x st).
Proof.
  intros o I. unfold compress_x. run_monad.
  destruct (rmax o <? Z.of_nat (ncols (Ux o)))%Z; [|exact I].
  destruct (np_eig (Pinvx o)) as [[w V]|] eqn:HE; simpl; [|exact I].
  destruct (take w _) as [w'|e] eqn:HW; simpl; [|exact I].
  destruct (take_columns V _) as [qx|e] eqn:Hq; simpl; [|exact I].
  destruct (matmul (Ux o) qx) as [U|e] eqn:HU; simpl; [|exact I].
  apply matmul_Return in HU. apply take_columns_Return in Hq.
  apply take_length in HW. rewrite slice_to_length in Hq.
  destruct (matmul_ok (Q o) qx) as [Q1 HQ].
  { unfold shape_inv in I. intuition congruence. }
  rewrite HQ. simpl. apply matmul_Return in HQ.
  unfold shape_inv in *. simpl.
  rewrite ?nrows_diag, ?ncols_diag, ?slice_to_length, ?HW.
  intuition congruence.
Qed.

Lemma compress_y_keeps st :
  sort_length_law -> argsort_length_law -> keeps shape_inv (compress_y st).
Proof.
  intros Ls La o I. unfold compress_y. run_monad.
  destruct (rmax o <? Z.of_nat (ncols (Uy o)))%Z; [|exact I].
  destruct (np_eig (Pinvy o)) as [[w V]|] eqn:HE; simpl; [|exact I].
  destruct (take_columns V _) as [qy|e] eqn:Hq; simpl; [|exact I].
  destruct (matmul (Uy o) qy) as [U|e] eqn:HU; simpl; [|exact I].
  apply matmul_Return in HU. apply take_columns_Return in Hq.
  rewrite slice_to_length in Hq.
  destruct (matmul_ok (transpose qy) (Q o)) as [Q1 HQ].
  { rewrite ncols_transpose. unfold shape_inv in I. intuition congruence. }
  rewrite HQ. simpl. apply matmul_Return in HQ. rewrite nrows_transpose in HQ.
  unfold shape_inv in *. simpl.
  rewrite ?nrows_diag, ?ncols_diag, ?slice_to_length, ?length_map, ?Ls.
  rewrite La in Hq.
  intuition congruence.
Qed.

Lemma elementwise_Return_same op a b c :
  elementwise op a b = Return c ->
  nrows a = nrows b -> ncols a = ncols b ->
  nrows c = nrows a /\ ncols c = ncols a.
Proof.
  intros H Hr Hc. destruct (elementwise_same op a b Hr Hc) as [c' [E S']].
  rewrite E in H. inversion H; subst. exact S'.
Qed.

(** What a completed regression update did. *)
Lemma regression_update_Return x y o o' :
  regression_update x y o = (Return tt, o') ->
  same_config o o' /\ Ux o' = Ux o /\ Uy o' = Uy o /\
  exists xtilde ytilde yx xx yy,
    matmul (transpose (Ux o)) x = Return xtilde /\
    matmul (transpose (Uy o)) y = Return ytilde /\
    matmul ytilde (transpose xtilde) = Return yx /\
    matmul xtilde (transpose xtilde) = Return xx /\
    matmul ytilde (transpose ytilde) = Return yy /\
    madd (scale (rho o) (Q o)) yx = Return (Q o') /\
    madd (scale (rho o) (Pinvx o)) xx = Return (Pinvx o') /\
    madd (scale (rho o) (Pinvy o)) yy = Return (Pinvy o').
Proof.
  unfold regression_update. run_monad.
  destruct (matmul (transpose (Ux o)) x) as [xt|e] eqn:H1; simpl; [|discriminate].
  destruct (matmul (transpose (Uy o)) y) as [yt|e] eqn:H2; simpl; [|discriminate].
  destruct (matmul yt (transpose xt)) as [yx|e] eqn:H3; simpl; [|discriminate].
  destruct (madd _ yx) as [Q1|e] eqn:H4; simpl; [|discriminate].
  destruct (matmul xt (transpose xt)) as [xx|e] eqn:H5; simpl; [|discriminate].
  destruct (madd _ xx) as [P1|e] eqn:H6; simpl; [|discriminate].
  destruct (matmul yt (transpose yt)) as [yy|e] eqn:H7; simpl; [|discriminate].
  destruct (madd _ yy) as [P2|e] eqn:H8; simpl; [|discriminate].
  intros H. inversion H; subst. simpl.
  split; [repeat split|]. split; [reflexivity|]. split; [reflexivity|].
  exists xt, yt, yx, xx, yy. auto 10.
Qed.

Lemma regression_update_keeps x y : keeps shape_inv (regression_update x y).
Proof.
  intros o I. unfold regression_update. run_monad.
  destruct (matmul (transpose (Ux o)) x) as [xt|e] eqn:H1; simpl; [|exact I].
  destruct (matmul (transpose (Uy o)) y) as [yt|e] eqn:H2; simpl; [|exact I].
  apply matmul_Return in H1, H2. rewrite nrows_transpose in H1, H2.
  destruct (matmul yt (transpose xt)) as [yx|e] eqn:H3; simpl; [|exact I].
  apply matmul_Return in H3. rewrite ncols_transpose in H3.
  assert (I1 := I). unfold shape_inv in I1.
  destruct (madd _ yx) as [Q1|e] eqn:H4; simpl; [|exact I].
  apply elementwise_Return_same in H4;
    [|rewrite nrows_scale; intuition congruence
     |rewrite ncols_scale; intuition congruence].
  rewrite nrows_scale, ncols_scale in H4.
  destruct (matmul xt (transpose xt)) as [xx|e] eqn:H5; simpl;
    [|unfold shape_inv; simpl; intuition congruence].
  apply matmul_Return in H5. rewrite ncols_transpose in H5.
  destruct (madd _ xx) as [P1|e] eqn:H6; simpl;
    [|unfold shape_inv; simpl; intuition congruence].
  apply elementwise_Return_same in H6;
    [|rewrite nrows_scale; intuition congruence
     |rewrite ncols_scale; intuition congruence].
  rewrite nrows_scale, ncols_scale in H6.
  destruct (matmul yt (transpose yt)) as [yy|e] eqn:H7; simpl;
    [|unfold shape_inv; simpl; intuition congruence].
  apply matmul_Return in H7. rewrite ncols_transpose in H7.
  destruct (madd _ yy) as [P2|e] eqn:H8; simpl;
    [|unfold shape_inv; simpl; intuition congruence].
  apply elementwise_Return_same in H8;
    [|rewrite nrows_scale; intuition congruence
     |rewrite ncols_scale; intuition congruence].
  rewrite nrows_scale, ncols_scale in H8.
  unfold shape_inv; simpl; intuition congruence.
Qed.

(** Computing the projection errors assigns nothing. *)
Lemma projection_errors_state x y o :
  snd (projection_errors x y o) = o.
Proof.
  unfold projection_errors. run_monad.
  repeat match goal with
         | |- context [match ?m with Return _ => _ | Raise _ => _ end] =>
             destruct m; simpl
         end; reflexivity.
Qed.

Lemma projection_errors_Return x y o ex ey o' :
  projection_errors x y o = (Return (ex, ey), o') ->
  o' = o /\
  normalized_residual (Ux o) x = Return (residual ex (norm2 x)) /\
  normalized_residual (Uy o) y = Return (residual ey (norm2 y)).
Proof.
  intros H. split.
  { rewrite <- (projection_errors_state x y o), H. reflexivity. }
  revert H. unfold projection_errors, normalized_residual. run_monad.
  destruct (matmul (transpose (Ux o)) x) as [xt|e]; simpl; [|discriminate].
  destruct (matmul (transpose (Uy o)) y) as [yt|e]; simpl; [|discriminate].
  destruct (matmul (Ux o) xt) as [px|e]; simpl; [|discriminate].
  destruct (msub x px) as [ex'|e]; simpl; [|discriminate].
  destruct (matmul (Uy o) yt) as [py|e]; simpl; [|discriminate].
  destruct (msub y py) as [ey'|e]; simpl; [|discriminate].
  intros H. inversion H; subst. auto.
Qed.

Lemma projection_errors_keeps (I : sDMD_base -> Prop) x y :
  keeps I (projection_errors x y).
Proof. intros o Ho. rewrite projection_errors_state. exact Ho. Qed.

Lemma expansion_Return x y o sx sy o1 :
  expansion x y o = (Return (sx, sy), o1) ->
  same_config o o1 /\
  nrows (Ux o1) = nrows (Ux o) /\ nrows (Uy o1) = nrows (Uy o) /\
  exists rx ry,
    normalized_residual (Ux o) x = Return rx /\
    normalized_residual (Uy o) y = Return ry /\
    expanded_side rx (thres o) (ncols (Ux o)) (ncols (Ux o1)) sx /\
    expanded_side ry (thres o) (ncols (Uy o)) (ncols (Uy o1)) sy.
Proof.
  unfold expansion. intros H.
  apply bind_Return_inv in H. destruct H as [[ex ey] [oa [Hp H]]].
  apply projection_errors_Return in Hp. destruct Hp as [-> [Rx Ry]].
  apply bind_Return_inv in H. destruct H as [sx' [ob [Hx H]]].
  apply bind_Return_inv in H. destruct H as [sy' [oc [Hy H]]].
  unfold ret in H. inversion H; subst. clear H.
  apply augment_x_Return in Hx. apply augment_y_Return in Hy.
  unfold expanded_side.
  destruct Hx as [[Tx [-> ->]] | [Tx [-> [Cx [E1 [E2 [E3 [E4 _]]]]]]]].
  all: destruct Hy as [[Ty [-> ->]] | [Ty [-> [Cy [G1 [G2 [G3 [G4 _]]]]]]]].
  all: try (assert (Ct := Cx); destruct Ct as [_ [_ [Ct _]]]; rewrite Ct in Ty).
  all: split; [eauto using same_config_refl, same_config_trans|].
  all: rewrite ?G1, ?G3, ?G4, ?E1, ?E3, ?E4.
  all: do 2 (split; [reflexivity|]).
  all: exists (residual ex (norm2 x)), (residual ey (norm2 y)).
  all: repeat split; auto; solve [left; auto | right; auto].
Qed.

Lemma expansion_keeps x y :
  keeps shape_inv (expansion x y).
Proof.
  unfold expansion. apply keeps_bind; [apply projection_errors_keeps|].
  intros [ex ey]. apply keeps_bind; [apply augment_x_keeps|].
  intros sx. apply keeps_bind; [apply augment_y_keeps|].
  intros sy. apply keeps_ret.
Qed.

Lemma compression_Return sx sy o1 sx' sy' o2 :
  eig_shape_law -> argsort_length_law -> shape_inv o1 ->
  compression (sx, sy) o1 = (Return (sx', sy'), o2) ->
  same_config o1 o2 /\
  nrows (Ux o2) = nrows (Ux o1) /\ nrows (Uy o2) = nrows (Uy o1) /\
  compressed_side (rmax o1) (ncols (Ux o1)) (ncols (Ux o2))
    (py_stop (rmin o1) (ncols (Ux o1))) sx sx' /\
  compressed_side (rmax o1) (ncols (Uy o1)) (ncols (Uy o2))
    (py_stop (rmin o1) (ncols (Uy o1))) sy sy'.
Proof.
  intros Le La I H. unfold compression in H. simpl in H.
  apply bind_Return_inv in H. destruct H as [sa [oa [Hx H]]].
  apply bind_Return_inv in H. destruct H as [sb [ob [Hy H]]].
  unfold ret in H. inversion H; subst. clear H.
  apply compress_x_Return in Hx. apply compress_y_Return in Hy.
  unfold compressed_side. unfold shape_inv in I.
  assert (Kx : forall w V, np_eig (Pinvx o1) = Some (w, V) ->
            py_stop (rmin o1) (length (np_argsort (map fopp w)))
            = py_stop (rmin o1) (ncols (Ux o1))).
  { intros w V E. apply Le in E. rewrite La, length_map. f_equal. intuition congruence. }
  assert (Ky : forall w V, np_eig (Pinvy o1) = Some (w, V) ->
            py_stop (rmin o1) (length (np_argsort (map fopp w)))
            = py_stop (rmin o1) (ncols (Uy o1))).
  { intros w V E. apply Le in E. rewrite La, length_map. f_equal. intuition congruence. }
  destruct Hx as [[Tx [-> ->]] | [Tx [-> [Cx [E1 [E2 [E3 [E4 [w [V [Ew Sx]]]]]]]]]]].
  all: destruct Hy as [[Ty [-> ->]] | [Ty [-> [Cy [G1 [G2 [G3 [G4 [w' [V' [Ew' Sy]]]]]]]]]]].
  all: try (assert (Ct := Cx); destruct Ct as [Cr [Cm _]]).
  all: rewrite ?Cr, ?Cm, ?E1, ?E2 in *.
  all: simpl in *.
  all: try rewrite (Kx _ _ Ew) in Sx.
  all: try rewrite (Ky _ _ Ew') in Sy.
  all: split; [eauto using same_config_refl, same_config_trans|].
  all: rewrite ?G1, ?G3, ?E1, ?E3.
  all: do 2 (split; [reflexivity|]).
  all: split; solve [left; intuition | right; intuition].
Qed.

Lemma compression_keeps st :
  sort_length_law -> argsort_length_law -> keeps shape_inv (compression st).
Proof.
  intros Ls La. unfold compression.
  apply keeps_bind; [apply compress_x_keeps|].
  intros sx. apply keeps_bind; [apply compress_y_keeps; assumption|].
  intros sy. apply keeps_ret.
Qed.

(** A completed [update], split at its stages. *)
Lemma update_Return x y o st o' :
  update x y o = (Return st, o') ->
  exists st1 o1 o2,
    expansion (reshape_col x) (reshape_col y) o = (Return st1, o1) /\
    compression st1 o1 = (Return st, o2) /\
    regression_update (reshape_col x) (reshape_col y) o2 = (Return tt, o').
Proof.
  unfold update. intros H.
  apply bind_Return_inv in H. destruct H as [st1 [o1 [H1 H]]].
  apply bind_Return_inv in H. destruct H as [st2 [o2 [H2 H]]].
  apply bind_Return_inv in H. destruct H as [[] [o3 [H3 H]]].
  unfold ret in H. inversion H; subst.
  exists st1, o1, o2. auto.
Qed.

Lemma update_keeps x y :
  sort_length_law -> argsort_length_law -> keeps shape_inv (update x y).
Proof.
  intros Ls La. unfold update.
  apply keeps_bind; [apply expansion_keeps|].
  intros st1. apply keeps_bind; [apply compression_keeps; assumption|].
  intros st2. apply keeps_bind; [apply regression_update_keeps|].
  intros _. apply keeps_ret.
Qed.

Lemma fle_not_fgt (a b : F) : fle a b = true -> fgt a b = false.
Proof. unfold fle, fgt. destruct (fcmp a b); congruence. Qed.

End UpdateFacts.

(** ** Construction *)

Section InitFacts.
Context {SC : Scalar} {LA : LinAlg} {SO : Sorting}.

(** An integer rank parameter: the call completes only for [r >= 1], and
    keeps [min(r, number of singular values)] columns. *)
Lemma truncatedSVD_int_Return X r Ur Sr Vr :
  truncatedSVD X (PyInt r) = Return (Ur, Sr, Vr) ->
  (1 <= r)%Z /\
  exists U Sg V, np_svd X = Some (U, Sg, V) /\
    ncols Ur = Nat.min (Z.to_nat r) (ncols U) /\
    nrows Ur = nrows U.
Proof.
  unfold truncatedSVD.
  destruct (np_svd X) as [[[U Sg] V]|]; simpl; [|discriminate].
  destruct (1 <=? r)%Z eqn:E1.
  - apply Z.leb_le in E1.
    destruct (Z.of_nat (ncols U) <? r)%Z eqn:E2; simpl; intros H;
      inversion H; subst; (split; [exact E1|]);
      exists U, Sg, V; (split; [reflexivity|]);
      rewrite ncols_columns_to; unfold py_stop; simpl; (split; [|reflexivity]).
    + apply Z.ltb_lt in E2.
      destruct (Z.of_nat (ncols U) <? 0)%Z eqn:E3; lia.
    + apply Z.ltb_ge in E2.
      destruct (r <? 0)%Z eqn:E3; lia.
  - destruct ((0 <? r) && (r <? 1))%Z eqn:E2; simpl; [|discriminate].
    apply andb_true_iff in E2. destruct E2 as [A B].
    apply Z.ltb_lt in A, B. lia.
Qed.

(** C8 (what the code does for [r = -1]).  Neither branch of the rank
    selection is taken, [rank] stays unbound, and the slice that needs
    it raises [UnboundLocalError] (unless the SVD itself had failed):
    the full factors are never returned. *)
Theorem truncatedSVD_minus_one_unbound (X : matrix) :
  truncatedSVD X (PyInt (-1))
  = match np_svd X with
    | Some _ => Raise UnboundLocalError
    | None => Raise LinAlgError
    end.
Proof.
  unfold truncatedSVD. destruct (np_svd X) as [[[U Sg] V]|]; reflexivity.
Qed.

(** [searchsorted] returns the first position whose entry is not below
    the value: all entries in front are below it. *)
Lemma searchsorted_first (a : list F) (v : F) :
  Forall (fun e => flt e v = true) (firstn (searchsorted a v) a) /\
  (forall e, nth_error a (searchsorted a v) = Some e -> flt e v = false).
Proof.
  induction a as [|h t [IH1 IH2]]; simpl.
  - split; [constructor|]. intros e H. discriminate.
  - destruct (flt h v) eqn:E; simpl.
    + split; [constructor; assumption|]. exact IH2.
    + split; [constructor|]. intros e H. inversion H. subst. exact E.
Qed.

(** A rank parameter strictly between 0 and 1 keeps the first position
    at which the cumulative energy is not below [r], plus one. *)
Lemma truncatedSVD_energy (X : matrix) (r : F) U Sg V :
  np_svd X = Some (U, Sg, V) ->
  fge r f1 = false -> flt f0 r = true -> flt r f1 = true ->
  let S2 := map (fun a => fmul a a) Sg in
  let energy := cumsum (map (fun a => fdiv a (fsum S2)) S2) in
  let k := (Z.of_nat (searchsorted energy r) + 1)%Z in
  truncatedSVD X (PyFloat r)
  = Return (columns_to U k, slice_to k Sg, columns_to (transpose V) k).
Proof.
  intros E G L1 L2. unfold truncatedSVD. rewrite E. simpl.
  rewrite G, L1, L2. reflexivity.
Qed.

Lemma sDMD_base_init_Return X Y rmin0 rmax0 thres0 hl o :
  sDMD_base_init X Y rmin0 rmax0 thres0 hl = Return o ->
  rmin o = rmin0 /\ rmax o = rmax0 /\ thres o = thres0 /\ halflife o = hl /\
  forgetting_factor hl = Return (rho o) /\
  shape_inv o /\ (1 <= rmin0)%Z /\
  exists UX SX VX UY SY VY,
    np_svd X = Some (UX, SX, VX) /\ np_svd Y = Some (UY, SY, VY) /\
    ncols (Ux o) = Nat.min (Z.to_nat rmin0) (ncols UX) /\
    ncols (Uy o) = Nat.min (Z.to_nat rmin0) (ncols UY).
Proof.
  unfold sDMD_base_init.
  destruct (forgetting_factor hl) as [rho0|e] eqn:FF; simpl; [|discriminate].
  destruct (truncatedSVD X (PyInt rmin0)) as [[[U1 S1] V1]|e] eqn:TX; simpl; [|discriminate].
  destruct (truncatedSVD Y (PyInt rmin0)) as [[[U2 S2] V2]|e] eqn:TY; simpl; [|discriminate].
  destruct (matmul (transpose U1) X) as [Xt|e] eqn:H1; simpl; [|discriminate].
  destruct (matmul (transpose U2) Y) as [Yt|e] eqn:H2; simpl; [|discriminate].
  destruct (matmul Yt (transpose Xt)) as [Q0|e] eqn:H3; simpl; [|discriminate].
  destruct (matmul Xt (transpose Xt)) as [P1|e] eqn:H4; simpl; [|discriminate].
  destruct (matmul Yt (transpose Yt)) as [P2|e] eqn:H5; simpl; [|discriminate].
  intros H. inversion H; subst. simpl.
  apply truncatedSVD_int_Return in TX, TY.
  destruct TX as [R1 [UX [SX [VX [EX [CX _]]]]]].
  destruct TY as [_ [UY [SY [VY [EY [CY _]]]]]].
  apply matmul_Return in H1, H2, H3, H4, H5.
  rewrite ?nrows_transpose, ?ncols_transpose in *.
  do 5 (split; [reflexivity|]).
  split; [unfold shape_inv; simpl; intuition congruence|].
  split; [exact R1|].
  exists UX, SX, VX, UY, SY, VY. auto.
Qed.

End InitFacts.

(* ================================================================== *)
(** * The streaming core: [sDMD_base.update] *)

Section UpdateTheorems.
Context {SC : Scalar} {LA : LinAlg} {SO : Sorting}.

(** Construction with [rmin <= rmax] leaves a reachable state. *)
Lemma reachable_state_constructed X Y rmin0 rmax0 thres0 hl o :
  (rmin0 <= rmax0)%Z ->
  sDMD_base_init X Y rmin0 rmax0 thres0 hl = Return o ->
  reachable_state o.
Proof.
  intros Hr H. apply sDMD_base_init_Return in H.
  destruct H as [E1 [E2 [_ [_ [_ [I [R1 [UX [SX [VX [UY [SY [VY [_ [_ [CX CY]]]]]]]]]]]]]]]].
  unfold reachable_state. rewrite E1, E2, CX, CY.
  split; [exact I|]. lia.
Qed.

(** A completed [update] leaves a reachable state reachable. *)
Lemma reachable_state_kept o x y st o' :
  eig_shape_law -> sort_length_law -> argsort_length_law ->
  reachable_state o ->
  update x y o = (Return st, o') ->
  reachable_state o'.
Proof.
  intros Le Ls La [I [Hr [Hx Hy]]] H.
  assert (I' : shape_inv o').
  { assert (K := update_keeps x y Ls La o I). rewrite H in K. exact K. }
  apply update_Return in H. destruct H as [[sx1 sy1] [o1 [o2 [H1 [H2 H3]]]]].
  assert (I1 : shape_inv o1).
  { assert (K := expansion_keeps (reshape_col x) (reshape_col y)).
    specialize (K o I). rewrite H1 in K. exact K. }
  destruct st as [sx sy].
  pose proof (expansion_Return _ _ _ _ _ _ H1) as [C1 [_ [_ [rx [ry [_ [_ [Sx Sy]]]]]]]].
  pose proof (compression_Return _ _ _ _ _ _ Le La I1 H2) as [C2 [_ [_ [Kx Ky]]]].
  apply regression_update_Return in H3. destruct H3 as [C3 [Ex [Ey _]]].
  pose proof (same_config_trans _ _ _ (same_config_trans _ _ _ C1 C2) C3) as [Cr [Cm _]].
  destruct C1 as [Cr1 [Cm1 _]]. rewrite Cr1, Cm1 in Kx, Ky.
  unfold reachable_state. rewrite Cr, Cm, Ex, Ey.
  split; [exact I'|]. split; [exact Hr|].
  unfold expanded_side, compressed_side in *.
  split.
  - destruct Kx as [[B [_ ->]] | [B [_ ->]]].
    + apply Z.ltb_ge in B. lia.
    + apply Z.ltb_lt in B.
      assert (Z.of_nat (py_stop (rmin o) (ncols (Ux o1))) = rmin o)
        by (apply py_stop_within; lia).
      lia.
  - destruct Ky as [[B [_ ->]] | [B [_ ->]]].
    + apply Z.ltb_ge in B. lia.
    + apply Z.ltb_lt in B.
      assert (Z.of_nat (py_stop (rmin o) (ncols (Uy o1))) = rmin o)
        by (apply py_stop_within; lia).
      lia.
Qed.

(** C1.  On a reachable state (consistent shapes, both widths at most
    [rmax], [0 <= rmin <= rmax]: what construction with [rmin <= rmax]
    establishes and [update] keeps, see [reachable_state_constructed] and
    [reachable_state_kept]) every completed [update(x, y)] does the
    following on the x side, where the residual is the normalized
    projection residual of [x] against [Ux] before the call: if it is at
    most [thres], [status_x] is [NONE] and the width of [Ux] is unchanged
    by the expansion stage (and by the call); if it exceeds [thres], the
    expansion stage adds exactly one column, and either the new width
    exceeds [rmax], the width after the call is [rmin] and [status_x] is
    [REDUCTION], or the width stays and [status_x] is [AUGMENTATION].
    The same holds for [y], [Uy] and [status_y]. *)
Theorem update_status_and_width (o : sDMD_base) (x y : ndarray)
    (st : Status * Status) (o' : sDMD_base) :
  eig_shape_law -> argsort_length_law ->
  reachable_state o ->
  update x y o = (Return st, o') ->
  exists rx ry st1 o1,
    normalized_residual (Ux o) (reshape_col x) = Return rx /\
    normalized_residual (Uy o) (reshape_col y) = Return ry /\
    expansion (reshape_col x) (reshape_col y) o = (Return st1, o1) /\
    side_outcome o rx (ncols (Ux o)) (ncols (Ux o1)) (ncols (Ux o')) (fst st) /\
    side_outcome o ry (ncols (Uy o)) (ncols (Uy o1)) (ncols (Uy o')) (snd st).
Proof.
  intros Le La [I [Hr [Hx Hy]]] H.
  apply update_Return in H. destruct H as [[sx1 sy1] [o1 [o2 [H1 [H2 H3]]]]].
  assert (I1 : shape_inv o1).
  { assert (K := expansion_keeps (reshape_col x) (reshape_col y)).
    specialize (K o I). rewrite H1 in K. exact K. }
  destruct st as [sx sy].
  pose proof (expansion_Return _ _ _ _ _ _ H1) as [C1 [_ [_ [rx [ry [Rx [Ry [Sx Sy]]]]]]]].
  pose proof (compression_Return _ _ _ _ _ _ Le La I1 H2) as [C2 [_ [_ [Kx Ky]]]].
  apply regression_update_Return in H3. destruct H3 as [_ [Ex [Ey _]]].
  destruct C1 as [Cr [Cm _]]. rewrite Cr, Cm in Kx, Ky.
  exists rx, ry, (sx1, sy1), o1. do 3 (split; [assumption|]).
  rewrite Ex, Ey. simpl.
  unfold side_outcome, expanded_side, compressed_side in *.
  split.
  - split.
    + intros T. apply fle_not_fgt in T.
      destruct Sx as [[_ [-> W1]] | [T' _]]; [|congruence].
      rewrite W1 in Kx.
      destruct Kx as [[_ [-> ->]] | [B _]]; [auto|].
      apply Z.ltb_lt in B. lia.
    + intros T.
      destruct Sx as [[T' _] | [_ [-> W1]]]; [congruence|].
      rewrite W1 in Kx. split; [exact W1|].
      destruct (rmax o <? Z.of_nat (S (ncols (Ux o))))%Z eqn:B.
      * destruct Kx as [[B' _] | [_ [-> ->]]]; [congruence|].
        split; [|reflexivity]. apply Z.ltb_lt in B.
        apply py_stop_within. lia.
      * destruct Kx as [[_ [-> ->]] | [B' _]]; [auto|congruence].
  - split.
    + intros T. apply fle_not_fgt in T.
      destruct Sy as [[_ [-> W1]] | [T' _]]; [|congruence].
      rewrite W1 in Ky.
      destruct Ky as [[_ [-> ->]] | [B _]]; [auto|].
      apply Z.ltb_lt in B. lia.
    + intros T.
      destruct Sy as [[T' _] | [_ [-> W1]]]; [congruence|].
      rewrite W1 in Ky. split; [exact W1|].
      destruct (rmax o <? Z.of_nat (S (ncols (Uy o))))%Z eqn:B.
      * destruct Ky as [[B' _] | [_ [-> ->]]]; [congruence|].
        split; [|reflexivity]. apply Z.ltb_lt in B.
        apply py_stop_within. lia.
      * destruct Ky as [[_ [-> ->]] | [B' _]]; [auto|congruence].
Qed.

Lemma py_stop_after_overflow (lo hi : Z) (n : nat) :
  (lo <= hi)%Z -> (0 <= hi)%Z -> Z.of_nat n = (hi + 1)%Z ->
  (lo <= Z.of_nat (py_stop lo n) <= hi)%Z.
Proof.
  intros H H0 E. unfold py_stop. destruct (lo <? 0)%Z eqn:L.
  - apply Z.ltb_lt in L. lia.
  - apply Z.ltb_ge in L. lia.
Qed.

(** C2.  Construction with [rmin <= rmax] on batches offering at least
    [rmin] singular values leaves both basis widths within
    [[rmin, rmax]]; and from any state with consistent shapes whose two
    widths lie within [[rmin, rmax]], every completed [update] leaves
    both widths within [[rmin, rmax]] again. *)
Theorem width_stays_in_bounds (X Y : matrix) (rmin0 rmax0 : Z) (thres0 : F)
    (hl : option F) (o0 : sDMD_base)
    (o : sDMD_base) (x y : ndarray) (st : Status * Status) (o' : sDMD_base) :
  eig_shape_law -> argsort_length_law ->
  ((rmin0 <= rmax0)%Z ->
   (forall U Sg V, np_svd X = Some (U, Sg, V) -> (rmin0 <= Z.of_nat (ncols U))%Z) ->
   (forall U Sg V, np_svd Y = Some (U, Sg, V) -> (rmin0 <= Z.of_nat (ncols U))%Z) ->
   sDMD_base_init X Y rmin0 rmax0 thres0 hl = Return o0 ->
   width_in_bounds o0 (Ux o0) /\ width_in_bounds o0 (Uy o0))
  /\
  (shape_inv o ->
   width_in_bounds o (Ux o) -> width_in_bounds o (Uy o) ->
   update x y o = (Return st, o') ->
   width_in_bounds o' (Ux o') /\ width_in_bounds o' (Uy o')).
Proof.
  intros Le La. split.
  - intros Hr HX HY H.
    apply sDMD_base_init_Return in H.
    destruct H as [E1 [E2 [_ [_ [_ [_ [R1 [UX [SX [VX [UY [SY [VY [EX [EY [CX CY]]]]]]]]]]]]]]]].
    specialize (HX _ _ _ EX). specialize (HY _ _ _ EY).
    unfold width_in_bounds. rewrite E1, E2, CX, CY. lia.
  - intros I Bx By H.
    apply update_Return in H. destruct H as [[sx1 sy1] [o1 [o2 [H1 [H2 H3]]]]].
    assert (I1 : shape_inv o1).
    { assert (K := expansion_keeps (reshape_col x) (reshape_col y)).
      specialize (K o I). rewrite H1 in K. exact K. }
    destruct st as [sx sy].
    pose proof (expansion_Return _ _ _ _ _ _ H1) as [C1 [_ [_ [rx [ry [_ [_ [Sx Sy]]]]]]]].
    pose proof (compression_Return _ _ _ _ _ _ Le La I1 H2) as [C2 [_ [_ [Kx Ky]]]].
    apply regression_update_Return in H3. destruct H3 as [C3 [Ex [Ey _]]].
    pose proof (same_config_trans _ _ _ (same_config_trans _ _ _ C1 C2) C3) as [Cr [Cm _]].
    destruct C1 as [Cr1 [Cm1 _]]. rewrite Cr1, Cm1 in Kx, Ky.
    unfold width_in_bounds in *. rewrite Cr, Cm, Ex, Ey.
    unfold expanded_side, compressed_side in *.
    split.
    + destruct Kx as [[B [_ ->]] | [B [_ ->]]].
      * apply Z.ltb_ge in B. destruct Sx as [[_ [_ W]] | [_ [_ W]]]; lia.
      * apply Z.ltb_lt in B. apply py_stop_after_overflow; [lia|lia|].
        destruct Sx as [[_ [_ W]] | [_ [_ W]]]; lia.
    + destruct Ky as [[B [_ ->]] | [B [_ ->]]].
      * apply Z.ltb_ge in B. destruct Sy as [[_ [_ W]] | [_ [_ W]]]; lia.
      * apply Z.ltb_lt in B. apply py_stop_after_overflow; [lia|lia|].
        destruct Sy as [[_ [_ W]] | [_ [_ W]]]; lia.
Qed.

(** C3.  The object [__init__] leaves has [Q] of shape
    (columns of [Uy], columns of [Ux]), [Pinvx] square of side the
    columns of [Ux] and [Pinvy] square of side the columns of [Uy]; and a
    call to [update] on a state with these shapes leaves a state with
    these shapes, whether it completes or raises. *)
Theorem shape_invariant (X Y : matrix) (rmin0 rmax0 : Z) (thres0 : F)
    (hl : option F) (o0 : sDMD_base) (o : sDMD_base) (x y : ndarray) :
  sort_length_law -> argsort_length_law ->
  (sDMD_base_init X Y rmin0 rmax0 thres0 hl = Return o0 -> shape_inv o0) /\
  (shape_inv o -> shape_inv (snd (update x y o))).
Proof.
  intros Ls La. split.
  - intros H. apply sDMD_base_init_Return in H. tauto.
  - intros I. exact (update_keeps x y Ls La o I).
Qed.



End UpdateTheorems.

(* ================================================================== *)
(** * The two eigenvalue rules of the compression stage *)

Section SortingFacts.
Context {SC : Scalar} {LA : LinAlg} {SO : Sorting}.

Lemma sorted_head_first (a : F) (l : list F) :
  (forall p q r, In p (a :: l) -> In q (a :: l) -> In r (a :: l) ->
     sorts_before p q -> sorts_before q r -> sorts_before p r) ->
  Sorted sorts_before (a :: l) ->
  forall b, In b l -> sorts_before a b.
Proof.
  revert a. induction l as [|h t IH]; intros a Tr Hs b Hb.
  - destruct Hb.
  - inversion Hs as [|? ? Hs' Hd]; subst.
    inversion Hd as [|? ? Hah]; subst.
    destruct Hb as [<-|Hb]; [exact Hah|].
    apply (Tr a h b); simpl; auto.
    apply IH; auto.
    intros p q r Hp Hq Hr. apply Tr; simpl; auto.
Qed.

(** An ascending arrangement of given entries is unique. *)
Lemma sorted_arrangement_unique (l1 l2 : list F) :
  ordered_on l1 ->
  Permutation l1 l2 ->
  Sorted sorts_before l1 -> Sorted sorts_before l2 ->
  l1 = l2.
Proof.
  revert l2. induction l1 as [|a1 t1 IH]; intros l2 [Tr An] P S1 S2.
  - apply Permutation_nil in P. subst. reflexivity.
  - destruct l2 as [|a2 t2].
    { apply Permutation_sym, Permutation_nil in P. discriminate. }
    assert (Tr2 : forall p q r, In p (a2 :: t2) -> In q (a2 :: t2) ->
              In r (a2 :: t2) ->
              sorts_before p q -> sorts_before q r -> sorts_before p r).
    { intros p q r Hp Hq Hr.
      apply Tr; eapply Permutation_in; try apply Permutation_sym; eauto. }
    assert (E : a1 = a2).
    { assert (I2 : In a2 (a1 :: t1)).
      { eapply Permutation_in; [apply Permutation_sym; exact P|]. simpl. auto. }
      assert (I1 : In a1 (a2 :: t2)).
      { eapply Permutation_in; [exact P|]. simpl. auto. }
      destruct I2 as [E|I2]; [exact E|].
      destruct I1 as [E|I1]; [symmetry; exact E|].
      apply An; simpl; auto.
      - apply (sorted_head_first a1 t1); auto.
      - apply (sorted_head_first a2 t2); auto. }
    subst a2. f_equal.
    apply IH.
    + split.
      * intros p q r Hp Hq Hr. apply Tr; simpl; auto.
      * intros p q Hp Hq. apply An; simpl; auto.
    + eapply Permutation_cons_inv. exact P.
    + inversion S1; assumption.
    + inversion S2; assumption.
Qed.

Lemma take_in_range {A} (d : A) (l : list A) (idx : list nat) :
  Forall (fun i => i < length l) idx ->
  take l idx = Return (map (fun i => nth i l d) idx).
Proof.
  induction 1 as [|i rest Hi _ IH]; simpl.
  - reflexivity.
  - rewrite (nth_error_nth' l d Hi), IH. reflexivity.
Qed.

Lemma read_in_order (l : list F) :
  map (fun i => nth i l f0) (seq 0 (length l)) = l.
Proof.
  induction l as [|a t IH]; simpl.
  - reflexivity.
  - f_equal. rewrite <- seq_shift, map_map. exact IH.
Qed.

(** Negating the sorted negations is reading the entries by the
    positions [argsort] of the negations returns. *)
Lemma neg_sort_neg_is_argsort_indexing (v : list F) :
  sorted_result (map fopp v) (np_sort (map fopp v)) ->
  argsorted_result (map fopp v) (np_argsort (map fopp v)) ->
  ordered_on (map fopp v) ->
  (forall a, In a v -> fopp (fopp a) = a) ->
  take v (np_argsort (map fopp v)) = Return (map fopp (np_sort (map fopp v))).
Proof.
  intros [Ps Ss] [Pa Sa] Ord Inv.
  set (nv := map fopp v) in *. set (idx := np_argsort nv) in *.
  assert (R : Forall (fun i => i < length v) idx).
  { apply Forall_forall. intros i Hi.
    apply (Permutation_in _ Pa) in Hi. apply in_seq in Hi.
    unfold nv in Hi. rewrite length_map in Hi. lia. }
  rewrite (take_in_range f0 v idx R). f_equal.
  assert (E : np_sort nv = map (fun i => nth i nv f0) idx).
  { apply sorted_arrangement_unique; auto.
    - destruct Ord as [Tr An]. split.
      + intros a b c Ha Hb Hc.
        apply Tr; eapply Permutation_in; eauto.
      + intros a b Ha Hb. apply An; eapply Permutation_in; eauto.
    - eapply Permutation_trans; [exact Ps|].
      rewrite <- (read_in_order nv) at 1.
      apply Permutation_map, Permutation_sym. exact Pa. }
  rewrite E, map_map. apply map_ext_in.
  intros i Hi. rewrite Forall_forall in R. specialize (R i Hi).
  unfold nv.
  rewrite (nth_indep (map fopp v) f0 (fopp f0)) by (rewrite length_map; exact R).
  rewrite map_nth. symmetry. apply Inv. apply nth_In. exact R.
Qed.

(** C10.  When the eigenvalues [w] that [eig] returns for [Pinvy] are
    sorted and arg-sorted as [np.sort] and [np.argsort] promise, and the
    order tells different eigenvalues apart, the array [-sort(-w)] the
    y side writes is [w] indexed by [argsort(-w)], the x side's rule; so
    the y-side reduction leaves the state, [Pinvy] included, that it
    leaves when its eigenvalues are indexed by the permutation selecting
    the kept eigenvectors. *)
Theorem y_side_eigenvalues_paired (o : sDMD_base) (st : Status)
    (w : list F) (V : matrix) :
  np_eig (Pinvy o) = Some (w, V) ->
  sorted_result (map fopp w) (np_sort (map fopp w)) ->
  argsorted_result (map fopp w) (np_argsort (map fopp w)) ->
  ordered_on (map fopp w) ->
  (forall a, In a w -> fopp (fopp a) = a) ->
  take w (np_argsort (map fopp w)) = Return (map fopp (np_sort (map fopp w))) /\
  compress_y st o = compress_y_paired st o.
Proof.
  intros E Hs Ha Ord Inv.
  pose proof (neg_sort_neg_is_argsort_indexing w Hs Ha Ord Inv) as T.
  split; [exact T|].
  unfold compress_y, compress_y_paired, bind, get, lift. simpl.
  destruct (rmax o <? Z.of_nat (ncols (Uy o)))%Z; [|reflexivity].
  rewrite E. simpl. rewrite T. reflexivity.
Qed.

End SortingFacts.

(* ================================================================== *)
(** * The predictors of [sDMDc] *)

Section ControlFacts.
Context {SC : Scalar} {LA : LinAlg} {SO : Sorting} {BF : Buffers}.

(** ** What a call leaves of the world it started in *)

Lemma frame_refl w : frame w w.
Proof. split; [reflexivity|]. apply firstn_all. Qed.

Lemma frame_length w0 w : frame w0 w -> length (heap w0) <= length (heap w).
Proof.
  intros [_ H]. rewrite <- H at 1. rewrite length_firstn. lia.
Qed.

Lemma firstn_replace_nth {A} (l : list A) (n j : nat) (a : A) :
  n <= j -> firstn n (replace_nth l j a) = firstn n l.
Proof.
  revert n j. induction l as [|h t IH]; intros n j H; simpl.
  - reflexivity.
  - destruct j as [|j'].
    + assert (n = 0) by lia. subst. reflexivity.
    + destruct n as [|n']; [reflexivity|]. simpl. f_equal. apply IH. lia.
Qed.

Lemma alloc_establishes w0 o :
  establishes (frame w0) (alloc o) (fresh_for w0).
Proof.
  intros w Hw. unfold alloc, bind, get, put, ret. simpl.
  pose proof (frame_length _ _ Hw) as L. destruct Hw as [Hs Hh].
  split.
  - split; simpl; [exact Hs|].
    rewrite firstn_app.
    replace (length (heap w0) - length (heap w)) with 0 by lia.
    simpl. rewrite app_nil_r. exact Hh.
  - intros a Ha. inversion Ha. subst. exact L.
Qed.

Lemma new_Stacker_establishes w0 n depth :
  establishes (frame w0) (new_Stacker n depth) (fresh_for w0).
Proof.
  unfold new_Stacker.
  eapply establishes_bind with (R := fun _ => True).
  - apply establishes_of_keeps, keeps_lift.
  - intros b _. apply alloc_establishes.
Qed.

Lemma new_Delayer_establishes w0 n delay :
  establishes (frame w0) (new_Delayer n delay) (fresh_for w0).
Proof.
  unfold new_Delayer.
  eapply establishes_bind with (R := fun _ => True).
  - apply establishes_of_keeps, keeps_lift.
  - intros b _. apply alloc_establishes.
Qed.

Lemma call_update_keeps w0 l x :
  fresh_for w0 l -> keeps (frame w0) (call_update l x).
Proof.
  intros Hl w Hw. unfold call_update, bind, get, lift, put, ret, raise. simpl.
  destruct (nth_error (heap w) l) as [o|]; simpl; [|exact Hw].
  destruct (obj_update o x) as [[o' out]|e]; simpl; [|exact Hw].
  destruct Hw as [Hs Hh]. split; simpl; [exact Hs|].
  rewrite firstn_replace_nth; [exact Hh|exact Hl].
Qed.

Lemma call_peek_state l w : snd (call_peek l w) = w.
Proof.
  unfold call_peek, bind, get, lift, raise. simpl.
  destruct (nth_error (heap w) l); reflexivity.
Qed.

Lemma prop_A_state w : snd (prop_A w) = w.
Proof.
  unfold prop_A, bind, get, lift. simpl.
  destruct (or_raise LinAlgError _); reflexivity.
Qed.

(** The single-step predictor assigns nothing. *)
Lemma predict_next_state aug w :
  snd (predict_next_raw_state_from_augmented aug w) = w.
Proof.
  unfold predict_next_raw_state_from_augmented, try_except, bind, get, lift, ret.
  pose proof (prop_A_state w) as E.
  destruct (prop_A w) as [[A|e] w1]; simpl in *; subst; [|reflexivity].
  destruct (negb _); [reflexivity|].
  pose proof (prop_A_state w) as E.
  destruct (prop_A w) as [[A'|e] w1]; simpl in *; subst; [|reflexivity].
  repeat match goal with
         | |- context [match ?m with Return _ => _ | Raise _ => _ end] =>
             destruct m; simpl
         end; reflexivity.
Qed.

Lemma keeps_of_state {A} (I : world -> Prop) (m : M world A) :
  (forall w, snd (m w) = w) -> keeps I m.
Proof. intros H w Hw. rewrite H. exact Hw. Qed.

Lemma for_each_keeps {A} (I : world -> Prop) (l : list A) (body : A -> M world unit) :
  (forall a, keeps I (body a)) -> keeps I (for_each l body).
Proof.
  intros H. induction l as [|a rest IH]; simpl.
  - apply keeps_ret.
  - apply keeps_bind; [apply H|]. intros _. exact IH.
Qed.

Lemma for_fold_keeps {A B} (I : world -> Prop) (l : list A) (acc : B)
    (body : A -> B -> M world B) :
  (forall a b, keeps I (body a b)) -> keeps I (for_fold l acc body).
Proof.
  intros H. revert acc. induction l as [|a rest IH]; intros acc; simpl.
  - apply keeps_ret.
  - apply keeps_bind; [apply H|]. intros acc'. apply IH.
Qed.

Lemma prime_buffers_establishes w0 x u :
  establishes (frame w0) (prime_buffers x u) (fresh_buffers w0).
Proof.
  unfold prime_buffers.
  eapply establishes_bind with (R := fun _ => True);
    [apply establishes_of_keeps, keeps_get|]. intros w _.
  eapply establishes_bind; [apply new_Stacker_establishes|]. intros l0 H0.
  eapply establishes_bind; [apply new_Delayer_establishes|]. intros l1 H1.
  eapply establishes_bind; [apply new_Delayer_establishes|]. intros l2 H2.
  eapply establishes_bind with (R := fun _ => True).
  { apply establishes_of_keeps, for_each_keeps. intros i.
    apply keeps_bind; [apply keeps_lift|]. intros c.
    apply keeps_bind; [apply call_update_keeps; exact H0|]. intros _.
    apply keeps_ret. }
  intros _ _.
  eapply establishes_bind; [apply new_Stacker_establishes|]. intros lt Ht.
  eapply establishes_bind with (R := fun _ => True).
  { apply establishes_of_keeps, for_fold_keeps. intros i acc.
    apply keeps_bind; [apply keeps_lift|]. intros c.
    apply keeps_bind; [apply call_update_keeps; exact Ht|]. intros _.
    destruct (s (self w) - 1 <=? i)%Z.
    - apply keeps_bind; [apply keeps_of_state, call_peek_state|].
      intros h. apply keeps_ret.
    - apply keeps_ret. }
  intros temp_hist _.
  eapply establishes_bind with (R := fun _ => True).
  { apply establishes_of_keeps, for_each_keeps. intros i.
    apply keeps_bind; [apply keeps_lift|]. intros c.
    apply keeps_bind; [apply call_update_keeps; exact H1|]. intros _.
    apply keeps_ret. }
  intros _ _.
  eapply establishes_bind with (R := fun _ => True).
  { apply establishes_of_keeps, for_each_keeps. intros i.
    apply keeps_bind; [apply keeps_lift|]. intros c.
    apply keeps_bind; [apply call_update_keeps; exact H2|]. intros _.
    apply keeps_ret. }
  intros _ _.
  eapply establishes_bind with (R := fun _ => True);
    [apply establishes_of_keeps, keeps_lift|]. intros c _.
  apply establishes_ret. simpl. auto.
Qed.

Lemma horizon_body_keeps w0 u l0 l1 l2 i P x :
  fresh_for w0 l0 -> fresh_for w0 l1 -> fresh_for w0 l2 ->
  keeps (frame w0) (horizon_body u l0 l1 l2 i P x).
Proof.
  intros H0 H1 H2. unfold horizon_body.
  apply keeps_bind; [apply keeps_get|]. intros w.
  apply keeps_bind; [apply keeps_lift|]. intros c.
  apply keeps_bind; [apply call_update_keeps; exact H0|]. intros a0.
  apply keeps_bind; [apply call_update_keeps; exact H1|]. intros a1.
  apply keeps_bind; [apply call_update_keeps; exact H2|]. intros a2.
  apply keeps_bind; [apply keeps_lift|]. intros aug.
  apply keeps_bind; [apply keeps_of_state, predict_next_state|]. intros nxt.
  destruct (any_isnan nxt); [apply keeps_ret|].
  apply keeps_bind; [apply keeps_lift|]. intros P'. apply keeps_ret.
Qed.

Lemma horizon_loop_keeps w0 u l0 l1 l2 steps P x :
  fresh_for w0 l0 -> fresh_for w0 l1 -> fresh_for w0 l2 ->
  keeps (frame w0) (horizon_loop u l0 l1 l2 steps P x).
Proof.
  intros H0 H1 H2. revert P x.
  induction steps as [|i rest IH]; intros P x; simpl.
  - apply keeps_ret.
  - apply keeps_bind; [apply horizon_body_keeps; assumption|].
    intros [r|P' x']; [apply keeps_ret|apply IH].
Qed.

Lemma predict_horizon_keeps w0 x u steps :
  keeps (frame w0) (predict_horizon x u steps).
Proof.
  unfold predict_horizon.
  apply keeps_bind; [apply keeps_of_state, prop_A_state|]. intros _.
  apply keeps_bind; [apply keeps_get|]. intros w.
  destruct (x_hist_invalid _ _); [apply keeps_raise|].
  destruct (u_future_invalid _ _ _); [apply keeps_raise|].
  destruct (steps <? 0)%Z; [apply keeps_raise|].
  apply (keeps_of_establishes _ _ (fun _ => True)).
  eapply establishes_bind; [apply prime_buffers_establishes|].
  intros [[[l0 l1] l2] cx] [H0 [H1 H2]].
  apply establishes_of_keeps, horizon_loop_keeps; assumption.
Qed.

(** C9.  Whatever the inputs and however the call ends, [predict_horizon]
    leaves the model's fields ([Ux], [Uy], [Q], [Pinvx], [Pinvy], [s],
    [f], [nx], [nu], [rmin], [rmax], [thres], [rho] and the references to
    the three delay buffers) as they were, and every object that existed
    before the call, the three live delay buffers among them, as it was:
    the call changes only objects it created. *)
Theorem predict_horizon_frame (w : world) (x_hist u_future : matrix) (steps : Z) :
  self (snd (predict_horizon x_hist u_future steps w)) = self w /\
  firstn (length (heap w)) (heap (snd (predict_horizon x_hist u_future steps w)))
  = heap w /\
  forall l o, nth_error (heap w) l = Some o ->
    nth_error (heap (snd (predict_horizon x_hist u_future steps w))) l = Some o.
Proof.
  destruct (predict_horizon_keeps w x_hist u_future steps w (frame_refl w))
    as [Hs Hh].
  split; [exact Hs|]. split; [exact Hh|].
  intros l o Hl.
  assert (L : l < length (heap w)) by (apply nth_error_Some; congruence).
  rewrite <- Hh in Hl. rewrite nth_error_firstn in Hl.
  destruct (Nat.ltb l (length (heap w))) eqn:E.
  - exact Hl.
  - apply Nat.ltb_ge in E. lia.
Qed.

(** ** The exceptions of [predict_horizon] *)

Ltac other_error :=
  unfold not_dimension_error, x_hist_message, u_future_message;
  split; intros Habs; discriminate Habs.

Lemma or_raise_other {A} (e0 : exn) (o : option A) :
  not_dimension_error e0 ->
  forall e, or_raise e0 o = Raise e -> not_dimension_error e.
Proof. intros H e E. destruct o; inversion E. subst. exact H. Qed.

Lemma matmul_other a b e : matmul a b = Raise e -> not_dimension_error e.
Proof.
  unfold matmul. destruct (Nat.eqb _ _); intros H; inversion H. other_error.
Qed.

Lemma py_index_other {A} (l : list A) i e :
  py_index l i = Raise e -> e = IndexError.
Proof.
  unfold py_index. destruct (_ && _)%bool; [destruct (nth_error _ _)|];
    intros H; inversion H; reflexivity.
Qed.

Lemma column_at_other m j e : column_at m j = Raise e -> not_dimension_error e.
Proof.
  unfold column_at. destruct (py_index (columns m) j) eqn:E; simpl; intros H; inversion H.
  subst. apply py_index_other in E. subst. other_error.
Qed.

Lemma prop_A_raises : raises_only not_dimension_error prop_A.
Proof.
  unfold prop_A.
  apply raises_only_bind; [apply raises_only_get|]. intros w.
  apply raises_only_bind.
  - apply raises_only_lift. apply or_raise_other. other_error.
  - intros P. apply raises_only_lift. apply matmul_other.
Qed.

Lemma predict_next_raises aug :
  raises_only not_dimension_error (predict_next_raw_state_from_augmented aug).
Proof.
  unfold predict_next_raw_state_from_augmented.
  apply raises_only_bind; [apply prop_A_raises|]. intros _.
  apply raises_only_bind; [apply raises_only_get|]. intros w.
  destruct (negb _); [apply raises_only_ret|].
  apply raises_only_try_except, raises_only_ret.
Qed.

Lemma call_update_raises l x : raises_only not_dimension_error (call_update l x).
Proof.
  unfold call_update.
  apply raises_only_bind; [apply raises_only_get|]. intros w.
  destruct (nth_error (heap w) l) as [o|]; [|apply raises_only_raise; other_error].
  apply raises_only_bind.
  - apply raises_only_lift. intros e. unfold obj_update.
    destruct o as [b|d]; simpl.
    + destruct (Stacker_update b x); simpl; intros H; inversion H. other_error.
    + destruct (Delayer_update d x); simpl; intros H; inversion H. other_error.
  - intros [o' out].
    apply raises_only_bind; [apply raises_only_get|]. intros w1.
    apply raises_only_bind; [apply raises_only_put|]. intros _.
    apply raises_only_ret.
Qed.

Lemma call_peek_raises l : raises_only not_dimension_error (call_peek l).
Proof.
  unfold call_peek.
  apply raises_only_bind; [apply raises_only_get|]. intros w.
  destruct (nth_error (heap w) l) as [o|]; [|apply raises_only_raise; other_error].
  apply raises_only_lift. intros e. unfold obj_call.
  destruct o as [b|d]; apply or_raise_other; other_error.
Qed.

Lemma alloc_raises o : raises_only not_dimension_error (alloc o).
Proof.
  unfold alloc.
  apply raises_only_bind; [apply raises_only_get|]. intros w.
  apply raises_only_bind; [apply raises_only_put|]. intros _.
  apply raises_only_ret.
Qed.

Lemma new_Stacker_raises n d : raises_only not_dimension_error (new_Stacker n d).
Proof.
  unfold new_Stacker. apply raises_only_bind.
  - apply raises_only_lift. apply or_raise_other. other_error.
  - intros b. apply alloc_raises.
Qed.

Lemma new_Delayer_raises n d : raises_only not_dimension_error (new_Delayer n d).
Proof.
  unfold new_Delayer. apply raises_only_bind.
  - apply raises_only_lift. apply or_raise_other. other_error.
  - intros b. apply alloc_raises.
Qed.

Lemma for_each_raises {A} (P : exn -> Prop) (l : list A) (body : A -> M world unit) :
  (forall a, raises_only P (body a)) -> raises_only P (for_each l body).
Proof.
  intros H. induction l as [|a rest IH]; simpl.
  - apply raises_only_ret.
  - apply raises_only_bind; [apply H|]. intros _. exact IH.
Qed.

Lemma for_fold_raises {A B} (P : exn -> Prop) (l : list A) (acc : B)
    (body : A -> B -> M world B) :
  (forall a b, raises_only P (body a b)) -> raises_only P (for_fold l acc body).
Proof.
  intros H. revert acc. induction l as [|a rest IH]; intros acc; simpl.
  - apply raises_only_ret.
  - apply raises_only_bind; [apply H|]. intros acc'. apply IH.
Qed.

Lemma prime_buffers_raises x u :
  raises_only not_dimension_error (prime_buffers x u).
Proof.
  unfold prime_buffers.
  apply raises_only_bind; [apply raises_only_get|]. intros w.
  apply raises_only_bind; [apply new_Stacker_raises|]. intros l0.
  apply raises_only_bind; [apply new_Delayer_raises|]. intros l1.
  apply raises_only_bind; [apply new_Delayer_raises|]. intros l2.
  apply raises_only_bind.
  { apply for_each_raises. intros i.
    apply raises_only_bind; [apply raises_only_lift, column_at_other|]. intros c.
    apply raises_only_bind; [apply call_update_raises|]. intros _.
    apply raises_only_ret. }
  intros _.
  apply raises_only_bind; [apply new_Stacker_raises|]. intros lt.
  apply raises_only_bind.
  { apply for_fold_raises. intros i acc.
    apply raises_only_bind; [apply raises_only_lift, column_at_other|]. intros c.
    apply raises_only_bind; [apply call_update_raises|]. intros _.
    destruct (s (self w) - 1 <=? i)%Z.
    - apply raises_only_bind; [apply call_peek_raises|].
      intros h. apply raises_only_ret.
    - apply raises_only_ret. }
  intros temp_hist.
  apply raises_only_bind.
  { apply for_each_raises. intros i.
    apply raises_only_bind.
    - apply raises_only_lift. intros e E. apply py_index_other in E. subst.
      other_error.
    - intros h. apply raises_only_bind; [apply call_update_raises|]. intros _.
      apply raises_only_ret. }
  intros _.
  apply raises_only_bind.
  { apply for_each_raises. intros i.
    apply raises_only_bind; [apply raises_only_lift, column_at_other|]. intros c.
    apply raises_only_bind; [apply call_update_raises|]. intros _.
    apply raises_only_ret. }
  intros _.
  apply raises_only_bind; [apply raises_only_lift, column_at_other|]. intros c.
  apply raises_only_ret.
Qed.

Lemma horizon_body_raises u l0 l1 l2 i P x :
  raises_only not_dimension_error (horizon_body u l0 l1 l2 i P x).
Proof.
  unfold horizon_body.
  apply raises_only_bind; [apply raises_only_get|]. intros w.
  apply raises_only_bind; [apply raises_only_lift, column_at_other|]. intros c.
  apply raises_only_bind; [apply call_update_raises|]. intros a0.
  apply raises_only_bind; [apply call_update_raises|]. intros a1.
  apply raises_only_bind; [apply call_update_raises|]. intros a2.
  apply raises_only_bind.
  { apply raises_only_lift. intros e. unfold vstack_nd, vstack.
    destruct (Nat.eqb _ _); intros H; inversion H. other_error. }
  intros aug.
  apply raises_only_bind; [apply predict_next_raises|]. intros nxt.
  destruct (any_isnan nxt); [apply raises_only_ret|].
  apply raises_only_bind; [|intros P'; apply raises_only_ret].
  apply raises_only_lift. intros e. unfold set_column.
  destruct (Nat.ltb _ _); [destruct (Nat.eqb _ _); [|destruct (Nat.eqb _ _)]|];
    intros H; inversion H; other_error.
Qed.

Lemma horizon_loop_raises u l0 l1 l2 steps P x :
  raises_only not_dimension_error (horizon_loop u l0 l1 l2 steps P x).
Proof.
  revert P x. induction steps as [|i rest IH]; intros P x; simpl.
  - apply raises_only_ret.
  - apply raises_only_bind; [apply horizon_body_raises|].
    intros [r|P' x']; [apply raises_only_ret|apply IH].
Qed.

(** The shape checks where the property [A] can be computed: [x_hist]
    is rejected exactly when it does not have [nx] rows and at least
    [s+f-1] columns, [u_future] exactly when it does not have [nu] rows
    and at least [steps+f-1] columns; a rejected input ends the call in
    the [ValueError] of its shape check with the world untouched (no
    buffer exists yet, no prediction was made); and when both inputs are
    accepted the call never ends in either of these two errors. *)
Theorem predict_horizon_dimension_check (w : world) (x_hist u_future : matrix)
    (steps : Z) (A : matrix) :
  prop_A w = (Return A, w) ->
  (x_hist_invalid (self w) x_hist = false <->
     nrows x_hist = nx (self w) /\
     (s (self w) + f (self w) - 1 <= Z.of_nat (ncols x_hist))%Z) /\
  (u_future_invalid (self w) u_future steps = false <->
     nrows u_future = nu (self w) /\
     (steps + f (self w) - 1 <= Z.of_nat (ncols u_future))%Z) /\
  (x_hist_invalid (self w) x_hist = true ->
     predict_horizon x_hist u_future steps w
     = (Raise (ValueError x_hist_message), w)) /\
  (x_hist_invalid (self w) x_hist = false ->
   u_future_invalid (self w) u_future steps = true ->
     predict_horizon x_hist u_future steps w
     = (Raise (ValueError u_future_message), w)) /\
  (x_hist_invalid (self w) x_hist = false ->
   u_future_invalid (self w) u_future steps = false ->
     forall e w', predict_horizon x_hist u_future steps w = (Raise e, w') ->
       not_dimension_error e).
Proof.
  intros HA. split; [|split; [|split; [|split]]].
  - unfold x_hist_invalid. rewrite orb_false_iff, negb_false_iff, Nat.eqb_eq, Z.ltb_ge.
    reflexivity.
  - unfold u_future_invalid. rewrite orb_false_iff, negb_false_iff, Nat.eqb_eq, Z.ltb_ge.
    reflexivity.
  - intros Hx. unfold predict_horizon.
    rewrite (bind_eq _ _ _ _ _ HA). unfold bind, get, raise. simpl.
    rewrite Hx. reflexivity.
  - intros Hx Hu. unfold predict_horizon.
    rewrite (bind_eq _ _ _ _ _ HA). unfold bind, get, raise. simpl.
    rewrite Hx, Hu. reflexivity.
  - intros Hx Hu e w' H. unfold predict_horizon in H.
    rewrite (bind_eq _ _ _ _ _ HA) in H.
    unfold bind at 1 in H. unfold get in H. rewrite Hx, Hu in H.
    destruct (steps <? 0)%Z.
    + unfold raise in H. inversion H. other_error.
    + revert H. apply raises_only_bind; [apply prime_buffers_raises|].
      intros [[[l0 l1] l2] cx]. apply horizon_loop_raises.
Qed.

(** When [pinv] ends in [LinAlgError], so does [predict_horizon],
    whatever the shapes of its inputs: the guard of line 475 computes
    the property [A] before the shape checks of lines 479-491. *)
Lemma predict_horizon_raises_when_pinv_fails (w : world)
    (x_hist u_future : matrix) (steps : Z) :
  np_pinv (Pinvx (base (self w))) = None ->
  predict_horizon x_hist u_future steps w = (Raise LinAlgError, w).
Proof.
  intros H. unfold predict_horizon.
  apply bind_raise_eq. unfold prop_A, bind, get, lift. simpl.
  rewrite H. reflexivity.
Qed.

(** With both inputs accepted, a negative number of steps ends the call
    in the [ValueError] of [np.zeros] (line 493). *)
Lemma predict_horizon_negative_steps (w : world) (x_hist u_future : matrix)
    (steps : Z) (A : matrix) :
  prop_A w = (Return A, w) ->
  x_hist_invalid (self w) x_hist = false ->
  u_future_invalid (self w) u_future steps = false ->
  (steps < 0)%Z ->
  predict_horizon x_hist u_future steps w
  = (Raise (ValueError "negative dimensions are not allowed"), w).
Proof.
  intros HA Hx Hu Hs. unfold predict_horizon.
  rewrite (bind_eq _ _ _ _ _ HA). unfold bind, get, raise. simpl.
  rewrite Hx, Hu.
  replace (steps <? 0)%Z with true by (symmetry; apply Z.ltb_lt; exact Hs).
  reflexivity.
Qed.

(** ** The prediction loop *)

Lemma length_replace_nth {A} (l : list A) j a :
  length (replace_nth l j a) = length l.
Proof.
  revert j. induction l as [|h t IH]; intros j; simpl; [reflexivity|].
  destruct j; simpl; [reflexivity|]. f_equal. apply IH.
Qed.

Lemma set_column_ncols m j v m' :
  set_column m j v = Return m' -> ncols m' = ncols m.
Proof.
  unfold set_column.
  destruct (Nat.ltb _ _); [destruct (Nat.eqb _ _); [|destruct (Nat.eqb _ _)]|];
    intros H; inversion H; unfold ncols; simpl; apply length_replace_nth.
Qed.

(** A pass of the loop that completes has read its control column, and
    either returns the columns in front of [i] or goes on with an array
    of the same width. *)
Lemma horizon_body_Return u l0 l1 l2 i P x w step w1 :
  horizon_body u l0 l1 l2 i P x w = (Return step, w1) ->
  (exists c, column_at u (f (self w) + i) = Return c) /\
  (step = Returned (columns_to P i) \/
   exists P' x', step = Continue P' x' /\ ncols P' = ncols P).
Proof.
  unfold horizon_body. intros H.
  apply bind_Return_inv in H. destruct H as [w0 [wa [Hg H]]].
  unfold get in Hg. inversion Hg; subst. clear Hg.
  apply bind_Return_inv in H. destruct H as [c [wb [Hc H]]].
  apply lift_Return_inv in Hc. destruct Hc as [Hc ->].
  split; [exists c; exact Hc|].
  apply bind_Return_inv in H. destruct H as [a0 [wc [_ H]]].
  apply bind_Return_inv in H. destruct H as [a1 [wd [_ H]]].
  apply bind_Return_inv in H. destruct H as [a2 [we [_ H]]].
  apply bind_Return_inv in H. destruct H as [aug [wf [_ H]]].
  apply bind_Return_inv in H. destruct H as [nxt [wg [_ H]]].
  destruct (any_isnan nxt).
  - unfold ret in H. inversion H. left. reflexivity.
  - apply bind_Return_inv in H. destruct H as [P' [wh [HP H]]].
    apply lift_Return_inv in HP. destruct HP as [HP _].
    unfold ret in H. inversion H. right.
    exists P', (Mat nxt). split; [reflexivity|].
    eapply set_column_ncols; eauto.
Qed.

(** If the control column of one of the remaining indices cannot be read,
    a loop that returns returns fewer columns than the array has. *)
Lemma horizon_loop_short w0 u l0 l1 l2 steps :
  fresh_for w0 l0 -> fresh_for w0 l1 -> fresh_for w0 l2 ->
  (exists k, In k steps /\ column_at u (f (self w0) + k) = Raise IndexError) ->
  forall P x w r w',
    frame w0 w ->
    Forall (fun i => (0 <= i < Z.of_nat (ncols P))%Z) steps ->
    horizon_loop u l0 l1 l2 steps P x w = (Return r, w') ->
    ncols r < ncols P.
Proof.
  intros H0 H1 H2. induction steps as [|i rest IH]; intros [k [Hk Hbad]] P x w r w' Fr Hi H.
  - destruct Hk.
  - simpl in H. apply bind_Return_inv in H. destruct H as [step [w1 [Hb H]]].
    assert (Fr1 : frame w0 w1).
    { pose proof (horizon_body_keeps w0 u l0 l1 l2 i P x H0 H1 H2 w Fr) as K.
      rewrite Hb in K. exact K. }
    apply horizon_body_Return in Hb. destruct Hb as [[c Hc] Hstep].
    destruct Fr as [Fs _]. rewrite Fs in Hc.
    inversion Hi as [|? ? Hi0 Hrest]; subst.
    destruct Hstep as [-> | [P' [x' [-> HP']]]].
    + unfold ret in H. inversion H; subst.
      rewrite ncols_columns_to. unfold py_stop.
      destruct (i <? 0)%Z eqn:E; [apply Z.ltb_lt in E; lia|]. lia.
    + rewrite <- HP'. apply (IH) with (x := x') (w := w1) (w' := w'); auto.
      * destruct Hk as [<-|Hk]; [congruence|]. exists k. auto.
      * rewrite HP'. exact Hrest.
Qed.

Lemma py_index_at_length {A} (l : list A) :
  py_index l (Z.of_nat (length l)) = Raise IndexError.
Proof.
  unfold py_index.
  destruct (Z.of_nat (length l) <? 0)%Z eqn:E; [apply Z.ltb_lt in E; lia|].
  rewrite Z.ltb_irrefl, andb_false_r. reflexivity.
Qed.

(** On a control sequence of exactly [steps + f - 1] columns a call
    that returns returns fewer than [steps] columns. *)
Lemma predict_horizon_exact_length_short (w : world)
    (x_hist u_future : matrix) (steps : Z) (r : matrix) (w' : world) :
  (1 <= steps)%Z ->
  Z.of_nat (ncols u_future) = (steps + f (self w) - 1)%Z ->
  predict_horizon x_hist u_future steps w = (Return r, w') ->
  (Z.of_nat (ncols r) < steps)%Z.
Proof.
  intros Hs Hu H. unfold predict_horizon in H.
  apply bind_Return_inv in H. destruct H as [A [wa [HA H]]].
  pose proof (prop_A_state w) as E. rewrite HA in E. simpl in E. subst wa.
  apply bind_Return_inv in H. destruct H as [w0 [wb [Hg H]]].
  unfold get in Hg. inversion Hg; subst. clear Hg.
  destruct (x_hist_invalid _ _); [discriminate|].
  destruct (u_future_invalid _ _ _); [discriminate|].
  destruct (steps <? 0)%Z; [discriminate|].
  apply bind_Return_inv in H. destruct H as [[[[l0 l1] l2] cx] [w1 [Hp H]]].
  destruct (prime_buffers_establishes wb x_hist u_future wb (frame_refl wb))
    as [Fr Hfresh].
  rewrite Hp in Fr, Hfresh. simpl in Fr.
  destruct (Hfresh _ eq_refl) as [H0 [H1 H2]].
  assert (L : ncols r < ncols (zeros (nx (self wb)) (Z.to_nat steps))).
  { eapply (horizon_loop_short wb u_future l0 l1 l2 (py_range steps) H0 H1 H2);
      [| exact Fr | | exact H].
    - exists (steps - 1)%Z. split.
      + unfold py_range. apply in_map_iff. exists (Z.to_nat (steps - 1)).
        split; [lia|]. apply in_seq. lia.
      + unfold column_at.
        replace (f (self wb) + (steps - 1))%Z
          with (Z.of_nat (length (columns u_future))) by (unfold ncols in Hu; lia).
        rewrite py_index_at_length. reflexivity.
    - apply Forall_forall. intros i Hi. unfold py_range in Hi.
      apply in_map_iff in Hi. destruct Hi as [n [<- Hn]]. apply in_seq in Hn.
      unfold zeros. rewrite ncols_build. lia. }
  unfold zeros in L. rewrite ncols_build in L. lia.
Qed.

(** C5 (what the code does on a control sequence of the documented
    length).  When [u_future] has exactly [steps + f - 1] columns, the
    number the shape check and the docstring ask for, and [steps >= 1],
    [predict_horizon] never returns the full trajectory: it raises, or
    what it returns has fewer than [steps] columns.  The last pass of the
    loop reads column [f + steps - 1], one past the end. *)
Theorem predict_horizon_exact_length_never_full (w : world)
    (x_hist u_future : matrix) (steps : Z) :
  (1 <= steps)%Z ->
  Z.of_nat (ncols u_future) = (steps + f (self w) - 1)%Z ->
  (exists e, fst (predict_horizon x_hist u_future steps w) = Raise e) \/
  (exists r, fst (predict_horizon x_hist u_future steps w) = Return r /\
             (Z.of_nat (ncols r) < steps)%Z).
Proof.
  intros Hs Hu.
  destruct (predict_horizon x_hist u_future steps w) as [[r|e] w'] eqn:H; simpl.
  - right. exists r. split; [reflexivity|].
    eapply predict_horizon_exact_length_short; eauto.
  - left. exists e. reflexivity.
Qed.

(** ** The single-step predictor *)

(** When [pinv] ends in [LinAlgError], so does the predictor: the guard
    of line 429 computes the property [A] outside the [try]. *)
Lemma predict_next_raises_when_pinv_fails (w : world) (aug : ndarray) :
  np_pinv (Pinvx (base (self w))) = None ->
  predict_next_raw_state_from_augmented aug w = (Raise LinAlgError, w).
Proof.
  intros H. unfold predict_next_raw_state_from_augmented.
  apply bind_raise_eq. unfold prop_A, bind, get, lift. simpl.
  rewrite H. reflexivity.
Qed.

(** When the property [A] can be computed the predictor returns, and what
    it returns against a wrong row count is the all-NaN column. *)
Lemma predict_next_returns_when_trained (w : world) (aug : ndarray) (A : matrix) :
  prop_A w = (Return A, w) ->
  exists r, predict_next_raw_state_from_augmented aug w = (Return r, w) /\
    (shape0 aug <> nrows (Ux (base (self w))) -> r = full (nx (self w)) 1 fnan).
Proof.
  intros HA.
  pose proof (predict_next_state aug w) as St.
  unfold predict_next_raw_state_from_augmented in *.
  rewrite (bind_eq _ _ _ _ _ HA) in *.
  unfold bind at 1 in St. unfold bind at 1. unfold get in St |- *.
  destruct (Nat.eqb (shape0 aug) (nrows (Ux (base (self w))))) eqn:E; simpl in *.
  - unfold try_except in *.
    match goal with
    | |- context [match ?b w with _ => _ end] => destruct (b w) as [[r|e] w1]
    end; simpl in *; subst.
    + exists r. split; [reflexivity|]. apply Nat.eqb_eq in E. congruence.
    + unfold ret in *. simpl in *. subst. eexists. split; [reflexivity|].
      apply Nat.eqb_eq in E. congruence.
  - unfold ret. eexists. split; [reflexivity|]. auto.
Qed.

(** On a two-dimensional input with the basis' row count the predictor
    returns the first [nx] entries of the first column of
    [Uy @ (A @ (Ux.T @ aug))], as a column. *)
Lemma predict_next_value (w : world) (m A t yr yh : matrix) (c : list F)
    (rest : list (list F)) :
  prop_A w = (Return A, w) ->
  nrows m = nrows (Ux (base (self w))) ->
  matmul (transpose (Ux (base (self w)))) m = Return t ->
  matmul A t = Return yr ->
  matmul (Uy (base (self w))) yr = Return yh ->
  columns yh = c :: rest ->
  predict_next_raw_state_from_augmented (Mat m) w
  = (Return (col_vector (firstn (nx (self w)) c)), w).
Proof.
  intros HA Hr H1 H2 H3 Hc.
  unfold predict_next_raw_state_from_augmented.
  rewrite (bind_eq _ _ _ _ _ HA). unfold bind at 1. unfold get.
  change (shape0 (Mat m)) with (nrows m).
  rewrite Hr, Nat.eqb_refl. change (negb true) with false. cbv iota.
  unfold try_except, bind. rewrite HA.
  unfold lift, ret. simpl. rewrite H1. simpl. rewrite H2. simpl.
  rewrite H3. simpl. rewrite Hc. reflexivity.
Qed.

End ControlFacts.

(* ================================================================== *)
(** * Closed examples on binary64 numbers *)

Section ReferenceRoutines.

Lemma diagonal_eig_shape : eig_shape_law.
Proof.
  intros m w V H. simpl in H. unfold diagonal_eig in H.
  destruct (Nat.eqb (nrows m) (ncols m)) eqn:E; simpl in H; [|discriminate].
  destruct (all_finite m && is_diagonal m); simpl in H; [|discriminate].
  apply Nat.eqb_eq in E. inversion H; subst.
  unfold diagonal_of, eye. rewrite length_map, length_seq, ncols_build.
  rewrite nrows_build, <- E, Nat.min_id. auto.
Qed.

Lemma insert_by_length {A} (le : A -> A -> bool) a l :
  length (insert_by le a l) = S (length l).
Proof.
  induction l as [|h t IH]; simpl; [reflexivity|].
  destruct (le a h); simpl; [reflexivity|]. rewrite IH. reflexivity.
Qed.

Lemma sort_by_length {A} (le : A -> A -> bool) l :
  length (sort_by le l) = length l.
Proof.
  induction l as [|h t IH]; simpl; [reflexivity|].
  rewrite insert_by_length. f_equal. exact IH.
Qed.

Lemma insert_by_permutation {A} (le : A -> A -> bool) a l :
  Permutation (insert_by le a l) (a :: l).
Proof.
  induction l as [|h t IH]; simpl; [apply Permutation_refl|].
  destruct (le a h); [apply Permutation_refl|].
  eapply Permutation_trans; [apply perm_skip; exact IH|apply perm_swap].
Qed.

Lemma sort_by_permutation {A} (le : A -> A -> bool) l :
  Permutation (sort_by le l) l.
Proof.
  induction l as [|h t IH]; simpl; [apply Permutation_refl|].
  eapply Permutation_trans; [apply insert_by_permutation|].
  apply perm_skip. exact IH.
Qed.

Lemma insertion_sort_length : sort_length_law.
Proof. intros v. apply sort_by_length. Qed.

Lemma insertion_argsort_length : argsort_length_law.
Proof.
  intros v. simpl. unfold float_argsort. rewrite sort_by_length. apply length_seq.
Qed.

End ReferenceRoutines.

(** Construction on the example batches gives [trained_base]. *)
Example trained_base_constructed :
  sDMD_base_init X_batch Y_batch 2 2 0.2%float None = Return trained_base.
Proof. reflexivity. Qed.

Example update_outside_sample :
  update x_outside y_inside trained_base = (Return (REDUCTION, NONE), after_update).
Proof. reflexivity. Qed.

(** A NaN sample goes through [update] and leaves NaN statistics. *)
Example update_nan_sample :
  update x_nan y_inside trained_base = (Return (NONE, NONE), nan_base).
Proof. reflexivity. Qed.

(** Witness of [update_status_and_width]: the x side exceeds the
    threshold at full width (reduction), the y side stays below it. *)
Lemma update_status_and_width_witness :
  update x_outside y_inside trained_base = (Return (REDUCTION, NONE), after_update) /\
  exists rx ry st1 o1,
    normalized_residual (Ux trained_base) (reshape_col x_outside) = Return rx /\
    normalized_residual (Uy trained_base) (reshape_col y_inside) = Return ry /\
    expansion (reshape_col x_outside) (reshape_col y_inside) trained_base
    = (Return st1, o1) /\
    side_outcome trained_base rx (ncols (Ux trained_base)) (ncols (Ux o1))
      (ncols (Ux after_update)) REDUCTION /\
    side_outcome trained_base ry (ncols (Uy trained_base)) (ncols (Uy o1))
      (ncols (Uy after_update)) NONE.
Proof.
  split; [reflexivity|].
  apply (update_status_and_width trained_base x_outside y_inside
           (REDUCTION, NONE) after_update).
  - exact diagonal_eig_shape.
  - exact insertion_argsort_length.
  - unfold reachable_state, shape_inv. simpl. repeat split; lia.
  - reflexivity.
Defined.

(** Witness of [width_stays_in_bounds]. *)
Lemma width_stays_in_bounds_witness :
  (width_in_bounds trained_base (Ux trained_base) /\
   width_in_bounds trained_base (Uy trained_base)) /\
  (width_in_bounds after_update (Ux after_update) /\
   width_in_bounds after_update (Uy after_update)).
Proof.
  destruct (width_stays_in_bounds X_batch Y_batch 2 2 0.2%float None trained_base
              trained_base x_outside y_inside (REDUCTION, NONE) after_update
              diagonal_eig_shape insertion_argsort_length) as [A B].
  split.
  - apply A.
    + lia.
    + intros U Sg V H.
      assert (E : np_svd X_batch
                  = Some (eye 3 2, [2%float; 1%float], eye 2 2)) by reflexivity.
      rewrite E in H. inversion H. subst. simpl. lia.
    + intros U Sg V H.
      assert (E : np_svd Y_batch
                  = Some (eye 2 2, [2%float; 1%float], eye 2 2)) by reflexivity.
      rewrite E in H. inversion H. subst. simpl. lia.
    + reflexivity.
  - apply B.
    + repeat split.
    + unfold width_in_bounds. simpl. lia.
    + unfold width_in_bounds. simpl. lia.
    + reflexivity.
Defined.

(** Witness of [shape_invariant]. *)
Lemma shape_invariant_witness :
  shape_inv trained_base /\
  shape_inv (snd (update x_outside y_inside trained_base)).
Proof.
  destruct (shape_invariant X_batch Y_batch 2 2 0.2%float None trained_base
              trained_base x_outside y_inside
              insertion_sort_length insertion_argsort_length) as [A B].
  split.
  - apply A. reflexivity.
  - apply B. repeat split.
Defined.


(** Witness of [y_side_eigenvalues_paired]: the eigenvalues [1, 4, 0]. *)
Lemma y_side_eigenvalues_paired_witness :
  take [1%float; 4%float; 0%float]
    (np_argsort (map fopp [1%float; 4%float; 0%float]))
  = Return (map fopp (np_sort (map fopp [1%float; 4%float; 0%float]))) /\
  compress_y NONE y_expanded_base = compress_y_paired NONE y_expanded_base.
Proof.
  apply (y_side_eigenvalues_paired y_expanded_base NONE
           [1%float; 4%float; 0%float] (eye 3 3)).
  - reflexivity.
  - split.
    + apply sort_by_permutation.
    + replace (np_sort (SC := float_scalar)
                 (map PrimFloat.opp [1%float; 4%float; 0%float]))
        with [(-4)%float; (-1)%float; (-0)%float] by reflexivity.
      repeat constructor.
  - split.
    + exact (sort_by_permutation _ _).
    + replace (np_argsort (SC := float_scalar)
                 (map PrimFloat.opp [1%float; 4%float; 0%float]))
        with [1; 0; 2] by reflexivity.
      repeat constructor.
  - split.
    + intros a b c Ha Hb Hc.
      simpl in Ha, Hb, Hc.
      destruct Ha as [<-|[<-|[<-|[]]]];
      destruct Hb as [<-|[<-|[<-|[]]]];
      destruct Hc as [<-|[<-|[<-|[]]]];
      unfold sorts_before; intros H1 H2;
      first [ reflexivity
            | exfalso; apply (eq_true_false_abs _ H1); reflexivity
            | exfalso; apply (eq_true_false_abs _ H2); reflexivity ].
    + intros a b Ha Hb.
      simpl in Ha, Hb.
      destruct Ha as [<-|[<-|[<-|[]]]];
      destruct Hb as [<-|[<-|[<-|[]]]];
      unfold sorts_before; intros H1 H2;
      first [ reflexivity
            | exfalso; apply (eq_true_false_abs _ H1); reflexivity
            | exfalso; apply (eq_true_false_abs _ H2); reflexivity ].
  - intros a Ha. simpl in Ha.
    destruct Ha as [<-|[<-|[<-|[]]]]; reflexivity.
Defined.

(** The property [A] of the example model is the identity. *)
Example trained_world_operator :
  prop_A trained_world
  = (Return (mkmat 2 [[1%float; 0%float]; [0%float; 1%float]]), trained_world).
Proof. reflexivity. Qed.

(** One step ahead with a control sequence of the documented length
    [steps + f - 1 = 1]: both shape checks pass, the buffers are primed,
    and the first pass of the loop reads column 1 of a one-column array. *)
Example predict_horizon_documented_length_IndexError :
  x_hist_invalid (self trained_world) x_history = false /\
  u_future_invalid (self trained_world) u_one_column 1 = false /\
  fst (predict_horizon x_history u_one_column 1 trained_world) = Raise IndexError.
Proof. repeat split. Qed.

(** With one more control column the same call returns its trajectory. *)
Example predict_horizon_one_more_column :
  fst (predict_horizon x_history u_two_columns 1 trained_world)
  = Return (mkmat 2 [[1%float; 2%float]]).
Proof. reflexivity. Qed.

(** Witness of [predict_horizon_exact_length_never_full]. *)
Lemma predict_horizon_exact_length_never_full_witness :
  (exists e, fst (predict_horizon x_history u_one_column 1 trained_world) = Raise e) \/
  (exists r, fst (predict_horizon x_history u_one_column 1 trained_world) = Return r /\
             (Z.of_nat (ncols r) < 1)%Z).
Proof.
  apply (predict_horizon_exact_length_never_full trained_world x_history
           u_one_column 1).
  - lia.
  - reflexivity.
Defined.

(** Witness of [predict_horizon_dimension_check]: a history with three
    rows is rejected before anything is allocated; the two-row history
    is accepted. *)
Lemma predict_horizon_dimension_check_witness :
  predict_horizon x_history_three_rows u_two_columns 1 trained_world
  = (Raise (ValueError x_hist_message), trained_world) /\
  (x_hist_invalid (self trained_world) x_history = false <->
     nrows x_history = nx (self trained_world) /\
     (s (self trained_world) + f (self trained_world) - 1
      <= Z.of_nat (ncols x_history))%Z).
Proof.
  split.
  - destruct (predict_horizon_dimension_check trained_world x_history_three_rows
                u_two_columns 1 _ trained_world_operator) as [_ [_ [H _]]].
    apply H. reflexivity.
  - destruct (predict_horizon_dimension_check trained_world x_history
                u_two_columns 1 _ trained_world_operator) as [H _].
    exact H.
Defined.

(** C6 (what the code does once the statistics hold a NaN).  The guard
    of line 475 computes the property [A] before the two shape checks.
    After [update] has taken a sample with a NaN, [pinv] ends in
    [LinAlgError] and [predict_horizon] raises it for a history with a
    row too many as well: the dimension error is not raised. *)
Theorem predict_horizon_check_preempted_after_nan_sample :
  update x_nan y_inside trained_base = (Return (NONE, NONE), nan_base) /\
  x_hist_invalid (self nan_world) x_history_three_rows = true /\
  predict_horizon x_history_three_rows u_two_columns 1 nan_world
  = (Raise LinAlgError, nan_world).
Proof.
  split; [reflexivity|]. split; [reflexivity|].
  apply predict_horizon_raises_when_pinv_fails. reflexivity.
Qed.

(** C7 (what the code does once the statistics hold a NaN).  After
    [update] has taken a sample with a NaN, [Pinvx] holds NaN, [pinv]
    ends in [LinAlgError], and the single-step predictor raises it: the
    guard of line 429 computes the property [A] before the [try]. *)
Theorem predict_next_raises_after_nan_sample :
  update x_nan y_inside trained_base = (Return (NONE, NONE), nan_base) /\
  predict_next_raw_state_from_augmented
    (Mat (col_vector [1%float; 2%float; 1%float])) nan_world
  = (Raise LinAlgError, nan_world).
Proof.
  split.
  - reflexivity.
  - apply predict_next_raises_when_pinv_fails. reflexivity.
Qed.

(** On the trained model the same call returns the prediction. *)
Example predict_next_on_trained_model :
  predict_next_raw_state_from_augmented
    (Mat (col_vector [1%float; 2%float; 1%float])) trained_world
  = (Return (mkmat 2 [[1%float; 2%float]]), trained_world).
Proof. reflexivity. Qed.

(** Witness of [predict_horizon_frame]: the call allocates four buffers
    behind the three live ones, which are as they were. *)
Lemma predict_horizon_frame_witness :
  self (snd (predict_horizon x_history u_two_columns 1 trained_world))
  = self trained_world /\
  firstn 3 (heap (snd (predict_horizon x_history u_two_columns 1 trained_world)))
  = heap trained_world /\
  length (heap (snd (predict_horizon x_history u_two_columns 1 trained_world))) = 7.
Proof.
  destruct (predict_horizon_frame trained_world x_history u_two_columns 1)
    as [A [B _]].
  split; [exact A|]. split; [exact B|]. reflexivity.
Defined.

(* ================================================================== *)
(** * The rest of the module *)

(** ** [hankel_transform] *)

Section HankelFacts.
Context {SC : Scalar}.

Lemma entry_build n m g i j :
  i < n -> j < m -> entry (build n m g) i j = g i j.
Proof.
  intros Hi Hj. unfold entry, col, build. simpl.
  rewrite (nth_indep _ [] (map (fun i0 => g i0 0) (seq 0 n)))
    by (rewrite length_map, length_seq; exact Hj).
  rewrite (map_nth (fun j0 => map (fun i0 => g i0 j0) (seq 0 n)) (seq 0 m) 0 j).
  rewrite seq_nth by exact Hj. simpl.
  rewrite (nth_indep _ f0 (g 0 j))
    by (rewrite length_map, length_seq; exact Hi).
  rewrite (map_nth (fun i0 => g i0 j) (seq 0 n) 0 i).
  rewrite seq_nth by exact Hi. reflexivity.
Qed.

Lemma py_stop_of_nat k n : k <= n -> py_stop (Z.of_nat k) n = k.
Proof.
  intros H. unfold py_stop.
  destruct (Z.of_nat k <? 0)%Z eqn:E; [apply Z.ltb_lt in E; lia|]. lia.
Qed.

Lemma py_stop_of_nat_min k n : py_stop (Z.of_nat k) n = Nat.min k n.
Proof.
  unfold py_stop.
  destruct (Z.of_nat k <? 0)%Z eqn:E; [apply Z.ltb_lt in E; lia|].
  rewrite Nat2Z.id. reflexivity.
Qed.

Lemma slice_range_length {A} (a b : nat) (l : list A) :
  a <= b -> b <= length l ->
  length (slice_range (Z.of_nat a) (Z.of_nat b) l) = b - a.
Proof.
  intros H1 H2. unfold slice_range.
  rewrite !py_stop_of_nat by lia.
  rewrite length_firstn, length_skipn. lia.
Qed.

Lemma slice_range_nth {A} (a b j : nat) (l : list A) (d : A) :
  a <= b -> b <= length l -> j < b - a ->
  nth j (slice_range (Z.of_nat a) (Z.of_nat b) l) d = nth (a + j) l d.
Proof.
  intros H1 H2 H3. unfold slice_range.
  rewrite !py_stop_of_nat by lia.
  rewrite nth_firstn.
  destruct (Nat.ltb j (b - a)) eqn:E; [|apply Nat.ltb_ge in E; lia].
  apply nth_skipn.
Qed.

(** One block assignment of the loop, on arrays of the expected shapes. *)
Lemma assign_block (X out : matrix) (sn i : nat) :
  i < sn -> sn - 1 <= ncols X ->
  nrows out = nrows X * sn -> ncols out = ncols X - (sn - 1) ->
  exists out',
    assign_rows out (Z.of_nat i * Z.of_nat (nrows X))
      ((Z.of_nat i + 1) * Z.of_nat (nrows X))
      (columns_range X
         (Z.of_nat (ncols X) - Z.of_nat i - Z.of_nat (ncols X - (sn - 1)))
         (Z.of_nat (ncols X) - Z.of_nat i))
    = Return out' /\
    nrows out' = nrows out /\ ncols out' = ncols out /\
    forall p j, p < nrows out -> j < ncols out ->
      entry out' p j
      = if Nat.leb (i * nrows X) p && Nat.ltb p ((i + 1) * nrows X)
        then entry X (p - i * nrows X) (sn - 1 - i + j)
        else entry out p j.
Proof.
  intros Hi Hs Hr Hc.
  set (l := nrows X) in *. set (m := ncols X) in *.
  set (w := m - (sn - 1)) in *.
  replace (Z.of_nat i * Z.of_nat l)%Z with (Z.of_nat (i * l)) by lia.
  replace ((Z.of_nat i + 1) * Z.of_nat l)%Z with (Z.of_nat ((i + 1) * l)) by lia.
  replace (Z.of_nat m - Z.of_nat i - Z.of_nat w)%Z
    with (Z.of_nat (sn - 1 - i)) by lia.
  replace (Z.of_nat m - Z.of_nat i)%Z with (Z.of_nat (m - i)) by lia.
  assert (B1 : i * l <= nrows out) by nia.
  assert (B2 : (i + 1) * l <= nrows out) by nia.
  unfold assign_rows. rewrite !py_stop_of_nat by assumption.
  assert (Lc : ncols (columns_range X (Z.of_nat (sn - 1 - i)) (Z.of_nat (m - i))) = w).
  { unfold ncols, columns_range. simpl.
    rewrite slice_range_length; unfold m, ncols in *; lia. }
  assert (Lr : nrows (columns_range X (Z.of_nat (sn - 1 - i)) (Z.of_nat (m - i))) = l)
    by reflexivity.
  rewrite Lc, Lr.
  replace ((i + 1) * l - i * l) with l by nia.
  unfold broadcastable. rewrite Hc, !Nat.eqb_refl. simpl.
  eexists. split; [reflexivity|].
  split; [reflexivity|]. split; [apply ncols_build|].
  intros p j Hp Hj. rewrite entry_build by (try rewrite Hc; assumption).
  destruct (Nat.leb (i * l) p && Nat.ltb p ((i + 1) * l)) eqn:E; [|reflexivity].
  apply andb_true_iff in E. destruct E as [E1 E2].
  apply Nat.leb_le in E1. apply Nat.ltb_lt in E2.
  assert (Hb1 : bidx l (p - i * l) = p - i * l).
  { unfold bidx. destruct (Nat.eqb l 1) eqn:El; [|reflexivity].
    apply Nat.eqb_eq in El. lia. }
  assert (Hb2 : bidx w j = j).
  { unfold bidx. destruct (Nat.eqb w 1) eqn:Ew; [|reflexivity].
    apply Nat.eqb_eq in Ew. lia. }
  rewrite Hb1, Hb2.
  unfold entry, col, columns_range. simpl.
  rewrite slice_range_nth; unfold m, ncols in *; try lia.
  reflexivity.
Qed.

(** The loop over a list of block numbers: every row of a listed block
    holds the shifted window, every other row is as it was. *)
Lemma hankel_fill_blocks (X : matrix) (sn : nat) (blocks : list nat) :
  sn - 1 <= ncols X ->
  Forall (fun i => i < sn) blocks ->
  forall out,
    nrows out = nrows X * sn -> ncols out = ncols X - (sn - 1) ->
    exists out',
      hankel_fill X (Z.of_nat (nrows X)) (Z.of_nat (ncols X))
        (Z.of_nat (ncols X - (sn - 1))) (map Z.of_nat blocks) out
      = Return out' /\
      nrows out' = nrows out /\ ncols out' = ncols out /\
      forall p j, p < nrows out -> j < ncols out ->
        (exists i, In i blocks /\ i * nrows X <= p < (i + 1) * nrows X /\
                   entry out' p j = entry X (p - i * nrows X) (sn - 1 - i + j))
        \/
        ((forall i, In i blocks -> ~ (i * nrows X <= p < (i + 1) * nrows X)) /\
         entry out' p j = entry out p j).
Proof.
  intros Hs HF. induction HF as [|i rest Hi _ IH]; intros out Hr Hc.
  - exists out. simpl. do 3 (split; [reflexivity|]).
    intros p j _ _. right. split; [intros i []|reflexivity].
  - simpl.
    destruct (assign_block X out sn i Hi Hs Hr Hc) as [o1 [E1 [R1 [C1 V1]]]].
    rewrite E1. simpl.
    destruct (IH o1) as [o2 [E2 [R2 [C2 V2]]]]; [congruence|congruence|].
    exists o2. split; [exact E2|]. split; [congruence|]. split; [congruence|].
    intros p j Hp Hj.
    destruct (V2 p j) as [[i' [In' [B' Ev']]] | [No Ev]]; try congruence.
    + left. exists i'. simpl. auto.
    + rewrite Ev, (V1 p j Hp Hj).
      destruct (Nat.leb (i * nrows X) p && Nat.ltb p ((i + 1) * nrows X)) eqn:E.
      * apply andb_true_iff in E. destruct E as [Ea Eb].
        apply Nat.leb_le in Ea. apply Nat.ltb_lt in Eb.
        left. exists i. simpl. auto.
      * right. split; [|reflexivity].
        intros i' [<-|In'] B; [|apply (No i' In' B)].
        apply andb_false_iff in E. destruct E as [E|E].
        -- apply Nat.leb_gt in E. lia.
        -- apply Nat.ltb_ge in E. lia.
Qed.

(** X1.  For a stack size [s >= 1] and an [l x m] input with
    [m >= s - 1], [hankel_transform] returns an array of [l * s] rows and
    [m - s + 1] columns whose row block [i] holds the input shifted by
    [s - 1 - i] columns: block 0 is the latest window. *)
Theorem hankel_transform_blocks (X : matrix) (s : Z) :
  (1 <= s)%Z -> (s - 1 <= Z.of_nat (ncols X))%Z ->
  exists out,
    hankel_transform (Mat X) s = Return out /\
    nrows out = nrows X * Z.to_nat s /\
    ncols out = ncols X - (Z.to_nat s - 1) /\
    forall i r j, i < Z.to_nat s -> r < nrows X -> j < ncols out ->
      entry out (i * nrows X + r) j = entry X r (Z.to_nat s - 1 - i + j).
Proof.
  intros H1 H2. unfold hankel_transform.
  destruct (s =? 1)%Z eqn:E.
  - apply Z.eqb_eq in E. subst s. exists X.
    split; [reflexivity|]. simpl Z.to_nat.
    split; [lia|]. split; [lia|].
    intros i r j Hi Hr Hj. replace i with 0 by lia. reflexivity.
  - apply Z.eqb_neq in E.
    set (sn := Z.to_nat s).
    assert (Es : s = Z.of_nat sn) by (unfold sn; lia).
    unfold zeros_Z.
    destruct ((Z.of_nat (nrows X) * s <? 0)
              || (Z.of_nat (ncols X) - (s - 1) <? 0))%Z eqn:N.
    { apply orb_true_iff in N. destruct N as [N|N]; apply Z.ltb_lt in N; nia. }
    simpl.
    replace (Z.of_nat (ncols X) - (s - 1))%Z
      with (Z.of_nat (ncols X - (sn - 1))) by lia.
    replace (Z.to_nat (Z.of_nat (nrows X) * s)) with (nrows X * sn) by nia.
    rewrite Nat2Z.id.
    unfold py_range. fold sn.
    destruct (hankel_fill_blocks X sn (seq 0 sn)) with
      (out := zeros (nrows X * sn) (ncols X - (sn - 1)))
      as [out [Eo [Ro [Co V]]]].
    + lia.
    + apply Forall_forall. intros i Hi. apply in_seq in Hi. lia.
    + reflexivity.
    + apply ncols_build.
    + exists out. split; [exact Eo|].
      unfold zeros in Ro, Co. rewrite ncols_build in Co. simpl in Ro.
      split; [exact Ro|]. split; [exact Co|].
      intros i r j Hi Hr Hj.
      destruct (V (i * nrows X + r) j) as [[i' [_ [B Ev]]] | [No _]].
      * unfold zeros. simpl. nia.
      * unfold zeros. rewrite ncols_build. lia.
      * assert (i' = i) by nia. subst i'.
        rewrite Ev. f_equal. lia.
      * exfalso. apply (No i); [apply in_seq; lia|]. nia.
Qed.

(** X2.  With a stack size other than 1 and fewer than [s - 1] columns
    the output width [m - (s - 1)] is negative and [np.zeros] raises
    [ValueError].  As long as the requested extents and byte count fit
    the index type, its message is that negative dimensions are not
    allowed. *)
Theorem hankel_transform_short_input (X : matrix) (s : Z) :
  s <> 1%Z -> (Z.of_nat (ncols X) < s - 1)%Z ->
  (exists msg, hankel_transform (Mat X) s = Raise (ValueError msg)) /\
  ((8 * (Z.of_nat (nrows X) * s) <= intp_max)%Z ->
   (- intp_max - 1 <= Z.of_nat (ncols X) - (s - 1))%Z ->
   hankel_transform (Mat X) s
   = Raise (ValueError "negative dimensions are not allowed")).
Proof.
  intros H1 H2. unfold hankel_transform.
  destruct (s =? 1)%Z eqn:E; [apply Z.eqb_eq in E; contradiction|].
  unfold zeros_Z.
  assert (N : (Z.of_nat (ncols X) - (s - 1) <? 0)%Z = true) by (apply Z.ltb_lt; lia).
  rewrite N, orb_true_r. unfold obind.
  split; [eexists; reflexivity|].
  intros B1 B2. unfold zeros_refusal, fits_intp.
  assert (P : (0 <= Z.of_nat (nrows X) * s)%Z) by nia.
  assert (M : (0 < intp_max)%Z) by (unfold intp_max; lia).
  replace (- intp_max - 1 <=? Z.of_nat (nrows X) * s)%Z with true
    by (symmetry; apply Z.leb_le; lia).
  replace (Z.of_nat (nrows X) * s <=? intp_max)%Z with true
    by (symmetry; apply Z.leb_le; lia).
  replace (- intp_max - 1 <=? Z.of_nat (ncols X) - (s - 1))%Z with true
    by (symmetry; apply Z.leb_le; lia).
  replace (Z.of_nat (ncols X) - (s - 1) <=? intp_max)%Z with true
    by (symmetry; apply Z.leb_le; lia).
  replace (Z.of_nat (nrows X) * s <? 0)%Z with false
    by (symmetry; apply Z.ltb_ge; lia).
  replace (intp_max <? 8 * (Z.of_nat (nrows X) * s))%Z with false
    by (symmetry; apply Z.ltb_ge; lia).
  reflexivity.
Qed.

End HankelFacts.

(** ** More on [sDMD_base] *)

Section BaseMore.
Context {SC : Scalar} {LA : LinAlg} {SO : Sorting}.

Ltac run_base :=
  unfold set_Ux, set_Uy, set_Q, set_Pinvx, set_Pinvy;
  unfold bind, get, lift, modify, ret, raise; simpl.

Ltac split_outcomes :=
  repeat match goal with
         | |- context [match ?m with Return _ => _ | Raise _ => _ end] =>
             let E := fresh "E" in destruct m eqn:E; simpl
         | |- context [let (_, _) := ?p in _] => destruct p; simpl
         | |- context [if ?b then _ else _] => destruct b; simpl
         end.

Ltac read_shapes :=
  repeat match goal with
         | H : hstack _ _ = Return _ |- _ => apply hstack_Return in H
         | H : vstack _ _ = Return _ |- _ => apply vstack_Return in H
         | H : matmul _ _ = Return _ |- _ => apply matmul_Return in H
         end.

(** X3.  [update] does not validate its inputs: a sample whose length
    is not the row count of its basis fails in the first projection,
    with a [ValueError] from the matrix product, before anything is
    assigned. *)
Theorem update_rejects_wrong_length (o : sDMD_base) (x y : ndarray) :
  length (flatten x) <> nrows (Ux o) \/ length (flatten y) <> nrows (Uy o) ->
  exists msg, update x y o = (Raise (ValueError msg), o).
Proof.
  intros H. unfold update, expansion, projection_errors, bind, get, lift. simpl.
  unfold matmul at 1. rewrite ncols_transpose. simpl nrows.
  destruct (Nat.eqb (nrows (Ux o)) (length (flatten x))) eqn:Ex.
  - apply Nat.eqb_eq in Ex. destruct H as [H|H]; [congruence|].
    unfold matmul at 1. rewrite ncols_transpose. simpl nrows.
    destruct (Nat.eqb (nrows (Uy o)) (length (flatten y))) eqn:Ey.
    + apply Nat.eqb_eq in Ey. congruence.
    + eexists. reflexivity.
  - eexists. reflexivity.
Qed.

Lemma augment_x_frame o0 ex n st : keeps (same_frame o0) (augment_x ex n st).
Proof.
  intros o J. unfold augment_x. run_base. split_outcomes; read_shapes;
    unfold same_frame, same_config in *; simpl; intuition congruence.
Qed.

Lemma augment_y_frame o0 ey n st : keeps (same_frame o0) (augment_y ey n st).
Proof.
  intros o J. unfold augment_y. run_base. split_outcomes; read_shapes;
    unfold same_frame, same_config in *; simpl; intuition congruence.
Qed.

Lemma compress_x_frame o0 st : keeps (same_frame o0) (compress_x st).
Proof.
  intros o J. unfold compress_x. run_base. split_outcomes; read_shapes;
    unfold same_frame, same_config in *; simpl; intuition congruence.
Qed.

Lemma compress_y_frame o0 st : keeps (same_frame o0) (compress_y st).
Proof.
  intros o J. unfold compress_y. run_base. split_outcomes; read_shapes;
    unfold same_frame, same_config in *; simpl; intuition congruence.
Qed.

Lemma regression_update_frame o0 x y :
  keeps (same_frame o0) (regression_update x y).
Proof.
  intros o J. unfold regression_update. run_base. split_outcomes;
    unfold same_frame, same_config in *; simpl; intuition congruence.
Qed.

Lemma update_frame o0 x y : keeps (same_frame o0) (update x y).
Proof.
  unfold update, expansion, compression.
  apply keeps_bind.
  - apply keeps_bind; [apply projection_errors_keeps|]. intros [ex ey].
    apply keeps_bind; [apply augment_x_frame|]. intros sx.
    apply keeps_bind; [apply augment_y_frame|]. intros sy. apply keeps_ret.
  - intros st1. apply keeps_bind.
    + apply keeps_bind; [apply compress_x_frame|]. intros sx.
      apply keeps_bind; [apply compress_y_frame|]. intros sy. apply keeps_ret.
    + intros st2. apply keeps_bind; [apply regression_update_frame|].
      intros _. apply keeps_ret.
Qed.

(** X4.  Whether it completes or raises, [update] leaves [rmin],
    [rmax], [thres], [rho] and [halflife] as they were and never changes
    the row count of [Ux] or of [Uy]: expansion and reduction act on
    columns only. *)
Theorem update_keeps_configuration_and_rows (o : sDMD_base) (x y : ndarray) :
  rmin (snd (update x y o)) = rmin o /\
  rmax (snd (update x y o)) = rmax o /\
  thres (snd (update x y o)) = thres o /\
  rho (snd (update x y o)) = rho o /\
  halflife (snd (update x y o)) = halflife o /\
  nrows (Ux (snd (update x y o))) = nrows (Ux o) /\
  nrows (Uy (snd (update x y o))) = nrows (Uy o).
Proof.
  assert (J : same_frame o o).
  { split; [apply same_config_refl|]. auto. }
  apply (update_frame o x y o) in J.
  unfold same_frame, same_config in J. tauto.
Qed.

Lemma length_concat_rows {A} (ls : list (list A)) (k : nat) :
  Forall (fun r => length r = k) ls -> length (concat ls) = length ls * k.
Proof.
  induction 1 as [|r rest Hr _ IH]; simpl; [reflexivity|].
  rewrite length_app, IH, Hr. reflexivity.
Qed.

Lemma length_flatten_Mat (m : matrix) :
  length (flatten (Mat m)) = nrows m * ncols m.
Proof.
  simpl. rewrite (length_concat_rows _ (ncols m)).
  - rewrite length_map, length_seq. reflexivity.
  - apply Forall_forall. intros r Hr. apply in_map_iff in Hr.
    destruct Hr as [i [<- _]]. unfold row. rewrite length_map, length_seq.
    reflexivity.
Qed.

Lemma projection_errors_ok (x y : matrix) (o : sDMD_base) :
  nrows x = nrows (Ux o) -> nrows y = nrows (Uy o) ->
  exists ex ey,
    projection_errors x y o = (Return (ex, ey), o) /\
    nrows ex = nrows x /\ ncols ex = ncols x /\
    nrows ey = nrows y /\ ncols ey = ncols y.
Proof.
  intros Hx Hy. unfold projection_errors, bind, get, lift. simpl.
  destruct (matmul_ok (transpose (Ux o)) x) as [xt E1];
    [rewrite ncols_transpose; congruence|].
  rewrite E1. simpl.
  destruct (matmul_ok (transpose (Uy o)) y) as [yt E2];
    [rewrite ncols_transpose; congruence|].
  rewrite E2. simpl.
  apply matmul_Return in E1, E2. rewrite nrows_transpose in E1, E2.
  destruct (matmul_ok (Ux o) xt) as [px E3]; [intuition congruence|].
  rewrite E3. simpl. apply matmul_Return in E3.
  destruct (elementwise_same fsub x px) as [ex [E4 [R4 C4]]];
    [intuition congruence|intuition congruence|].
  unfold msub. rewrite E4. simpl.
  destruct (matmul_ok (Uy o) yt) as [py E5]; [intuition congruence|].
  rewrite E5. simpl. apply matmul_Return in E5.
  destruct (elementwise_same fsub y py) as [ey [E6 [R6 C6]]];
    [intuition congruence|intuition congruence|].
  rewrite E6. simpl.
  exists ex, ey. auto.
Qed.

Lemma augment_x_ok (ex : matrix) (n : F) (st : Status) (o : sDMD_base) :
  nrows ex = nrows (Ux o) -> ncols ex = 1 ->
  exists st' o', augment_x ex n st o = (Return st', o').
Proof.
  intros Hr Hc. unfold augment_x. run_base.
  destruct (fgt (residual ex n) (thres o)); [|eauto].
  unfold hstack at 1.
  assert (E : nrows (reshape_col (Mat (div_scalar ex (norm2 ex)))) = nrows (Ux o)).
  { change (length (flatten (Mat (div_scalar ex (norm2 ex)))) = nrows (Ux o)).
    rewrite length_flatten_Mat. unfold div_scalar.
    rewrite ncols_build, nrows_build. lia. }
  rewrite E, Nat.eqb_refl. simpl.
  destruct (hstack_zeros_ok (Pinvx o)) as [P1 HP1]. rewrite HP1. simpl.
  destruct (vstack_zeros_ok P1) as [P2 HP2]. rewrite HP2. simpl.
  destruct (hstack_zeros_ok (Q o)) as [Q1 HQ]. rewrite HQ. simpl.
  eauto.
Qed.

Lemma augment_y_ok (ey : matrix) (n : F) (st : Status) (o : sDMD_base) :
  nrows ey = nrows (Uy o) -> ncols ey = 1 ->
  exists st' o', augment_y ey n st o = (Return st', o').
Proof.
  intros Hr Hc. unfold augment_y. run_base.
  destruct (fgt (residual ey n) (thres o)); [|eauto].
  unfold hstack at 1.
  assert (E : nrows (reshape_col (Mat (div_scalar ey (norm2 ey)))) = nrows (Uy o)).
  { change (length (flatten (Mat (div_scalar ey (norm2 ey)))) = nrows (Uy o)).
    rewrite length_flatten_Mat. unfold div_scalar.
    rewrite ncols_build, nrows_build. lia. }
  rewrite E, Nat.eqb_refl. simpl.
  destruct (hstack_zeros_ok (Pinvy o)) as [P1 HP1]. rewrite HP1. simpl.
  destruct (vstack_zeros_ok P1) as [P2 HP2]. rewrite HP2. simpl.
  destruct (vstack_zeros_ok (Q o)) as [Q1 HQ]. rewrite HQ. simpl.
  eauto.
Qed.

Lemma regression_update_ok (x y : matrix) (o : sDMD_base) :
  shape_inv o ->
  nrows x = nrows (Ux o) -> nrows y = nrows (Uy o) ->
  ncols x = 1 -> ncols y = 1 ->
  exists o', regression_update x y o = (Return tt, o').
Proof.
  intros I Hx Hy Cx Cy. unfold shape_inv in I.
  unfold regression_update. run_base.
  destruct (matmul_ok (transpose (Ux o)) x) as [xt E1];
    [rewrite ncols_transpose; congruence|].
  rewrite E1. simpl.
  destruct (matmul_ok (transpose (Uy o)) y) as [yt E2];
    [rewrite ncols_transpose; congruence|].
  rewrite E2. simpl.
  apply matmul_Return in E1, E2. rewrite nrows_transpose in E1, E2.
  destruct (matmul_ok yt (transpose xt)) as [yx E3];
    [rewrite nrows_transpose; intuition congruence|].
  rewrite E3. simpl. apply matmul_Return in E3. rewrite ncols_transpose in E3.
  destruct (elementwise_same fadd (scale (rho o) (Q o)) yx) as [Q1 [E4 _]];
    [rewrite nrows_scale; intuition congruence
    |rewrite ncols_scale; intuition congruence|].
  unfold madd. rewrite E4. simpl.
  destruct (matmul_ok xt (transpose xt)) as [xx E5];
    [rewrite nrows_transpose; reflexivity|].
  rewrite E5. simpl. apply matmul_Return in E5. rewrite ncols_transpose in E5.
  destruct (elementwise_same fadd (scale (rho o) (Pinvx o)) xx) as [P1 [E6 _]];
    [rewrite nrows_scale; intuition congruence
    |rewrite ncols_scale; intuition congruence|].
  rewrite E6. simpl.
  destruct (matmul_ok yt (transpose yt)) as [yy E7];
    [rewrite nrows_transpose; reflexivity|].
  rewrite E7. simpl. apply matmul_Return in E7. rewrite ncols_transpose in E7.
  destruct (elementwise_same fadd (scale (rho o) (Pinvy o)) yy) as [P2 [E8 _]];
    [rewrite nrows_scale; intuition congruence
    |rewrite ncols_scale; intuition congruence|].
  rewrite E8. simpl. eauto.
Qed.

(** X5.  From a state with consistent shapes in which both bases are
    narrower than [rmax], an [update] with samples of the right lengths
    always completes: no product or stacking can fail, no
    eigen-decomposition is attempted, and neither status is
    [REDUCTION]. *)
Theorem update_completes_with_room (o : sDMD_base) (x y : ndarray) :
  shape_inv o ->
  length (flatten x) = nrows (Ux o) -> length (flatten y) = nrows (Uy o) ->
  (Z.of_nat (ncols (Ux o)) < rmax o)%Z ->
  (Z.of_nat (ncols (Uy o)) < rmax o)%Z ->
  exists st o',
    update x y o = (Return st, o') /\
    fst st <> REDUCTION /\ snd st <> REDUCTION.
Proof.
  intros I Lx Ly Rx Ry.
  set (x' := reshape_col x). set (y' := reshape_col y).
  assert (Hx : nrows x' = nrows (Ux o)) by exact Lx.
  assert (Hy : nrows y' = nrows (Uy o)) by exact Ly.
  destruct (projection_errors_ok x' y' o Hx Hy)
    as [ex [ey [Ep [Rex [Cex [Rey Cey]]]]]].
  destruct (augment_x_ok ex (norm2 x') NONE o) as [sx [oa Ea]];
    [congruence|rewrite Cex; reflexivity|].
  pose proof (augment_x_Return _ _ _ _ _ _ Ea) as Fa.
  assert (Ua : nrows (Uy oa) = nrows (Uy o)).
  { destruct Fa as [[_ [_ ->]] | [_ [_ [_ [-> _]]]]]; reflexivity. }
  destruct (augment_y_ok ey (norm2 y') NONE oa) as [sy [o1 Eb]];
    [congruence|rewrite Cey; reflexivity|].
  assert (E1 : expansion x' y' o = (Return (sx, sy), o1)).
  { unfold expansion. rewrite (bind_eq _ _ _ _ _ Ep).
    rewrite (bind_eq _ _ _ _ _ Ea). rewrite (bind_eq _ _ _ _ _ Eb).
    reflexivity. }
  assert (I1 : shape_inv o1).
  { assert (K := expansion_keeps x' y' o I). rewrite E1 in K. exact K. }
  pose proof (expansion_Return _ _ _ _ _ _ E1)
    as [C1 [N1 [N2 [rx [ry [_ [_ [Sx Sy]]]]]]]].
  destruct C1 as [_ [Cm _]].
  assert (Tx : (rmax o1 <? Z.of_nat (ncols (Ux o1)))%Z = false).
  { apply Z.ltb_ge. rewrite Cm.
    destruct Sx as [[_ [_ ->]] | [_ [_ ->]]]; lia. }
  assert (Ty : (rmax o1 <? Z.of_nat (ncols (Uy o1)))%Z = false).
  { apply Z.ltb_ge. rewrite Cm.
    destruct Sy as [[_ [_ ->]] | [_ [_ ->]]]; lia. }
  assert (E2 : compression (sx, sy) o1 = (Return (sx, sy), o1)).
  { unfold compression, compress_x, compress_y, bind, get, ret. simpl.
    rewrite Tx. simpl. rewrite Ty. reflexivity. }
  destruct (regression_update_ok x' y' o1 I1) as [o' E3];
    try congruence; try reflexivity.
  exists (sx, sy), o'. split.
  - unfold update. fold x' y'. rewrite (bind_eq _ _ _ _ _ E1).
    rewrite (bind_eq _ _ _ _ _ E2). rewrite (bind_eq _ _ _ _ _ E3).
    reflexivity.
  - simpl. split.
    + destruct Sx as [[_ [-> _]] | [_ [-> _]]]; discriminate.
    + destruct Sy as [[_ [-> _]] | [_ [-> _]]]; discriminate.
Qed.

(** With an integer [rmin], [sDMD_base.__init__] is line 97 followed by
    the construction of the statistics. *)
Lemma sDMD_base_init_statistics (X Y : matrix) (rmin0 rmax0 : Z)
    (thres0 : F) (hl : option F) :
  sDMD_base_init X Y rmin0 rmax0 thres0 hl
  = obind (forgetting_factor hl) (fun rho0 =>
    obind (init_statistics X Y (PyInt rmin0)) (fun r =>
    let '(U1, U2, Q0, P1, P2) := r in
    Return (mk_sDMD_base rmin0 rmax0 thres0 hl rho0 U1 U2 Q0 P1 P2))).
Proof.
  unfold sDMD_base_init, init_statistics.
  destruct (forgetting_factor hl) as [rho0|e]; simpl; [|reflexivity].
  destruct (truncatedSVD X (PyInt rmin0)) as [[[U1 S1] V1]|e]; simpl; [|reflexivity].
  destruct (truncatedSVD Y (PyInt rmin0)) as [[[U2 S2] V2]|e]; simpl; [|reflexivity].
  destruct (matmul (transpose U1) X) as [Xt|e]; simpl; [|reflexivity].
  destruct (matmul (transpose U2) Y) as [Yt|e]; simpl; [|reflexivity].
  destruct (matmul Yt (transpose Xt)) as [Q0|e]; simpl; [|reflexivity].
  destruct (matmul Xt (transpose Xt)) as [P1|e]; simpl; [|reflexivity].
  destruct (matmul Yt (transpose Yt)) as [P2|e]; reflexivity.
Qed.

(** X6.  Lines 100-111 of [__init__], with [rmin] an integer or a float
    as the caller passes it, complete only if the two batches have the
    same number of snapshots; the bases then have the row counts of
    their batches, and [Q], [Pinvx] and [Pinvy] the shapes the bases
    prescribe.  An integer [rmin] must be at least 1 and bounds the
    width of both bases; a float [rmin] need not be (the energy mode of
    [truncatedSVD] accepts [0 < rmin < 1]). *)
Theorem construction_requirements (X Y : matrix) (r : pynum F)
    (U1 U2 Q0 P1 P2 : matrix) :
  init_statistics X Y r = Return (U1, U2, Q0, P1, P2) ->
  ncols X = ncols Y /\
  nrows U1 = nrows X /\ nrows U2 = nrows Y /\
  nrows Q0 = ncols U2 /\ ncols Q0 = ncols U1 /\
  nrows P1 = ncols U1 /\ ncols P1 = ncols U1 /\
  nrows P2 = ncols U2 /\ ncols P2 = ncols U2 /\
  (forall z, r = PyInt z ->
     (1 <= z)%Z /\ (Z.of_nat (ncols U1) <= z)%Z /\ (Z.of_nat (ncols U2) <= z)%Z).
Proof.
  unfold init_statistics.
  destruct (truncatedSVD X r) as [[[U1' S1] V1]|e] eqn:TX; simpl; [|discriminate].
  destruct (truncatedSVD Y r) as [[[U2' S2] V2]|e] eqn:TY; simpl; [|discriminate].
  destruct (matmul (transpose U1') X) as [Xt|e] eqn:H1; simpl; [|discriminate].
  destruct (matmul (transpose U2') Y) as [Yt|e] eqn:H2; simpl; [|discriminate].
  destruct (matmul Yt (transpose Xt)) as [Q'|e] eqn:H3; simpl; [|discriminate].
  destruct (matmul Xt (transpose Xt)) as [P1'|e] eqn:H4; simpl; [|discriminate].
  destruct (matmul Yt (transpose Yt)) as [P2'|e] eqn:H5; simpl; [|discriminate].
  intros H. inversion H; subst.
  pose proof (matmul_Return _ _ _ H1) as K1.
  pose proof (matmul_Return _ _ _ H2) as K2.
  pose proof (matmul_Return _ _ _ H3) as K3.
  pose proof (matmul_Return _ _ _ H4) as K4.
  pose proof (matmul_Return _ _ _ H5) as K5.
  rewrite ?nrows_transpose, ?ncols_transpose in *.
  split; [intuition congruence|].
  split; [intuition congruence|]. split; [intuition congruence|].
  split; [intuition congruence|]. split; [intuition congruence|].
  split; [intuition congruence|]. split; [intuition congruence|].
  split; [intuition congruence|]. split; [intuition congruence|].
  intros z ->.
  apply truncatedSVD_int_Return in TX, TY.
  destruct TX as [R1 [UX [SX [VX [_ [CX _]]]]]].
  destruct TY as [_ [UY [SY [VY [_ [CY _]]]]]].
  lia.
Qed.

End BaseMore.

(** ** The derived views and the predictors *)

Section ViewFacts.
Context {SC : Scalar} {LA : LinAlg} {SO : Sorting} {BF : Buffers}.

Lemma prop_A_operator (w : world) :
  prop_A w = (operator_A (base (self w)), w).
Proof.
  unfold prop_A, operator_A, bind, get, lift. simpl.
  destruct (np_pinv (Pinvx (base (self w)))); reflexivity.
Qed.

(** X7.  On a state with consistent shapes the operator [A] has one row
    per column of [Uy] and one column per column of [Ux]; computing it
    fails exactly when [pinv] does, with [LinAlgError]. *)
Theorem operator_A_shape (o : sDMD_base) :
  shape_inv o -> pinv_shape_law ->
  (forall A, operator_A o = Return A ->
     nrows A = ncols (Uy o) /\ ncols A = ncols (Ux o)) /\
  (forall P, np_pinv (Pinvx o) = Some P -> exists A, operator_A o = Return A) /\
  (np_pinv (Pinvx o) = None -> operator_A o = Raise LinAlgError).
Proof.
  intros I Lp. unfold shape_inv in I. unfold operator_A.
  split; [|split].
  - intros A H. destruct (np_pinv (Pinvx o)) as [P|] eqn:E; simpl in H; [|discriminate].
    apply Lp in E. apply matmul_Return in H. intuition congruence.
  - intros P E. rewrite E. simpl. apply matmul_ok.
    apply Lp in E. intuition congruence.
  - intros E. rewrite E. reflexivity.
Qed.

(** X8.  [modes] needs the two bases to live in the same space: with
    different row counts it raises the [ValueError] of the first
    product; when it returns, the lifted eigenvectors have the row count
    of [Ux] and there is one mode and one eigenvalue per column of [Ux]. *)
Theorem base_modes_shape (o : sDMD_base) :
  shape_inv o -> pinv_shape_law -> eig_shape_law ->
  (nrows (Ux o) <> nrows (Uy o) ->
     exists msg, base_modes o = Raise (ValueError msg)) /\
  (forall modes eigvals, base_modes o = Return (modes, eigvals) ->
     nrows (Ux o) = nrows (Uy o) /\
     nrows modes = nrows (Ux o) /\ ncols modes = ncols (Ux o) /\
     length eigvals = ncols (Ux o)).
Proof.
  intros I Lp Le. split.
  - intros N. unfold base_modes. unfold matmul at 1.
    rewrite ncols_transpose.
    destruct (Nat.eqb (nrows (Ux o)) (nrows (Uy o))) eqn:E.
    + apply Nat.eqb_eq in E. contradiction.
    + eexists. reflexivity.
  - intros modes eigvals. unfold base_modes.
    destruct (matmul (transpose (Ux o)) (Uy o)) as [t|e] eqn:E1; simpl; [|discriminate].
    destruct (operator_A o) as [A|e] eqn:E2; simpl; [|discriminate].
    destruct (matmul t A) as [K|e] eqn:E3; simpl; [|discriminate].
    destruct (np_eig K) as [[w V]|] eqn:E4; simpl; [|discriminate].
    destruct (matmul (Ux o) V) as [md|e] eqn:E5; simpl; [|discriminate].
    intros H. inversion H; subst.
    apply matmul_Return in E1, E3, E5. apply Le in E4.
    rewrite nrows_transpose, ncols_transpose in E1.
    intuition congruence.
Qed.

Lemma nrows_rows_from m a : nrows (rows_from m a) = nrows m - py_stop a (nrows m).
Proof. reflexivity. Qed.
Lemma ncols_rows_from m a : ncols (rows_from m a) = ncols m.
Proof. unfold ncols, rows_from. simpl. apply length_map. Qed.
Lemma nrows_rows_to m a : nrows (rows_to m a) = py_stop a (nrows m).
Proof. reflexivity. Qed.
Lemma ncols_rows_to m a : ncols (rows_to m a) = ncols m.
Proof. unfold ncols, rows_to. simpl. apply length_map. Qed.

(** X9.  On a trained model with consistent shapes, [B] has the row
    count of [Uy] and one column per control row taken from the end of
    [Ux], at most as many as [Ux] has rows; with [nu = 0] the slice
    [Ux[-0:, :]] is the whole of [Ux] and [B] has one column per row of
    [Ux].  [CB] of [sDMDc] keeps the first [nx] rows of [B]. *)
Theorem control_matrix_shape (w : world) (A : matrix) :
  shape_inv (base (self w)) -> pinv_shape_law ->
  prop_A w = (Return A, w) ->
  exists B CB,
    prop_B w = (Return B, w) /\
    nrows B = nrows (Uy (base (self w))) /\
    ncols B = (if Nat.eqb (nu (self w)) 0
               then nrows (Ux (base (self w)))
               else Nat.min (nu (self w)) (nrows (Ux (base (self w))))) /\
    sDMDc_CB w = (Return CB, w) /\
    nrows CB = Nat.min (nx (self w)) (nrows (Uy (base (self w)))) /\
    ncols CB = ncols B.
Proof.
  intros I Lp HA.
  assert (SA : nrows A = ncols (Uy (base (self w))) /\
               ncols A = ncols (Ux (base (self w)))).
  { rewrite prop_A_operator in HA. inversion HA as [HA'].
    apply (operator_A_shape _ I Lp). exact HA'. }
  destruct SA as [RA CA].
  destruct (matmul_ok (Uy (base (self w))) A) as [UA E1]; [congruence|].
  pose proof (matmul_Return _ _ _ E1) as [_ [R1 C1]].
  destruct (matmul_ok UA
              (transpose (rows_from (Ux (base (self w))) (- Z.of_nat (nu (self w))))))
    as [B E2].
  { rewrite nrows_transpose, ncols_rows_from. congruence. }
  pose proof (matmul_Return _ _ _ E2) as [_ [R2 C2]].
  rewrite ncols_transpose, nrows_rows_from in C2.
  assert (EB : prop_B w = (Return B, w)).
  { unfold prop_B. unfold bind at 1. unfold get.
    rewrite (bind_eq _ _ _ _ _ HA). unfold bind, lift.
    rewrite E1, E2. reflexivity. }
  exists B, (rows_to B (Z.of_nat (nx (self w)))).
  split; [exact EB|]. split; [congruence|]. split.
  - rewrite C2. unfold py_stop.
    destruct (Nat.eqb (nu (self w)) 0) eqn:N.
    + apply Nat.eqb_eq in N. rewrite N. simpl. lia.
    + apply Nat.eqb_neq in N.
      destruct (- Z.of_nat (nu (self w)) <? 0)%Z eqn:Z0;
        [|apply Z.ltb_ge in Z0; lia].
      lia.
  - split.
    + unfold sDMDc_CB. unfold bind at 1. unfold get.
      rewrite (bind_eq _ _ _ _ _ EB). reflexivity.
    + rewrite nrows_rows_to, ncols_rows_to. split; [|reflexivity].
      rewrite py_stop_of_nat_min, R2, R1. reflexivity.
Qed.

Ltac split_world_outcomes :=
  repeat match goal with
         | |- context [if ?b then _ else _] => destruct b; simpl
         | |- context [match ?o with Some _ => _ | None => _ end] =>
             destruct o; simpl
         | |- context [match ?m with Return _ => _ | Raise _ => _ end] =>
             destruct m; simpl
         | |- context [let (_, _) := ?p in _] => destruct p; simpl
         end.

Lemma prop_B_state (w : world) : snd (prop_B w) = w.
Proof.
  unfold prop_B. unfold bind at 1. unfold get.
  unfold bind at 1. rewrite prop_A_operator.
  destruct (operator_A (base (self w))) as [A|e]; [|reflexivity].
  unfold bind, lift. split_world_outcomes; reflexivity.
Qed.

Lemma get_effective_AB_state (w : world) : snd (get_effective_AB w) = w.
Proof.
  unfold get_effective_AB. unfold bind at 1.
  rewrite prop_A_operator.
  destruct (operator_A (base (self w))) as [A|e]; [|reflexivity].
  unfold bind at 1. unfold get. unfold try_except.
  unfold bind at 1. rewrite prop_A_operator.
  destruct (operator_A (base (self w))) as [A'|e']; [|reflexivity].
  unfold bind, lift, ret.
  split_world_outcomes; reflexivity.
Qed.

(** X10.  The read accessors leave the model and every buffer as they
    were, whatever they return or raise: [A], [B], [CB], [modes],
    [get_current_augmented_input_for_prediction], [get_effective_AB]
    and the single-step predictor. *)
Theorem accessors_leave_the_world (w : world) (aug : ndarray) :
  snd (prop_A w) = w /\
  snd (prop_B w) = w /\
  snd (sDMDc_CB w) = w /\
  snd (control_modes w) = w /\
  snd (get_current_augmented_input_for_prediction w) = w /\
  snd (get_effective_AB w) = w /\
  snd (predict_next_raw_state_from_augmented aug w) = w.
Proof.
  split; [apply prop_A_state|]. split; [apply prop_B_state|].
  split.
  { unfold sDMDc_CB. unfold bind at 1. unfold get. unfold bind.
    pose proof (prop_B_state w) as E.
    destruct (prop_B w) as [[B|e] w1]; simpl in *; subst; reflexivity. }
  split.
  { unfold control_modes. unfold bind at 1. unfold get.
    unfold bind at 1. unfold lift at 1.
    destruct (matmul _ _) as [t|e]; [|reflexivity].
    unfold bind at 1. rewrite prop_A_operator.
    destruct (operator_A (base (self w))) as [A|e]; [|reflexivity].
    unfold bind, lift, ret. split_world_outcomes; reflexivity. }
  split.
  { unfold get_current_augmented_input_for_prediction.
    unfold bind at 1. unfold get at 1. unfold bind at 1.
    pose proof (call_peek_state (Xstack1 (self w)) w) as E1.
    destruct (call_peek (Xstack1 (self w)) w) as [[a|e] w1]; simpl in *; subst;
      [|reflexivity].
    unfold bind at 1. unfold get. unfold bind.
    pose proof (call_peek_state (Ustack (self w)) w) as E2.
    destruct (call_peek (Ustack (self w)) w) as [[b|e] w1]; simpl in *; subst;
      [|reflexivity].
    unfold lift. reflexivity. }
  split; [apply get_effective_AB_state|apply predict_next_state].
Qed.

Lemma firstn_skipn_slices {A} (l : list A) (k : nat) :
  slice_to (Z.of_nat k) l ++ slice_from (Z.of_nat k) l = l.
Proof.
  unfold slice_to, slice_from. apply firstn_skipn.
Qed.

(** X11.  When [get_effective_AB] returns a pair, the model has
    [s = 1] and [f = 1], [A_eff] is [nx x nx], [B_eff] is [nx x nu],
    and side by side they are the first [nx] rows of
    [Uy @ A @ Ux.T]. *)
Theorem effective_AB_split (w w' : world) (A_eff B_eff : matrix) :
  get_effective_AB w = (Return (Matrices A_eff B_eff), w') ->
  s (self w) = 1%Z /\ f (self w) = 1%Z /\
  nrows A_eff = nx (self w) /\ ncols A_eff = nx (self w) /\
  nrows B_eff = nx (self w) /\ ncols B_eff = nu (self w) /\
  exists A UA Operator_learned_full,
    operator_A (base (self w)) = Return A /\
    matmul (Uy (base (self w))) A = Return UA /\
    matmul UA (transpose (Ux (base (self w)))) = Return Operator_learned_full /\
    columns A_eff ++ columns B_eff
    = columns (rows_to Operator_learned_full (Z.of_nat (nx (self w)))).
Proof.
  unfold get_effective_AB. unfold bind at 1. rewrite prop_A_operator.
  destruct (operator_A (base (self w))) as [A|e] eqn:EA; [|discriminate].
  unfold bind at 1. unfold get. unfold try_except.
  unfold bind at 1. rewrite prop_A_operator, EA.
  unfold bind, lift, ret.
  destruct (matmul (Uy (base (self w))) A) as [UA|e] eqn:E1; [|discriminate].
  destruct (matmul UA (transpose (Ux (base (self w))))) as [Op|e] eqn:E2;
    [|discriminate].
  destruct ((s (self w) =? 1)%Z && (f (self w) =? 1)%Z) eqn:Esf; cbn [andb];
    [|discriminate].
  destruct (Nat.eqb (nrows (rows_to Op (Z.of_nat (nx (self w))))) (nx (self w)))
    eqn:Er; cbn [andb]; [|discriminate].
  destruct (Nat.eqb (ncols (rows_to Op (Z.of_nat (nx (self w)))))
              (nx (self w) + nu (self w))) eqn:Ec; [|discriminate].
  intros H. injection H as H1 H2 _. subst A_eff B_eff.
  apply andb_true_iff in Esf. destruct Esf as [Es Ef].
  apply Z.eqb_eq in Es, Ef. apply Nat.eqb_eq in Er, Ec.
  split; [exact Es|]. split; [exact Ef|].
  assert (Split : columns (columns_to (rows_to Op (Z.of_nat (nx (self w))))
                             (Z.of_nat (nx (self w))))
                  ++ columns (columns_from (rows_to Op (Z.of_nat (nx (self w))))
                                (Z.of_nat (nx (self w))))
                  = columns (rows_to Op (Z.of_nat (nx (self w)))))
    by apply firstn_skipn_slices.
  remember (rows_to Op (Z.of_nat (nx (self w)))) as blk eqn:Eblk.
  split; [exact Er|]. split.
  { rewrite ncols_columns_to, py_stop_of_nat_min, Ec. lia. }
  split; [exact Er|]. split.
  { assert (L := f_equal (@length _) Split). rewrite length_app in L.
    pose proof (ncols_columns_to blk (Z.of_nat (nx (self w)))) as K.
    rewrite py_stop_of_nat_min in K. unfold ncols in *. lia. }
  exists A, UA, Op. split; [reflexivity|]. split; [exact E1|].
  split; [exact E2|]. rewrite <- Eblk. exact Split.
Qed.

(** X12.  Once the property [A] can be computed, [get_effective_AB]
    always returns: it returns [(None, None)] whenever [s] or [f] is not
    1, and also when the product [Uy @ A] fails, which the [except]
    branch absorbs.  When [pinv] fails the call raises [LinAlgError],
    because the guard of line 637 computes the property [A] before the
    [try]. *)
Theorem effective_AB_outcomes (w : world) :
  (forall A, prop_A w = (Return A, w) ->
     (exists r, get_effective_AB w = (Return r, w)) /\
     (s (self w) <> 1%Z \/ f (self w) <> 1%Z ->
        get_effective_AB w = (Return NonePair, w)) /\
     (forall e, matmul (Uy (base (self w))) A = Raise e ->
        get_effective_AB w = (Return NonePair, w))) /\
  (np_pinv (Pinvx (base (self w))) = None ->
     get_effective_AB w = (Raise LinAlgError, w)).
Proof.
  split.
  - intros A HA.
    assert (T : exists r, get_effective_AB w = (Return r, w)).
    { pose proof (get_effective_AB_state w) as St.
      unfold get_effective_AB in *.
      rewrite (bind_eq _ _ _ _ _ HA) in *.
      unfold bind at 1 in St. unfold bind at 1. unfold get in *.
      unfold try_except in *.
      match goal with
      | |- context [match ?b w with _ => _ end] => destruct (b w) as [[r|e] w1]
      end; simpl in *; subst; unfold ret; eauto. }
    split; [exact T|]. split.
    + intros N. unfold get_effective_AB.
      rewrite (bind_eq _ _ _ _ _ HA). unfold bind at 1. unfold get.
      unfold try_except. rewrite (bind_eq _ _ _ _ _ HA).
      assert (Esf : ((s (self w) =? 1)%Z && (f (self w) =? 1)%Z) = false).
      { apply andb_false_iff. destruct N as [N|N]; [left|right];
          apply Z.eqb_neq; exact N. }
      unfold bind, lift, ret. rewrite Esf. simpl.
      destruct (matmul (Uy (base (self w))) A) as [UA|e]; [|reflexivity].
      destruct (matmul UA (transpose (Ux (base (self w))))) as [Op|e];
        reflexivity.
    + intros e E1. unfold get_effective_AB.
      rewrite (bind_eq _ _ _ _ _ HA). unfold bind at 1. unfold get.
      unfold try_except. rewrite (bind_eq _ _ _ _ _ HA).
      unfold bind, lift, ret. rewrite E1. reflexivity.
  - intros E. unfold get_effective_AB. apply bind_raise_eq.
    rewrite prop_A_operator. unfold operator_A. rewrite E. reflexivity.
Qed.

(** X13.  Whatever the single-step predictor returns is one column of
    at most [nx] entries. *)
Theorem predict_next_one_column (w w' : world) (aug : ndarray) (r : matrix) :
  predict_next_raw_state_from_augmented aug w = (Return r, w') ->
  ncols r = 1 /\ nrows r <= nx (self w).
Proof.
  unfold predict_next_raw_state_from_augmented.
  unfold bind at 1. rewrite prop_A_operator.
  destruct (operator_A (base (self w))) as [A|e] eqn:EA; [|discriminate].
  unfold bind at 1. unfold get.
  destruct (negb _).
  - unfold ret. intros H. inversion H. unfold full.
    rewrite ncols_build, nrows_build. auto.
  - unfold try_except. unfold bind at 1. rewrite prop_A_operator, EA.
    unfold bind, lift, ret.
    destruct (matmul_nd _ aug) as [t|e]; [|intros H; inversion H; unfold full;
      rewrite ncols_build, nrows_build; auto].
    destruct (matmul_nd A t) as [yr|e]; [|intros H; inversion H; unfold full;
      rewrite ncols_build, nrows_build; auto].
    destruct (matmul_nd _ yr) as [yh|e]; [|intros H; inversion H; unfold full;
      rewrite ncols_build, nrows_build; auto].
    destruct (rows_to_of_column0 yh (nx (self w))) as [p|e] eqn:Ep;
      [|intros H; inversion H; unfold full; rewrite ncols_build, nrows_build; auto].
    intros H. inversion H; subst. clear H.
    unfold rows_to_of_column0 in Ep.
    destruct yh as [v|m]; [discriminate|].
    destruct (columns m) as [|c rest]; [discriminate|].
    inversion Ep; subst. unfold reshape_col, col_vector. simpl.
    split; [reflexivity|]. rewrite length_firstn. lia.
Qed.

Lemma set_column_nrows m j v m' :
  set_column m j v = Return m' -> nrows m' = nrows m.
Proof.
  unfold set_column.
  destruct (Nat.ltb _ _); [destruct (Nat.eqb _ _); [|destruct (Nat.eqb _ _)]|];
    intros H; inversion H; reflexivity.
Qed.

Lemma horizon_body_shape u l0 l1 l2 i P x w step w1 :
  horizon_body u l0 l1 l2 i P x w = (Return step, w1) ->
  step = Returned (columns_to P i) \/
  exists P' x', step = Continue P' x' /\ ncols P' = ncols P /\ nrows P' = nrows P.
Proof.
  unfold horizon_body. intros H.
  apply bind_Return_inv in H. destruct H as [w0 [wa [_ H]]].
  apply bind_Return_inv in H. destruct H as [c [wb [_ H]]].
  apply bind_Return_inv in H. destruct H as [a0 [wc [_ H]]].
  apply bind_Return_inv in H. destruct H as [a1 [wd [_ H]]].
  apply bind_Return_inv in H. destruct H as [a2 [we [_ H]]].
  apply bind_Return_inv in H. destruct H as [aug [wf [_ H]]].
  apply bind_Return_inv in H. destruct H as [nxt [wg [_ H]]].
  destruct (any_isnan nxt).
  - unfold ret in H. inversion H. left. reflexivity.
  - apply bind_Return_inv in H. destruct H as [P' [wh [HP H]]].
    apply lift_Return_inv in HP. destruct HP as [HP _].
    unfold ret in H. inversion H. right.
    exists P', (Mat nxt). split; [reflexivity|].
    split; [eapply set_column_ncols|eapply set_column_nrows]; eauto.
Qed.

Lemma horizon_loop_shape u l0 l1 l2 steps :
  forall P x w r w',
    horizon_loop u l0 l1 l2 steps P x w = (Return r, w') ->
    nrows r = nrows P /\ ncols r <= ncols P.
Proof.
  induction steps as [|i rest IH]; intros P x w r w' H.
  - simpl in H. unfold ret in H. inversion H. auto.
  - simpl in H. apply bind_Return_inv in H. destruct H as [step [w1 [Hb H]]].
    apply horizon_body_shape in Hb.
    destruct Hb as [-> | [P' [x' [-> [HC HR]]]]].
    + unfold ret in H. inversion H; subst.
      split; [reflexivity|]. rewrite ncols_columns_to.
      unfold py_stop. destruct (i <? 0)%Z eqn:N; [apply Z.ltb_lt in N|]; lia.
    + apply IH in H. rewrite <- HC, <- HR. exact H.
Qed.

(** X14.  Whatever [predict_horizon] returns has [nx] rows and at most
    [steps] columns. *)
Theorem predict_horizon_result_shape (w w' : world) (x_hist u_future : matrix)
    (steps : Z) (r : matrix) :
  predict_horizon x_hist u_future steps w = (Return r, w') ->
  nrows r = nx (self w) /\ (Z.of_nat (ncols r) <= steps)%Z.
Proof.
  intros H. unfold predict_horizon in H.
  apply bind_Return_inv in H. destruct H as [A [wa [HA H]]].
  pose proof (prop_A_state w) as E. rewrite HA in E. simpl in E. subst wa.
  apply bind_Return_inv in H. destruct H as [w0 [wb [Hg H]]].
  unfold get in Hg. inversion Hg; subst. clear Hg.
  destruct (x_hist_invalid _ _); [discriminate|].
  destruct (u_future_invalid _ _ _); [discriminate|].
  destruct (steps <? 0)%Z eqn:N; [discriminate|]. apply Z.ltb_ge in N.
  apply bind_Return_inv in H. destruct H as [[[[l0 l1] l2] cx] [w1 [_ H]]].
  apply horizon_loop_shape in H. unfold zeros in H.
  rewrite ncols_build, nrows_build in H. lia.
Qed.

End ViewFacts.

(** ** The control adapters *)

Section AdapterFacts.
Context {SC : Scalar} {LA : LinAlg} {SO : Sorting} {BF : Buffers}.

(** The state is read first: the rest may use that it satisfies [I]. *)
Lemma keeps_read {S B} (I : S -> Prop) (k : S -> M S B) :
  (forall s0, I s0 -> I (snd (k s0 s0))) -> keeps I (bind get k).
Proof. intros H s0 Hs. unfold bind, get. apply H. exact Hs. Qed.

Lemma nth_error_replace_nth_other {A} (l : list A) (j k : nat) (a : A) :
  k <> j -> nth_error (replace_nth l j a) k = nth_error l k.
Proof.
  revert j k. induction l as [|h t IH]; intros j k N; simpl; [reflexivity|].
  destruct j as [|j']; destruct k as [|k']; simpl; try reflexivity.
  - contradiction.
  - apply IH. congruence.
Qed.

Lemma adapter_frame_refl w : adapter_frame w w.
Proof. unfold adapter_frame. repeat split; auto. Qed.

Lemma call_update_adapter w0 l x :
  l = Xstack0 (self w0) \/ l = Xstack1 (self w0) \/ l = Ustack (self w0) ->
  keeps (adapter_frame w0) (call_update l x).
Proof.
  intros Hl w Hw. unfold call_update, bind, get, lift, put, ret, raise. simpl.
  destruct (nth_error (heap w) l) as [o|]; simpl; [|exact Hw].
  destruct (obj_update o x) as [[o' out]|e]; simpl; [|exact Hw].
  unfold adapter_frame in *. simpl.
  destruct Hw as [H1 [H2 [H3 [H4 [H5 [H6 [H7 [H8 H9]]]]]]]].
  do 7 (split; [assumption|]).
  split; [rewrite length_replace_nth; exact H8|].
  intros k K0 K1 K2. rewrite nth_error_replace_nth_other; [apply H9; assumption|].
  destruct Hl as [ -> | [ -> | -> ] ]; assumption.
Qed.

Lemma super_adapter {A} w0 (body : M sDMD_base A) :
  keeps (adapter_frame w0) (super body).
Proof.
  intros w Hw. unfold super.
  destruct (body (base (self w))) as [r o]. simpl. exact Hw.
Qed.

Lemma push_samples_adapter w0 x u :
  keeps (adapter_frame w0) (push_samples x u).
Proof.
  unfold push_samples.
  apply keeps_read. intros w1 H1.
  assert (K : keeps (adapter_frame w0)
                (yhank <- call_update (Xstack0 (self w1)) x ;;
                 w <- get ;;
                 xhank <- call_update (Xstack1 (self w)) yhank ;;
                 w2 <- get ;;
                 udel <- call_update (Ustack (self w2)) u ;;
                 ret (yhank, xhank, udel))%py).
  { apply keeps_bind.
    - apply call_update_adapter. left. apply H1.
    - intros yhank. apply keeps_read. intros w2 H2.
      assert (K2 : keeps (adapter_frame w0)
                (xhank <- call_update (Xstack1 (self w2)) yhank ;;
                 w3 <- get ;;
                 udel <- call_update (Ustack (self w3)) u ;;
                 ret (yhank, xhank, udel))%py).
      { apply keeps_bind.
        - apply call_update_adapter. right. left. apply H2.
        - intros xhank. apply keeps_read. intros w3 H3.
          assert (K3 : keeps (adapter_frame w0)
                    (udel <- call_update (Ustack (self w3)) u ;;
                     ret (yhank, xhank, udel))%py).
          { apply keeps_bind.
            - apply call_update_adapter. right. right. apply H3.
            - intros udel. apply keeps_ret. }
          apply K3. exact H3. }
      apply K2. exact H2. }
  apply K. exact H1.
Qed.

Lemma sDMDc_update_adapter w0 x u : keeps (adapter_frame w0) (sDMDc_update x u).
Proof.
  unfold sDMDc_update.
  apply keeps_bind; [apply push_samples_adapter|]. intros [[yhank xhank] udel].
  apply keeps_bind; [apply keeps_lift|]. intros xnew. apply super_adapter.
Qed.

Lemma sDMDc_oneshot_update_adapter w0 x u :
  keeps (adapter_frame w0) (sDMDc_oneshot_update x u).
Proof.
  unfold sDMDc_oneshot_update.
  apply keeps_bind; [apply push_samples_adapter|]. intros [[yhank xhank] udel].
  apply keeps_bind; [apply keeps_lift|]. intros xnew. apply super_adapter.
Qed.

(** The shapes of the inherited statistics through an adapter call. *)
Lemma call_update_base (I : sDMD_base -> Prop) l x :
  keeps (fun w => I (base (self w))) (call_update l x).
Proof.
  intros w Hw. unfold call_update, bind, get, lift, put, ret, raise. simpl.
  destruct (nth_error (heap w) l) as [o|]; simpl; [|exact Hw].
  destruct (obj_update o x) as [[o' out]|e]; simpl; exact Hw.
Qed.

Lemma super_base {A} (I : sDMD_base -> Prop) (body : M sDMD_base A) :
  keeps I body -> keeps (fun w => I (base (self w))) (super body).
Proof.
  intros K w Hw. unfold super. specialize (K (base (self w)) Hw).
  destruct (body (base (self w))) as [r o]. simpl in *. exact K.
Qed.

Lemma push_samples_base (I : sDMD_base -> Prop) x u :
  keeps (fun w => I (base (self w))) (push_samples x u).
Proof.
  unfold push_samples.
  apply keeps_bind; [apply keeps_get|]. intros w1.
  apply keeps_bind; [apply call_update_base|]. intros yhank.
  apply keeps_bind; [apply keeps_get|]. intros w2.
  apply keeps_bind; [apply call_update_base|]. intros xhank.
  apply keeps_bind; [apply keeps_get|]. intros w3.
  apply keeps_bind; [apply call_update_base|]. intros udel.
  apply keeps_ret.
Qed.

(** X15.  Whether it completes or raises, [update] of [sDMDc] and of
    [sDMDc_oneshot] leaves [s], [f], [nu], [nx] and the three buffer
    references as they were, creates no object and changes no object
    other than the three delay buffers; and it keeps the shapes of [Q],
    [Pinvx] and [Pinvy] consistent with the bases. *)
Theorem adapter_update_frame (w : world) (x_in u_in : ndarray) :
  sort_length_law -> argsort_length_law ->
  adapter_frame w (snd (sDMDc_update x_in u_in w)) /\
  adapter_frame w (snd (sDMDc_oneshot_update x_in u_in w)) /\
  (shape_inv (base (self w)) ->
     shape_inv (base (self (snd (sDMDc_update x_in u_in w)))) /\
     shape_inv (base (self (snd (sDMDc_oneshot_update x_in u_in w))))).
Proof.
  intros Ls La.
  split; [apply sDMDc_update_adapter, adapter_frame_refl|].
  split; [apply sDMDc_oneshot_update_adapter, adapter_frame_refl|].
  intros I. split.
  - revert I. apply (keeps_bind (fun w0 => shape_inv (base (self w0)))).
    + apply (push_samples_base shape_inv).
    + intros [[yhank xhank] udel].
      apply keeps_bind; [apply keeps_lift|]. intros xnew.
      apply super_base. apply update_keeps; assumption.
  - revert I. apply (keeps_bind (fun w0 => shape_inv (base (self w0)))).
    + apply (push_samples_base shape_inv).
    + intros [[yhank xhank] udel].
      apply keeps_bind; [apply keeps_lift|]. intros xnew.
      apply super_base. apply update_keeps; assumption.
Qed.

(** X16.  The buffers take the new samples before the core is updated
    and are not rolled back: once the three buffer updates have
    succeeded, the store after [sDMDc.update] is the store they left,
    also when the stacking or the core update then raises. *)
Theorem adapter_update_not_atomic (w w1 : world) (x_in u_in : ndarray)
    (pushed : ndarray * ndarray * ndarray) :
  push_samples (Mat (reshape_col x_in)) (Mat (reshape_col u_in)) w
  = (Return pushed, w1) ->
  heap (snd (sDMDc_update x_in u_in w)) = heap w1 /\
  heap (snd (sDMDc_oneshot_update x_in u_in w)) = heap w1.
Proof.
  intros H. destruct pushed as [[yhank xhank] udel]. split.
  - unfold sDMDc_update. rewrite (bind_eq _ _ _ _ _ H).
    unfold bind, lift, super.
    destruct (vstack_nd xhank udel) as [xnew|e]; [|reflexivity].
    destruct (update (Mat xnew) yhank (base (self w1))) as [[st|e] o]; reflexivity.
  - unfold sDMDc_oneshot_update. rewrite (bind_eq _ _ _ _ _ H).
    unfold bind, lift, super.
    destruct (vstack_nd xhank udel) as [xnew|e]; [|reflexivity].
    destruct (update (Mat xnew) (Mat (reshape_col x_in)) (base (self w1)))
      as [[st|e] o]; reflexivity.
Qed.

End AdapterFacts.

(** ** The streaming adapter [sDMD] *)

Section PlainFacts.
Context {SC : Scalar} {LA : LinAlg} {SO : Sorting}.

Lemma length_slice_from_1 {A} (l : list A) :
  length (slice_from 1 l) = length l - 1.
Proof.
  unfold slice_from. rewrite length_skipn. unfold py_stop. simpl.
  destruct l; simpl; lia.
Qed.

(** X17.  [sDMD.update] pushes the sample on the rolling window before
    anything else and drops the oldest column only at its very end: a
    call that returns leaves the window as wide as it was, a call that
    raises after the push leaves it one column wider. *)
Theorem plain_update_window (o : Plain.sDMD) (x_in : ndarray)
    (y_in : option ndarray) :
  length (flatten x_in) = nrows (Plain.rolling_x o) ->
  match Plain.update x_in y_in o with
  | (Return _, o') =>
      ncols (Plain.rolling_x o') = ncols (Plain.rolling_x o) /\
      Plain.x_buff o' <> None
  | (Raise _, o') =>
      ncols (Plain.rolling_x o') = S (ncols (Plain.rolling_x o))
  end.
Proof.
  intros L. unfold Plain.update.
  unfold Plain.set_rolling_x, Plain.set_x_buff, Plain.super.
  unfold bind, get, lift, modify, ret. simpl.
  destruct (hstack (Plain.rolling_x o) (reshape_col x_in)) as [R|e] eqn:H.
  2:{ exfalso. unfold hstack in H.
      replace (nrows (reshape_col x_in)) with (length (flatten x_in)) in H
        by reflexivity.
      rewrite L, Nat.eqb_refl in H. discriminate. }
  apply hstack_Return in H. destruct H as [_ [_ C]].
  change (ncols (reshape_col x_in)) with 1 in C.
  simpl.
  destruct (hankel_transform (Mat R) (Plain.s o)) as [Xh|e]; simpl; [|lia].
  destruct (column_at Xh (-1)) as [lastc|e]; simpl; [|lia].
  destruct (column_at Xh 0) as [xnew|e]; simpl; [|lia].
  destruct (update xnew _ (Plain.base o)) as [[st|e] b]; simpl; [|lia].
  split; [|discriminate].
  unfold ncols, columns_from. simpl. rewrite length_slice_from_1.
  unfold ncols in C. lia.
Qed.

(** X18.  A sample whose length is not the row count of the rolling
    window is refused by [np.hstack] before the object is touched. *)
Theorem plain_update_wrong_length (o : Plain.sDMD) (x_in : ndarray)
    (y_in : option ndarray) :
  length (flatten x_in) <> nrows (Plain.rolling_x o) ->
  exists msg, Plain.update x_in y_in o = (Raise (ValueError msg), o).
Proof.
  intros L. unfold Plain.update. unfold bind, get, lift. simpl.
  unfold hstack.
  replace (nrows (reshape_col x_in)) with (length (flatten x_in)) by reflexivity.
  destruct (Nat.eqb (nrows (Plain.rolling_x o)) (length (flatten x_in))) eqn:E.
  - apply Nat.eqb_eq in E. congruence.
  - eexists. reflexivity.
Qed.

Lemma hankel_transform_shape (X out : matrix) (s : Z) :
  (1 <= s)%Z -> hankel_transform (Mat X) s = Return out ->
  (s - 1 <= Z.of_nat (ncols X))%Z /\
  nrows out = nrows X * Z.to_nat s /\
  ncols out = ncols X - (Z.to_nat s - 1).
Proof.
  intros H1. unfold hankel_transform.
  destruct (s =? 1)%Z eqn:E.
  - apply Z.eqb_eq in E. subst s. intros H. inversion H; subst.
    simpl Z.to_nat. lia.
  - apply Z.eqb_neq in E.
    set (sn := Z.to_nat s).
    assert (Es : s = Z.of_nat sn) by (unfold sn; lia).
    unfold zeros_Z.
    destruct ((Z.of_nat (nrows X) * s <? 0)
              || (Z.of_nat (ncols X) - (s - 1) <? 0))%Z eqn:N;
      [simpl; discriminate|].
    apply orb_false_iff in N. destruct N as [_ N]. apply Z.ltb_ge in N.
    simpl.
    replace (Z.of_nat (ncols X) - (s - 1))%Z
      with (Z.of_nat (ncols X - (sn - 1))) by lia.
    replace (Z.to_nat (Z.of_nat (nrows X) * s)) with (nrows X * sn) by nia.
    rewrite Nat2Z.id.
    unfold py_range. fold sn.
    destruct (hankel_fill_blocks X sn (seq 0 sn)) with
      (out := zeros (nrows X * sn) (ncols X - (sn - 1)))
      as [out' [Eo [Ro [Co _]]]].
    + lia.
    + apply Forall_forall. intros i Hi. apply in_seq in Hi. lia.
    + reflexivity.
    + apply ncols_build.
    + rewrite Eo. intros H. inversion H; subst out'.
      unfold zeros in Ro, Co. rewrite ncols_build in Co. simpl in Ro.
      split; [lia|]. split; [exact Ro|exact Co].
Qed.

Lemma sDMD_base_init_rows X Y rmin0 rmax0 thres0 hl (o : sDMD_base) :
  sDMD_base_init X Y rmin0 rmax0 thres0 hl = Return o ->
  ncols X = ncols Y /\ nrows (Ux o) = nrows X /\ nrows (Uy o) = nrows Y.
Proof.
  unfold sDMD_base_init.
  destruct (forgetting_factor hl) as [rho0|e]; simpl; [|discriminate].
  destruct (truncatedSVD X (PyInt rmin0)) as [[[U1 S1] V1]|e]; simpl; [|discriminate].
  destruct (truncatedSVD Y (PyInt rmin0)) as [[[U2 S2] V2]|e]; simpl; [|discriminate].
  destruct (matmul (transpose U1) X) as [Xt|e] eqn:H1; simpl; [|discriminate].
  destruct (matmul (transpose U2) Y) as [Yt|e] eqn:H2; simpl; [|discriminate].
  destruct (matmul Yt (transpose Xt)) as [Q0|e] eqn:H3; simpl; [|discriminate].
  destruct (matmul Xt (transpose Xt)) as [P1|e]; simpl; [|discriminate].
  destruct (matmul Yt (transpose Yt)) as [P2|e]; simpl; [|discriminate].
  intros H. inversion H; subst. simpl in *.
  apply matmul_Return in H1, H2, H3.
  rewrite ?nrows_transpose, ?ncols_transpose in *.
  intuition congruence.
Qed.

(** X19.  When [sDMD.__init__] succeeds with [s >= 1] and [f >= 1], the
    batch has at least [s - 1] snapshots, the rolling window holds its
    last [s + f - 1] snapshots (all of them if there are fewer), [Ux] has
    [s] stacked copies of the rows of [X], [Uy] has the rows of the
    target batch, and [x_buff] does not exist yet. *)
Theorem plain_init_shapes (X : matrix) (rmin0 rmax0 : Z) (Y : option matrix)
    (f0' s0 : Z) (thres0 : F) (hl : option F) (o : Plain.sDMD) :
  (1 <= s0)%Z -> (1 <= f0')%Z ->
  Plain.init X rmin0 rmax0 Y f0' s0 thres0 hl = Return o ->
  Plain.s o = s0 /\ Plain.f o = f0' /\ Plain.x_buff o = None /\
  (s0 - 1 <= Z.of_nat (ncols X))%Z /\
  nrows (Plain.rolling_x o) = nrows X /\
  ncols (Plain.rolling_x o) = Nat.min (ncols X) (Z.to_nat (s0 + f0' - 1)) /\
  nrows (Ux (Plain.base o)) = nrows X * Z.to_nat s0 /\
  nrows (Uy (Plain.base o)) = nrows (match Y with Some T => T | None => X end).
Proof.
  intros Hs Hf. unfold Plain.init.
  destruct (hankel_transform (Mat X) s0) as [Xh|e] eqn:HT; simpl; [|discriminate].
  destruct (sDMD_base_init _ _ rmin0 rmax0 thres0 hl) as [b|e] eqn:HI; simpl;
    [|discriminate].
  intros H. inversion H; subst o. simpl.
  apply hankel_transform_shape in HT; [|exact Hs].
  destruct HT as [T1 [T2 T3]].
  apply sDMD_base_init_rows in HI. destruct HI as [_ [I2 I3]].
  do 3 (split; [reflexivity|]).
  split; [exact T1|]. split; [reflexivity|].
  split.
  - unfold ncols, columns_from, slice_from. simpl. rewrite length_skipn.
    unfold py_stop.
    destruct (- (s0 + f0' - 1) <? 0)%Z eqn:E; [|apply Z.ltb_ge in E; lia].
    fold (ncols X). lia.
  - split.
    + rewrite I2. simpl. exact T2.
    + rewrite I3. destruct Y; reflexivity.
Qed.

End PlainFacts.

(** ** Rank parameters of [truncatedSVD] *)

Section TruncationFacts.
Context {SC : Scalar} {LA : LinAlg} {SO : Sorting}.

Lemma columns_to_all (U : matrix) : columns_to U (Z.of_nat (ncols U)) = U.
Proof.
  destruct U as [n cs]. unfold columns_to, slice_to, ncols. simpl.
  rewrite py_stop_of_nat by lia. rewrite firstn_all. reflexivity.
Qed.

(** X20.  A float rank [r >= 1] is not converted: [min(r, U.shape[1])]
    stays a float unless the column count is smaller, so the slices
    raise [TypeError]; only a float above the column count works, and
    then nothing is truncated. *)
Theorem truncatedSVD_float_rank (X : matrix) (r : F)
    (U : matrix) (Sg : list F) (V : matrix) :
  np_svd X = Some (U, Sg, V) -> fge r f1 = true ->
  (flt (of_Z (Z.of_nat (ncols U))) r = false ->
     truncatedSVD X (PyFloat r) = Raise TypeError) /\
  (flt (of_Z (Z.of_nat (ncols U))) r = true ->
     exists Sr Vr, truncatedSVD X (PyFloat r) = Return (U, Sr, Vr)).
Proof.
  intros E G. unfold truncatedSVD. rewrite E. simpl. rewrite G. simpl.
  split; intros L; rewrite L; simpl.
  - reflexivity.
  - rewrite columns_to_all. eexists. eexists. reflexivity.
Qed.

End TruncationFacts.

(** ** The modes of the control classes *)

Section ControlModes.
Context {SC : Scalar} {LA : LinAlg} {SO : Sorting} {BF : Buffers}.

Lemma py_stop_opp n k :
  py_stop (- Z.of_nat k) n = if Nat.eqb k 0 then 0 else n - k.
Proof.
  unfold py_stop. destruct k as [|k']; [reflexivity|].
  cbn [Nat.eqb].
  destruct (- Z.of_nat (S k') <? 0)%Z eqn:E.
  - lia.
  - apply Z.ltb_ge in E. lia.
Qed.

(** X21.  [modes] of the control classes drops the last [nu] rows of
    [Ux] with [Ux[: -self.nu, :]]: when it returns, [Uy] has exactly the
    rows that are left and there is one mode per column of [Ux].  With
    [nu = 0] the slice [Ux[:-0, :]] is empty, so the first product raises
    as soon as [Uy] has a row. *)
Theorem control_modes_shape (w : world) :
  shape_inv (base (self w)) -> pinv_shape_law -> eig_shape_law ->
  (forall modes eigvals w',
     control_modes w = (Return (modes, eigvals), w') ->
     nrows (Uy (base (self w)))
     = (if Nat.eqb (nu (self w)) 0 then 0
        else nrows (Ux (base (self w))) - nu (self w)) /\
     nrows modes = nrows (Uy (base (self w))) /\
     ncols modes = ncols (Ux (base (self w))) /\
     length eigvals = ncols (Ux (base (self w)))) /\
  (nu (self w) = 0 -> nrows (Uy (base (self w))) <> 0 ->
     exists msg, control_modes w = (Raise (ValueError msg), w)).
Proof.
  intros I Lp Le.
  pose proof (py_stop_opp (nrows (Ux (base (self w)))) (nu (self w))) as R.
  split.
  - intros modes eigvals w'. unfold control_modes.
    unfold bind at 1. unfold get. unfold bind at 1. unfold lift at 1.
    destruct (matmul _ (Uy (base (self w)))) as [t|e] eqn:E1; [|discriminate].
    unfold bind at 1. rewrite prop_A_operator.
    destruct (operator_A (base (self w))) as [A|e] eqn:E2; [|discriminate].
    unfold bind at 1. unfold lift at 1.
    destruct (matmul t A) as [K|e] eqn:E3; [|discriminate].
    unfold bind at 1. unfold lift at 1.
    destruct (np_eig K) as [[ev V]|] eqn:E4; simpl; [|discriminate].
    unfold bind, lift, ret.
    destruct (matmul _ V) as [md|e] eqn:E5; [|discriminate].
    intros H. inversion H; subst.
    apply matmul_Return in E1, E3, E5. apply Le in E4.
    rewrite nrows_transpose, ncols_transpose in E1.
    rewrite ncols_rows_to in E1. rewrite nrows_rows_to in E1, E5.
    rewrite R in E1, E5.
    intuition congruence.
  - intros N0 NU. unfold control_modes.
    unfold bind at 1. unfold get. unfold bind at 1. unfold lift at 1.
    unfold matmul at 1. rewrite ncols_transpose, nrows_rows_to, R, N0.
    cbn [Nat.eqb].
    destruct (nrows (Uy (base (self w)))) as [|k]; [contradiction|].
    eexists. reflexivity.
Qed.

End ControlModes.

(** ** Closed examples for the remaining code *)

Lemma diagonal_pinv_shape : pinv_shape_law.
Proof.
  intros m p H. simpl in H. unfold diagonal_pinv in H.
  destruct (Nat.eqb (nrows m) (ncols m)) eqn:E; simpl in H; [|discriminate].
  destruct (all_finite m && is_diagonal m); simpl in H; [|discriminate].
  apply Nat.eqb_eq in E. inversion H; subst.
  rewrite nrows_diag, ncols_diag, length_map. unfold diagonal_of.
  rewrite length_map, length_seq. lia.
Qed.

Lemma hankel_transform_blocks_witness :
  exists out,
    hankel_transform (Mat X_batch) 2 = Return out /\
    nrows out = 6 /\ ncols out = 1 /\
    forall i r j, i < 2 -> r < 3 -> j < ncols out ->
      entry out (i * 3 + r) j = entry X_batch r (1 - i + j).
Proof. apply (hankel_transform_blocks X_batch 2); simpl; lia. Defined.

Lemma hankel_transform_short_input_witness :
  hankel_transform (Mat X_batch) 4
  = Raise (ValueError "negative dimensions are not allowed").
Proof.
  apply hankel_transform_short_input; unfold intp_max; simpl; lia.
Defined.

Lemma update_rejects_wrong_length_witness :
  exists msg,
    update y_inside y_inside trained_base
    = (Raise (ValueError msg), trained_base).
Proof. apply update_rejects_wrong_length. left. simpl. lia. Defined.

Lemma update_completes_with_room_witness :
  exists st o',
    update x_outside y_inside roomy_base = (Return st, o') /\
    fst st <> REDUCTION /\ snd st <> REDUCTION.
Proof.
  apply update_completes_with_room;
    [repeat split | reflexivity | reflexivity | simpl; lia | simpl; lia].
Defined.

Lemma construction_requirements_witness :
  ncols X_batch = ncols Y_batch /\
  nrows (Ux trained_base) = nrows X_batch /\
  nrows (Uy trained_base) = nrows Y_batch /\
  (1 <= 2)%Z /\
  (Z.of_nat (ncols (Ux trained_base)) <= 2)%Z /\
  (Z.of_nat (ncols (Uy trained_base)) <= 2)%Z.
Proof.
  assert (E : init_statistics X_batch Y_batch (PyInt 2)
              = Return (Ux trained_base, Uy trained_base, Q trained_base,
                        Pinvx trained_base, Pinvy trained_base))
    by reflexivity.
  destruct (construction_requirements X_batch Y_batch (PyInt 2) _ _ _ _ _ E)
    as [A [B [C [_ [_ [_ [_ [_ [_ D]]]]]]]]].
  split; [exact A|]. split; [exact B|]. split; [exact C|].
  exact (D 2%Z eq_refl).
Defined.

Lemma operator_A_shape_witness :
  exists A, operator_A trained_base = Return A /\ nrows A = 2 /\ ncols A = 2.
Proof.
  destruct (operator_A_shape trained_base) as [S1 [S2 _]];
    [repeat split | exact diagonal_pinv_shape |].
  destruct (S2 _ eq_refl) as [A EA].
  exists A. split; [exact EA|]. exact (S1 A EA).
Defined.

Lemma base_modes_shape_witness :
  exists modes eigvals,
    base_modes y_expanded_base = Return (modes, eigvals) /\
    nrows modes = 3 /\ ncols modes = 2 /\ length eigvals = 2.
Proof.
  destruct (base_modes_shape y_expanded_base) as [_ S2];
    [repeat split | exact diagonal_pinv_shape | exact diagonal_eig_shape |].
  eexists. eexists. split; [reflexivity|].
  destruct (S2 _ _ eq_refl) as [_ H]. exact H.
Defined.

Lemma control_matrix_shape_witness :
  exists B CB,
    prop_B trained_world = (Return B, trained_world) /\
    nrows B = 2 /\ ncols B = 1 /\
    sDMDc_CB trained_world = (Return CB, trained_world) /\
    nrows CB = 2 /\ ncols CB = ncols B.
Proof.
  refine (control_matrix_shape trained_world _ _ diagonal_pinv_shape eq_refl).
  repeat split.
Defined.

Lemma effective_AB_split_witness :
  exists A_eff B_eff,
    get_effective_AB trained_world
    = (Return (Matrices A_eff B_eff), trained_world) /\
    nrows A_eff = 2 /\ ncols A_eff = 2 /\ nrows B_eff = 2 /\ ncols B_eff = 1.
Proof.
  assert (E : get_effective_AB trained_world
              = (Return (Matrices A_eff_trained B_eff_trained), trained_world))
    by reflexivity.
  exists A_eff_trained, B_eff_trained.
  split; [exact E|].
  destruct (effective_AB_split trained_world trained_world
              A_eff_trained B_eff_trained E)
    as [_ [_ [H1 [H2 [H3 [H4 _]]]]]].
  exact (conj H1 (conj H2 (conj H3 H4))).
Defined.

Lemma effective_AB_outcomes_witness :
  (exists r, get_effective_AB trained_world = (Return r, trained_world)) /\
  get_effective_AB nan_world = (Raise LinAlgError, nan_world).
Proof.
  split.
  - destruct (effective_AB_outcomes trained_world) as [H _].
    destruct (H _ eq_refl) as [R _]. exact R.
  - destruct (effective_AB_outcomes nan_world) as [_ H].
    apply H. reflexivity.
Defined.

Lemma predict_next_one_column_witness :
  exists r,
    predict_next_raw_state_from_augmented aug_column trained_world
    = (Return r, trained_world) /\
    ncols r = 1 /\ nrows r <= 2.
Proof.
  assert (E : predict_next_raw_state_from_augmented aug_column trained_world
              = (Return predicted_column, trained_world)) by reflexivity.
  exists predicted_column. split; [exact E|].
  exact (predict_next_one_column trained_world trained_world aug_column
           predicted_column E).
Defined.

Lemma predict_horizon_result_shape_witness :
  exists r,
    fst (predict_horizon x_history u_two_columns 1 trained_world) = Return r /\
    nrows r = 2 /\ (Z.of_nat (ncols r) <= 1)%Z.
Proof.
  exists predicted_column. split; [reflexivity|].
  apply (predict_horizon_result_shape trained_world
           (snd (predict_horizon x_history u_two_columns 1 trained_world))
           x_history u_two_columns 1).
  reflexivity.
Defined.

Lemma adapter_update_frame_witness :
  adapter_frame trained_world
    (snd (sDMDc_update x_sample u_sample trained_world)) /\
  adapter_frame trained_world
    (snd (sDMDc_oneshot_update x_sample u_sample trained_world)) /\
  shape_inv (base (self (snd (sDMDc_update x_sample u_sample trained_world)))) /\
  shape_inv
    (base (self (snd (sDMDc_oneshot_update x_sample u_sample trained_world)))).
Proof.
  destruct (adapter_update_frame trained_world x_sample u_sample
              insertion_sort_length insertion_argsort_length) as [A [B C]].
  split; [exact A|]. split; [exact B|]. apply C. repeat split.
Defined.

Lemma adapter_update_not_atomic_witness :
  heap (snd (sDMDc_update x_sample u_sample trained_world))
  = heap (snd (push_samples (Mat (reshape_col x_sample))
                 (Mat (reshape_col u_sample)) trained_world)) /\
  heap (snd (sDMDc_oneshot_update x_sample u_sample trained_world))
  = heap (snd (push_samples (Mat (reshape_col x_sample))
                 (Mat (reshape_col u_sample)) trained_world)).
Proof.
  refine (adapter_update_not_atomic trained_world _ x_sample u_sample _ eq_refl).
Defined.

Lemma plain_update_window_witness :
  match Plain.update x_next (Some y_next) plain_model with
  | (Return _, o') =>
      ncols (Plain.rolling_x o') = 2 /\ Plain.x_buff o' <> None
  | (Raise _, o') => ncols (Plain.rolling_x o') = 3
  end.
Proof.
  apply (plain_update_window plain_model x_next (Some y_next)).
  reflexivity.
Defined.

Lemma plain_update_wrong_length_witness :
  exists msg,
    Plain.update x_sample None plain_model
    = (Raise (ValueError msg), plain_model).
Proof. apply plain_update_wrong_length. simpl. lia. Defined.

Lemma plain_init_shapes_witness :
  Plain.init X_stream 2 2 (Some Y_stream) 1 2 0.2%float None
  = Return plain_model /\
  ncols (Plain.rolling_x plain_model) = 2 /\
  nrows (Ux (Plain.base plain_model)) = 2 /\
  nrows (Uy (Plain.base plain_model)) = 1.
Proof.
  split; [reflexivity|].
  destruct (plain_init_shapes X_stream 2 2 (Some Y_stream) 1 2 0.2%float None
              plain_model) as [_ [_ [_ [_ [_ [A [B C]]]]]]];
    [lia | lia | reflexivity |].
  exact (conj A (conj B C)).
Defined.

Lemma truncatedSVD_float_rank_witness :
  truncatedSVD X_batch (PyFloat 2%float) = Raise TypeError /\
  exists Sr Vr,
    truncatedSVD X_batch (PyFloat 2.5%float) = Return (eye 3 2, Sr, Vr).
Proof.
  split.
  - refine (proj1 (truncatedSVD_float_rank X_batch 2%float _ _ _
                     eq_refl eq_refl) eq_refl).
  - refine (proj2 (truncatedSVD_float_rank X_batch 2.5%float _ _ _
                     eq_refl eq_refl) eq_refl).
Defined.

Lemma control_modes_shape_witness :
  exists modes eigvals,
    control_modes trained_world = (Return (modes, eigvals), trained_world) /\
    nrows (Uy trained_base) = 3 - 1 /\
    nrows modes = 2 /\ ncols modes = 2 /\ length eigvals = 2.
Proof.
  destruct (control_modes_shape trained_world) as [S1 _];
    [repeat split | exact diagonal_pinv_shape | exact diagonal_eig_shape |].
  assert (E : control_modes trained_world
              = (Return (eye 2 2, [1%float; 1%float]), trained_world))
    by reflexivity.
  exists (eye 2 2), [1%float; 1%float]. split; [exact E|].
  exact (S1 _ _ _ E).
Defined.

(** Line 97 on a zero half-life, and on one whose power overflows. *)
Example construction_zero_halflife :
  sDMD_base_init X_batch Y_batch 2 2 0.2%float (Some 0%float)
  = Raise ZeroDivisionError.
Proof. reflexivity. Qed.

Example construction_overflowing_halflife :
  sDMD_base_init X_batch Y_batch 2 2 0.2%float (Some (-0.0009765625)%float)
  = Raise OverflowError.
Proof. reflexivity. Qed.

(** A float [rmin] of the energy mode: 80% of the energy keeps one
    direction on each side. *)
Example construction_with_energy_rank :
  exists U1 U2 Q0 P1 P2,
    init_statistics X_batch Y_batch (PyFloat 0.8%float)
    = Return (U1, U2, Q0, P1, P2) /\
    ncols U1 = 1 /\ ncols U2 = 1.
Proof. do 5 eexists. split; [reflexivity|]. split; reflexivity. Qed.

(** A stack size whose row count leaves the index type. *)
Example hankel_transform_beyond_index_type :
  hankel_transform (Mat X_batch) (2 ^ 62)
  = Raise (ValueError "Maximum allowed dimension exceeded").
Proof. reflexivity. Qed.
